(** * Bang Gang: the roulette tipping game, its economy and its registry

    A shallow embedding of [src/game.ts] (economy and chamber primitives)
    and [src/gameManager.ts] (the [GameManager] class), followed by the
    properties of the specification that concern them.

    Conventions of the embedding:
    - [bigint] values are [Z]; [/] on [bigint] truncates toward zero
      ([Z.quot]) and throws a [RangeError] on a zero divisor;
    - [number] values that the code only ever uses as integers are [Z];
      the two chamber fields are [number]s that can become [NaN], so they
      carry the type [number] below;
    - [Player] objects are shared between [players] and [alivePlayers]:
      both arrays hold references into one object store, and the write
      [currentPlayer.isAlive = false] is a write to that store;
    - the [Map] of the manager is a [gmap] from channel ids to games,
      together with the list of its keys in order of insertion, which is
      the order in which the [Map] is iterated;
    - [Math.random()] and [Date.now()] are inputs of the operations that
      call them; the sample of [Math.random()] is the rational that the
      [number] denotes, and its product by 6 is rounded to the nearest
      [number] as the multiplication of binary64 does;
    - strings are strings of ASCII characters: [toLowerCase] and [trim]
      are the ones of JavaScript on such strings, and the properties that
      tell two strings apart by them assume that the strings are ASCII;
    - the template strings of the messages are rendered as the
      constructors of [Message], carrying the values interpolated. *)

From Stdlib Require Import ZArith QArith Qround Ascii String List Lia Lqa.
From stdpp Require Import base list strings gmap fin_maps.

Local Open Scope string_scope.
Local Open Scope list_scope.
Local Open Scope Z_scope.

(** ** JavaScript values *)

Module JS.

(** The [number]s of the gun: an integer or [NaN]. *)
Inductive number : Type :=
| Num (z : Z)
| NaN.

(** [undefined] converted by an arithmetic operator (ToNumber). *)
Definition ofUndefined : number := NaN.

(** [a + b] *)
Definition add (a b : number) : number :=
  match a, b with
  | Num x, Num y => Num (x + y)
  | _, _ => NaN
  end.

(** [a % b]: the remainder takes the sign of the dividend; a zero or
    [NaN] divisor gives [NaN]. *)
Definition rem (a b : number) : number :=
  match a, b with
  | Num x, Num y => if y =? 0 then NaN else Num (Z.rem x y)
  | _, _ => NaN
  end.

(** [a === b]: [NaN] is equal to nothing, itself included. *)
Definition strictEq (a b : number) : bool :=
  match a, b with
  | Num x, Num y => x =? y
  | _, _ => false
  end.

(** [a / b] on [bigint]: [None] is the [RangeError] of a zero divisor. *)
Definition bigintDiv (a b : Z) : option Z :=
  if b =? 0 then None else Some (Z.quot a b).

(** The string holds ASCII characters only (code points below 128). *)
Definition isAscii (s : string) : bool :=
  forallb (fun c => Nat.ltb (nat_of_ascii c) 128) (list_ascii_of_string s).

(** [c.toLowerCase()] on one ASCII character: the letters [A]-[Z] are the
    only ASCII characters that have a lower case. *)
Definition lowerAscii (c : ascii) : ascii :=
  let n := nat_of_ascii c in
  if (Nat.leb 65 n && Nat.leb n 90)%bool then ascii_of_nat (n + 32) else c.

(** [s.toLowerCase()] on a string of ASCII characters. Outside ASCII the
    function of JavaScript lowers further letters; two strings that this
    one makes equal differ in the case of ASCII letters only, so that one
    makes them equal too. *)
Fixpoint toLowerCase (s : string) : string :=
  match s with
  | EmptyString => EmptyString
  | String c s' => String (lowerAscii c) (toLowerCase s')
  end.

(** [Math.floor(x)] on the rational that a [number] denotes. *)
Definition floor (x : Q) : Z := Qfloor x.

End JS.

Import JS.

(** The arithmetic of binary64 on the [number]s that are not negative,
    each taken as the rational it denotes, as long as the results stay
    below [2^1024] (beyond, binary64 yields [Infinity]). A [number] is a
    multiple of its unit in the last place, which is [2^-1074] below
    [2^-1021] and [2^(e-52)] from [2^e] to [2^(e+1)] above. *)
Module Double.

(** The nearest integer, the even one of two that are equally near. *)
Definition roundHalfEven (x : Q) : Z :=
  let n := Qfloor x in
  match (x - inject_Z n ?= 1 # 2)%Q with
  | Lt => n
  | Gt => n + 1
  | Eq => if Z.even n then n else n + 1
  end.

(** Values are measured in multiples of [2^-1074], the smallest positive
    [number]. *)
Definition scale : Z := 2 ^ 1074.

(** The unit in the last place at [x], in multiples of [2^-1074]. *)
Definition ulp (x : Q) : Z :=
  2 ^ Z.max 0 (Z.log2 (Qfloor (x * inject_Z scale)) - 52).

(** The [number] nearest to [x], ties to the even significand. *)
Definition round (x : Q) : Q :=
  inject_Z (roundHalfEven (x * inject_Z scale / inject_Z (ulp x)) * ulp x)
  / inject_Z scale.

(** [a * b] on [number]s: the exact product, rounded. *)
Definition mul (a b : Q) : Q := round (a * b).

(** The rational [x] is a [number]. *)
Definition representable (x : Q) : Prop := (round x == x)%Q.

End Double.

(** ** game.ts: the data model *)

Inductive GameState : Type := waiting | active | finished.

Definition GameState_eqb (a b : GameState) : bool :=
  match a, b with
  | waiting, waiting | active, active | finished, finished => true
  | _, _ => false
  end.

Record Player : Type := mkPlayer {
  userId : string;
  displayName : string;
  isAlive : bool;
  entryAmount : Z
}.

(** A reference to a [Player] object: its position in the object store of
    the game, in order of allocation. *)
Abbreviation ref := nat (only parsing).

Record Game : Type := mkGame {
  gameId : Z;                     (* the stamp of [`game-${Date.now()}`] *)
  channelId : string;
  spaceId : string;
  state : GameState;
  playerObjs : list Player;       (* the [Player] objects of this game *)
  players : list ref;
  alivePlayers : list ref;
  currentTurnIndex : Z;
  poolA : Z;
  poolB : Z;
  houseRake : Z;
  gunChamber : number;
  bulletChamber : number;
  consecutivePasses : Z;
  forcedShoot : bool;
  consecutiveSafeShots : Z;
  lastDeathTime : option Z;
  turnTimer : option nat;
  turnStartTime : option Z;
  createdAt : Z
}.

Record GameConfig : Type := mkConfig {
  minPlayers : Z;
  maxPlayers : Z;
  rakePercent : Z;
  passPenalty : Z;
  bonusFromB : Z;
  turnTimerSeconds : Z;
  chambers : Z;
  bullets : Z;
  maxSafeShots : Z;
  maxGameDurationMinutes : Z
}.

Definition DEFAULT_CONFIG : GameConfig := {|
  minPlayers := 2;
  maxPlayers := 6;
  rakePercent := 10;
  passPenalty := 150000000000000;
  bonusFromB := 150000000000000;
  turnTimerSeconds := 10;
  chambers := 6;
  bullets := 1;
  maxSafeShots := 18;
  maxGameDurationMinutes := 30
|}.

(** Field assignments [game.f = v]. *)
Definition set_state (v : GameState) (g : Game) : Game :=
  mkGame (gameId g) (channelId g) (spaceId g) v (playerObjs g) (players g)
    (alivePlayers g) (currentTurnIndex g) (poolA g) (poolB g) (houseRake g)
    (gunChamber g) (bulletChamber g) (consecutivePasses g) (forcedShoot g)
    (consecutiveSafeShots g) (lastDeathTime g) (turnTimer g) (turnStartTime g)
    (createdAt g).

Definition set_playerObjs (v : list Player) (g : Game) : Game :=
  mkGame (gameId g) (channelId g) (spaceId g) (state g) v (players g)
    (alivePlayers g) (currentTurnIndex g) (poolA g) (poolB g) (houseRake g)
    (gunChamber g) (bulletChamber g) (consecutivePasses g) (forcedShoot g)
    (consecutiveSafeShots g) (lastDeathTime g) (turnTimer g) (turnStartTime g)
    (createdAt g).

Definition set_players (v : list ref) (g : Game) : Game :=
  mkGame (gameId g) (channelId g) (spaceId g) (state g) (playerObjs g) v
    (alivePlayers g) (currentTurnIndex g) (poolA g) (poolB g) (houseRake g)
    (gunChamber g) (bulletChamber g) (consecutivePasses g) (forcedShoot g)
    (consecutiveSafeShots g) (lastDeathTime g) (turnTimer g) (turnStartTime g)
    (createdAt g).

Definition set_alivePlayers (v : list ref) (g : Game) : Game :=
  mkGame (gameId g) (channelId g) (spaceId g) (state g) (playerObjs g)
    (players g) v (currentTurnIndex g) (poolA g) (poolB g) (houseRake g)
    (gunChamber g) (bulletChamber g) (consecutivePasses g) (forcedShoot g)
    (consecutiveSafeShots g) (lastDeathTime g) (turnTimer g) (turnStartTime g)
    (createdAt g).

Definition set_currentTurnIndex (v : Z) (g : Game) : Game :=
  mkGame (gameId g) (channelId g) (spaceId g) (state g) (playerObjs g)
    (players g) (alivePlayers g) v (poolA g) (poolB g) (houseRake g)
    (gunChamber g) (bulletChamber g) (consecutivePasses g) (forcedShoot g)
    (consecutiveSafeShots g) (lastDeathTime g) (turnTimer g) (turnStartTime g)
    (createdAt g).

Definition set_poolA (v : Z) (g : Game) : Game :=
  mkGame (gameId g) (channelId g) (spaceId g) (state g) (playerObjs g)
    (players g) (alivePlayers g) (currentTurnIndex g) v (poolB g)
    (houseRake g) (gunChamber g) (bulletChamber g) (consecutivePasses g)
    (forcedShoot g) (consecutiveSafeShots g) (lastDeathTime g) (turnTimer g)
    (turnStartTime g) (createdAt g).

Definition set_poolB (v : Z) (g : Game) : Game :=
  mkGame (gameId g) (channelId g) (spaceId g) (state g) (playerObjs g)
    (players g) (alivePlayers g) (currentTurnIndex g) (poolA g) v
    (houseRake g) (gunChamber g) (bulletChamber g) (consecutivePasses g)
    (forcedShoot g) (consecutiveSafeShots g) (lastDeathTime g) (turnTimer g)
    (turnStartTime g) (createdAt g).

Definition set_houseRake (v : Z) (g : Game) : Game :=
  mkGame (gameId g) (channelId g) (spaceId g) (state g) (playerObjs g)
    (players g) (alivePlayers g) (currentTurnIndex g) (poolA g)
    (poolB g) v (gunChamber g) (bulletChamber g) (consecutivePasses g)
    (forcedShoot g) (consecutiveSafeShots g) (lastDeathTime g) (turnTimer g)
    (turnStartTime g) (createdAt g).

Definition set_gunChamber (v : number) (g : Game) : Game :=
  mkGame (gameId g) (channelId g) (spaceId g) (state g) (playerObjs g)
    (players g) (alivePlayers g) (currentTurnIndex g) (poolA g)
    (poolB g) (houseRake g) v (bulletChamber g) (consecutivePasses g)
    (forcedShoot g) (consecutiveSafeShots g) (lastDeathTime g) (turnTimer g)
    (turnStartTime g) (createdAt g).

Definition set_bulletChamber (v : number) (g : Game) : Game :=
  mkGame (gameId g) (channelId g) (spaceId g) (state g) (playerObjs g)
    (players g) (alivePlayers g) (currentTurnIndex g) (poolA g)
    (poolB g) (houseRake g) (gunChamber g) v (consecutivePasses g)
    (forcedShoot g) (consecutiveSafeShots g) (lastDeathTime g) (turnTimer g)
    (turnStartTime g) (createdAt g).

Definition set_consecutivePasses (v : Z) (g : Game) : Game :=
  mkGame (gameId g) (channelId g) (spaceId g) (state g) (playerObjs g)
    (players g) (alivePlayers g) (currentTurnIndex g) (poolA g)
    (poolB g) (houseRake g) (gunChamber g) (bulletChamber g) v
    (forcedShoot g) (consecutiveSafeShots g) (lastDeathTime g) (turnTimer g)
    (turnStartTime g) (createdAt g).

Definition set_forcedShoot (v : bool) (g : Game) : Game :=
  mkGame (gameId g) (channelId g) (spaceId g) (state g) (playerObjs g)
    (players g) (alivePlayers g) (currentTurnIndex g) (poolA g)
    (poolB g) (houseRake g) (gunChamber g) (bulletChamber g)
    (consecutivePasses g) v (consecutiveSafeShots g) (lastDeathTime g)
    (turnTimer g) (turnStartTime g) (createdAt g).

Definition set_consecutiveSafeShots (v : Z) (g : Game) : Game :=
  mkGame (gameId g) (channelId g) (spaceId g) (state g) (playerObjs g)
    (players g) (alivePlayers g) (currentTurnIndex g) (poolA g)
    (poolB g) (houseRake g) (gunChamber g) (bulletChamber g)
    (consecutivePasses g) (forcedShoot g) v (lastDeathTime g)
    (turnTimer g) (turnStartTime g) (createdAt g).

Definition set_lastDeathTime (v : option Z) (g : Game) : Game :=
  mkGame (gameId g) (channelId g) (spaceId g) (state g) (playerObjs g)
    (players g) (alivePlayers g) (currentTurnIndex g) (poolA g)
    (poolB g) (houseRake g) (gunChamber g) (bulletChamber g)
    (consecutivePasses g) (forcedShoot g) (consecutiveSafeShots g) v
    (turnTimer g) (turnStartTime g) (createdAt g).

Definition set_turnTimer (v : option nat) (g : Game) : Game :=
  mkGame (gameId g) (channelId g) (spaceId g) (state g) (playerObjs g)
    (players g) (alivePlayers g) (currentTurnIndex g) (poolA g)
    (poolB g) (houseRake g) (gunChamber g) (bulletChamber g)
    (consecutivePasses g) (forcedShoot g) (consecutiveSafeShots g)
    (lastDeathTime g) v (turnStartTime g) (createdAt g).

Definition set_turnStartTime (v : option Z) (g : Game) : Game :=
  mkGame (gameId g) (channelId g) (spaceId g) (state g) (playerObjs g)
    (players g) (alivePlayers g) (currentTurnIndex g) (poolA g)
    (poolB g) (houseRake g) (gunChamber g) (bulletChamber g)
    (consecutivePasses g) (forcedShoot g) (consecutiveSafeShots g)
    (lastDeathTime g) (turnTimer g) v (createdAt g).

(** ** game.ts: economy and chamber primitives *)

Record EntryDistribution : Type := mkDistribution {
  rake : Z;
  toPoolA : Z
}.

(** [calculateEntryDistribution] (game.ts 68-75). [BigInt(rakePercent)]
    is the integer itself; [BigInt(100)] is not zero, so the division
    cannot throw. *)
Definition calculateEntryDistribution (entryAmount rakePercent : Z)
  : EntryDistribution :=
  let rake := Z.quot (entryAmount * rakePercent) 100 in
  let toPoolA := entryAmount - rake in
  {| rake := rake; toPoolA := toPoolA |}.

(** [randomBulletPosition] (game.ts 80-82); [rnd] is the value returned by
    [Math.random()], a [number] with [0 <= rnd < 1]. *)
Definition randomBulletPosition (rnd : Q) : number :=
  Num (floor (Double.mul rnd 6)).

(** [checkChamber] (game.ts 87-89) *)
Definition checkChamber (game : Game) : bool :=
  strictEq (gunChamber game) (bulletChamber game).

(** The property read [game.chambers]. The interface [Game] declares no
    property [chambers] ([chambers] is a field of [GameConfig]), the object
    literal of [createGame] has none and nothing assigns one, so the read
    yields [undefined]. *)
Definition Game_chambers (game : Game) : number := ofUndefined.

(** [advanceChamber] (game.ts 94-96) *)
Definition advanceChamber (game : Game) : Game :=
  set_gunChamber (rem (add (gunChamber game) (Num 1)) (Game_chambers game)) game.

(** [resetGun] (game.ts 101-108) *)
Definition resetGun (rnd : Q) (game : Game) : Game :=
  let game := set_gunChamber (Num 0) game in
  set_bulletChamber (randomBulletPosition rnd) game.

(** ** gameManager.ts: the registry *)

Record GameManager : Type := mkManager {
  games : gmap string Game;       (* channelId -> Game *)
  insertionOrder : list string;   (* the keys of [games], oldest first *)
  config : GameConfig
}.

(** The keys of a [Map] after [delete(channel)]. *)
Definition without (channel : string) (keys : list string) : list string :=
  List.filter (fun k => negb (String.eqb k channel)) keys.

Inductive Action : Type := shoot | pass.

(** The second half of the message of an elimination. *)
Inductive Aftermath : Type :=
| Wins (winner : string) (prize : Z)    (* "<@winner> wins! prize ETH" *)
| Reloaded (remaining : nat).           (* "Gun reloaded... n players remain" *)

(** A refund announced in a message: the amount for each player and the
    players named. *)
Record Refund : Type := mkRefund {
  refundPerPlayer : Z;
  refunded : list string
}.

(** The messages of the manager, one constructor for each template. *)
Inductive Message : Type :=
| NoGameStartOne                  (* 'No game found. Start a game with /start' *)
| AlreadyInProgress               (* 'Game is already in progress' *)
| AlreadyJoined                   (* 'You are already in this game' *)
| GameFull (max : Z)              (* 'Game is full (max n players)' *)
| Joined (a : Z)                  (* 'Joined! Pool A: a' *)
| NoGame                          (* 'No game found' *)
| AlreadyActive                   (* 'Game is already active' *)
| NeedPlayers (min : Z)           (* 'Need at least n players to start' *)
| Started                         (* 'Game started!' *)
| NoActiveGame                    (* 'No active game found' *)
| NotActive                       (* 'Game is not active' *)
| NotYourTurn (expected : string) (* "It's not your turn. Current turn: <@e>" *)
| AlreadyEliminated               (* 'You are already eliminated' *)
| MustShoot                       (* 'Full table passed! You must /shoot' *)
| Passed (a b : Z) (fullTable : bool)
| Bang (victim : string) (then_ : Aftermath)
| SafeTerminated (r : Refund)     (* 'Click! Safe! Game terminated - Too many safe shots' *)
| Safe (bonus : bool) (a b : Z)   (* 'Click! Safe!' *)
| DurationExceeded (max : Z) (r : Refund)
| DurationLimit                   (* 'Game terminated due to duration limit' *)
| AlreadyFinished                 (* 'Game is already finished' *)
| Stopped (r : option Refund).    (* 'Game stopped' and the refund text *)

Record Result : Type := mkResult {
  success : bool;
  message : Message;
  game : option Game
}.

Definition failure (msg : Message) : Result :=
  {| success := false; message := msg; game := None |}.

(** Dereferencing a [Player] reference. *)
Definition deref (g : Game) (r : ref) : option Player := playerObjs g !! r.

(** [p.isAlive] through a reference. *)
Definition aliveRef (g : Game) (r : ref) : bool :=
  match deref g r with
  | Some p => isAlive p
  | None => false
  end.

(** [list.map(p => p.userId)] *)
Definition userIds (g : Game) (l : list ref) : list string :=
  omap (fun r => userId <$> deref g r) l.

(** [createGame] (gameManager.ts 32-59); [None] is the [Error] thrown when
    a game is active in the channel. *)
Definition createGame (now : Z) (rnd : Q) (channel space : string)
    (m : GameManager) : option (GameManager * Game) :=
  let existing := games m !! channel in
  if match existing with
     | Some e => GameState_eqb (state e) active
     | None => false
     end
  then None
  else
    let game := mkGame now channel space waiting [] [] [] 0 0 0 0
                  (Num 0) (randomBulletPosition rnd) 0 false 0
                  None None None now in
    (* [set] keeps a key the [Map] holds in its place and appends a new one *)
    let keys := match existing with
                | Some _ => insertionOrder m
                | None => insertionOrder m ++ [channel]
                end in
    Some (mkManager (<[channel := game]> (games m)) keys (config m), game).

(** [getGame] (gameManager.ts 64-66) *)
Definition getGame (channel : string) (m : GameManager) : option Game :=
  games m !! channel.

(** [addPlayer] (gameManager.ts 104-156). The new [Player] object is
    allocated at the end of the store and its reference is pushed on both
    arrays. *)
Definition addPlayer (channel user name : string) (amount : Z)
    (m : GameManager) : GameManager * Result :=
  match games m !! channel with
  | None => (m, failure NoGameStartOne)
  | Some game =>
      if negb (GameState_eqb (state game) waiting)
      then (m, failure AlreadyInProgress)
      else if existsb (fun r => match deref game r with
                                | Some p => String.eqb (userId p) user
                                | None => false
                                end) (players game)
      then (m, failure AlreadyJoined)
      else if maxPlayers (config m) <=? Z.of_nat (length (players game))
      then (m, failure (GameFull (maxPlayers (config m))))
      else
        let d := calculateEntryDistribution amount (rakePercent (config m)) in
        let player := mkPlayer user name true amount in
        let r := length (playerObjs game) in
        let game := set_playerObjs (playerObjs game ++ [player]) game in
        let game := set_players (players game ++ [r]) game in
        let game := set_alivePlayers (alivePlayers game ++ [r]) game in
        let game := set_poolA (poolA game + toPoolA d) game in
        let game := set_houseRake (houseRake game + rake d) game in
        (mkManager (<[channel := game]> (games m)) (insertionOrder m) (config m),
         {| success := true; message := Joined (poolA game); game := Some game |})
  end.

(** [startGame] (gameManager.ts 161-193) *)
Definition startGame (rnd : Q) (channel : string) (m : GameManager)
  : GameManager * Result :=
  match games m !! channel with
  | None => (m, failure NoGame)
  | Some game =>
      if GameState_eqb (state game) active then (m, failure AlreadyActive)
      else if Z.of_nat (length (players game)) <? minPlayers (config m)
      then (m, failure (NeedPlayers (minPlayers (config m))))
      else
        let game := set_state active game in
        let game := set_currentTurnIndex 0 game in
        let game := set_consecutivePasses 0 game in
        let game := set_forcedShoot false game in
        let game := set_consecutiveSafeShots 0 game in
        let game := set_lastDeathTime None game in
        let game := resetGun rnd game in
        (mkManager (<[channel := game]> (games m)) (insertionOrder m) (config m),
         {| success := true; message := Started; game := Some game |})
  end.

(** *** handleAction (gameManager.ts 198-379) *)

(** [game.alivePlayers[game.currentTurnIndex]]: [None] is [undefined]. *)
Definition currentPlayerRef (g : Game) : option ref :=
  if currentTurnIndex g <? 0 then None
  else alivePlayers g !! Z.to_nat (currentTurnIndex g).

(** [advanceTurn] (gameManager.ts 384-388) *)
Definition advanceTurn (game : Game) : Game :=
  if Nat.eqb (length (alivePlayers game)) 0 then game
  else set_currentTurnIndex
         (Z.rem (currentTurnIndex game + 1) (Z.of_nat (length (alivePlayers game))))
         game.

(** [currentPlayer.isAlive = false] *)
Definition kill (p : Player) : Player :=
  mkPlayer (userId p) (displayName p) false (entryAmount p).

(** The state of the call after the branch on [action] (lines 247-345). *)
Record Branch : Type := mkBranch {
  b_game : Game;
  b_message : Message;           (* [resultMessage] *)
  b_playerDied : bool;           (* [playerDied] *)
  b_deleted : bool               (* [this.games.delete(channelId)] was run *)
}.

(** The pass branch (lines 247-260). *)
Definition passBranch (cfg : GameConfig) (game : Game) : Branch :=
  let game := set_poolB (poolB game + passPenalty cfg) game in
  let game := set_consecutivePasses (consecutivePasses game + 1) game in
  let fullTable :=
    Z.of_nat (length (alivePlayers game)) <=? consecutivePasses game in
  let message := Passed (poolA game) (poolB game) fullTable in
  let game := if fullTable then set_forcedShoot true game else game in
  mkBranch game message false false.

(** The shoot branch (lines 261-344). [inl] carries the game as it is when
    an exception escapes. *)
Definition shootBranch (cfg : GameConfig) (now : Z) (rnd : Q) (user : string)
    (currentPlayer : ref) (game : Game) : Game + Branch :=
  let game := set_consecutivePasses 0 game in
  let game := set_forcedShoot false game in
  let hasBullet := checkChamber game in
  if hasBullet then
    let game := set_playerObjs (alter kill currentPlayer (playerObjs game)) game in
    let game :=
      set_alivePlayers (List.filter (aliveRef game) (alivePlayers game)) game in
    let game := set_consecutiveSafeShots 0 game in
    let game := set_lastDeathTime (Some now) game in
    let game :=
      if Z.of_nat (length (alivePlayers game)) <=? currentTurnIndex game
      then set_currentTurnIndex 0 game else game in
    let game := resetGun rnd game in
    let game := set_forcedShoot false game in
    if Nat.eqb (length (alivePlayers game)) 1 then
      match alivePlayers game !! 0%nat ≫= deref game with
      | None => inl game
      | Some winner =>
          let game := set_state finished game in
          inr (mkBranch game (Bang user (Wins (userId winner) (poolA game)))
                 true true)
      end
    else
      inr (mkBranch game (Bang user (Reloaded (length (alivePlayers game))))
             true false)
  else
    let game :=
      set_consecutiveSafeShots (consecutiveSafeShots game + 1) game in
    if maxSafeShots cfg <=? consecutiveSafeShots game then
      let game := set_state finished game in
      match bigintDiv (poolA game) (Z.of_nat (length (alivePlayers game))) with
      | None => inl game
      | Some refundPerPlayer =>
          inr (mkBranch game
                 (SafeTerminated
                    (mkRefund refundPerPlayer (userIds game (alivePlayers game))))
                 false true)
      end
    else
      let bonus := bonusFromB cfg <=? poolB game in
      let game :=
        if bonus
        then set_poolB (poolB game - bonusFromB cfg)
               (set_poolA (poolA game + bonusFromB cfg) game)
        else game in
      let message := Safe bonus (poolA game) (poolB game) in
      let game := advanceChamber game in
      inr (mkBranch game message false false).

(** What one call of [handleAction] did with the game it resolved. *)
Record Turn : Type := mkTurn {
  t_game : Game;                       (* the game object after the call *)
  t_deleted : bool;                    (* the game left the registry *)
  t_result : option Result;            (* [None]: an exception escaped *)
  t_notified : list (Game * Message)   (* the calls of [onAction], in order *)
}.

(** The duration ceiling, the turn advance and the notification (lines
    347-378). The duration in minutes reaches the ceiling exactly when the
    milliseconds elapsed reach sixty thousand times the ceiling. *)
Definition finishTurn (cfg : GameConfig) (now : Z) (b : Branch) : Turn :=
  let game := b_game b in
  if GameState_eqb (state game) active
     && (maxGameDurationMinutes cfg * 60000 <=? now - createdAt game)
  then
    let game := set_state finished game in
    match bigintDiv (poolA game) (Z.of_nat (length (alivePlayers game))) with
    | None => mkTurn game (b_deleted b) None []
    | Some refundPerPlayer =>
        mkTurn game true
          (Some {| success := true; message := DurationLimit; game := None |})
          [(game, DurationExceeded (maxGameDurationMinutes cfg)
                    (mkRefund refundPerPlayer (userIds game (alivePlayers game))))]
    end
  else
    let game :=
      if GameState_eqb (state game) active
      then (if negb (b_playerDied b) then advanceTurn game else game)
      else game in
    mkTurn game (b_deleted b)
      (Some {| success := true; message := b_message b; game := None |})
      [(game, b_message b)].

(** The body of [handleAction] once the game is resolved (lines 209-378). *)
Definition takeTurn (cfg : GameConfig) (now : Z) (rnd : Q) (user : string)
    (action : Action) (game : Game) : Turn :=
  let reject msg := mkTurn game false (Some (failure msg)) [] in
  if negb (GameState_eqb (state game) active) then reject NotActive else
  match currentPlayerRef game ≫= (fun r => pair r <$> deref game r) with
  | None => reject (NotYourTurn "none")
  | Some (r, currentPlayer) =>
      if negb (String.eqb (toLowerCase (userId currentPlayer)) (toLowerCase user))
      then reject (NotYourTurn (if String.eqb (userId currentPlayer) ""
                                then "none" else userId currentPlayer))
      else if negb (isAlive currentPlayer) then reject AlreadyEliminated
      else if match action with pass => forcedShoot game | shoot => false end
      then reject MustShoot
      else
        let game := set_turnTimer None game in
        match action with
        | pass => finishTurn cfg now (passBranch cfg game)
        | shoot =>
            match shootBranch cfg now rnd user r game with
            | inl game => mkTurn game false None []
            | inr b => finishTurn cfg now b
            end
        end
  end.

(** A run of [handleAction]: the registry after it, what it returned and
    the notifications it sent. *)
Record Run : Type := mkRun {
  r_manager : GameManager;
  r_result : option Result;
  r_notified : list (Game * Message)
}.

Definition handleAction (now : Z) (rnd : Q) (channel user : string)
    (action : Action) (m : GameManager) : Run :=
  match games m !! channel with
  | None => mkRun m (Some (failure NoActiveGame)) []
  | Some game =>
      let t := takeTurn (config m) now rnd user action game in
      let games' :=
        if t_deleted t then delete channel (games m)
        else <[channel := t_game t]> (games m) in
      let keys' :=
        if t_deleted t then without channel (insertionOrder m)
        else insertionOrder m in
      mkRun (mkManager games' keys' (config m)) (t_result t) (t_notified t)
  end.

(** [stopGame] (gameManager.ts 445-488). Both divisions are guarded by a
    positive count, so neither can throw. *)
Definition stopGame (channel : string) (m : GameManager)
  : GameManager * Result :=
  match games m !! channel with
  | None => (m, failure NoActiveGame)
  | Some game =>
      if GameState_eqb (state game) finished then (m, failure AlreadyFinished)
      else
        let aliveCount := Z.of_nat (length (alivePlayers game)) in
        let refundMessage :=
          if (0 <? aliveCount) && (0 <? poolA game) then
            let refundPerPlayer := Z.quot (poolA game) aliveCount in
            Some (mkRefund refundPerPlayer (userIds game (alivePlayers game)))
          else if GameState_eqb (state game) waiting then
            let totalRefund := poolA game + houseRake game in
            if (0 <? Z.of_nat (length (players game))) && (0 <? totalRefund) then
              let refundPerPlayer :=
                Z.quot totalRefund (Z.of_nat (length (players game))) in
              Some (mkRefund refundPerPlayer (userIds game (players game)))
            else None
          else None in
        let game := set_state finished game in
        (mkManager (delete channel (games m))
           (without channel (insertionOrder m)) (config m),
         {| success := true; message := Stopped refundMessage; game := Some game |})
  end.

(** [endGame] (gameManager.ts 493-499) *)
Definition endGame (channel : string) (m : GameManager) : GameManager :=
  mkManager (delete channel (games m)) (without channel (insertionOrder m))
    (config m).

(** ** Predicates of the specification *)

(** [0 <= c < n] for a chamber field; [NaN] is in no range. *)
Definition chamberInRange (n : Z) (c : number) : Prop :=
  match c with
  | Num z => 0 <= z < n
  | NaN => False
  end.

(** [alivePlayers] is the alive part of [players], in the order of
    [players]. *)
Definition aliveView (g : Game) : Prop :=
  alivePlayers g = List.filter (aliveRef g) (players g).

(** The turn index points into [alivePlayers] while the game is active. *)
Definition turnInRange (g : Game) : Prop :=
  state g = active -> alivePlayers g <> [] ->
  0 <= currentTurnIndex g < Z.of_nat (length (alivePlayers g)).

(** The invariant of section 3 of the specification on one game. *)
Definition gameInvariant (g : Game) : Prop :=
  aliveView g /\ turnInRange g.

(** References are sound: every reference in [players] points at an
    object of the store, and no object was pushed twice. *)
Definition refsSound (g : Game) : Prop :=
  Forall (fun r => (r < length (playerObjs g))%nat) (players g)
  /\ NoDup (players g).

Definition wellFormed (g : Game) : Prop :=
  refsSound g /\ gameInvariant g.

(** Every game of the registry is well formed. *)
Definition managerWF (m : GameManager) : Prop :=
  map_Forall (fun _ g => wellFormed g) (games m).

(** The turn is held by object [r], whose fields are [p], and [user] is
    accepted as its identity. *)
Definition holdsTurn (g : Game) (r : ref) (p : Player) (user : string) : Prop :=
  state g = active
  /\ currentPlayerRef g = Some r
  /\ deref g r = Some p
  /\ toLowerCase (userId p) = toLowerCase user
  /\ isAlive p = true.

(** The players of [alivePlayers] that are alive once the object [r] is
    eliminated. *)
Definition othersAlive (g : Game) (r : ref) : list ref :=
  List.filter (fun x => aliveRef g x && negb (Nat.eqb x r)) (alivePlayers g).

(** *** Sequences of operations on a registry *)

Inductive Op : Type :=
| CreateGame (now : Z) (rnd : Q) (channel space : string)
| AddPlayer (channel user name : string) (amount : Z)
| StartGame (rnd : Q) (channel : string)
| HandleAction (now : Z) (rnd : Q) (channel user : string) (action : Action)
| StopGame (channel : string)
| EndGame (channel : string).

(** The games in an optional result field. *)
Definition shown (r : Result) : list Game :=
  match game r with
  | Some g => [g]
  | None => []
  end.

(** One operation: the registry after it and the games it hands to its
    caller, in a result or through [onAction]. *)
Definition perform (op : Op) (m : GameManager) : GameManager * list Game :=
  match op with
  | CreateGame now rnd channel space =>
      match createGame now rnd channel space m with
      | Some (m', g) => (m', [g])
      | None => (m, [])
      end
  | AddPlayer channel user name amount =>
      let '(m', r) := addPlayer channel user name amount m in (m', shown r)
  | StartGame rnd channel =>
      let '(m', r) := startGame rnd channel m in (m', shown r)
  | HandleAction now rnd channel user action =>
      let run := handleAction now rnd channel user action m in
      (r_manager run, fst <$> r_notified run)
  | StopGame channel =>
      let '(m', r) := stopGame channel m in (m', shown r)
  | EndGame channel => (endGame channel m, [])
  end.

(** A sequence of operations from [m]: the final registry and every game
    observed on the way. *)
Fixpoint performAll (ops : list Op) (m : GameManager)
  : GameManager * list Game :=
  match ops with
  | [] => (m, [])
  | op :: ops' =>
      let '(m', seen) := perform op m in
      let '(m'', seen') := performAll ops' m' in
      (m'', seen ++ seen')
  end.

(** [new GameManager(config)] *)
Definition newManager (cfg : GameConfig) : GameManager := mkManager ∅ [] cfg.

(** *** Sample tables

    Registries built by sequences of operations, used to evaluate the
    code on concrete inputs. *)

Definition lobby : string := "lobby".

(** A configuration that differs from the default one in [chambers]. *)
Definition fourChambers : GameConfig := {|
  minPlayers := 2;
  maxPlayers := 6;
  rakePercent := 10;
  passPenalty := 150000000000000;
  bonusFromB := 150000000000000;
  turnTimerSeconds := 10;
  chambers := 4;
  bullets := 1;
  maxSafeShots := 18;
  maxGameDurationMinutes := 30
|}.

(** A configuration whose safe-shot ceiling is reached by the first
    safe shot. *)
Definition lowCeiling : GameConfig := {|
  minPlayers := 2;
  maxPlayers := 6;
  rakePercent := 10;
  passPenalty := 150000000000000;
  bonusFromB := 150000000000000;
  turnTimerSeconds := 10;
  chambers := 6;
  bullets := 1;
  maxSafeShots := 1;
  maxGameDurationMinutes := 30
|}.

(** The registry reached from [new GameManager(cfg)]. *)
Definition reached (cfg : GameConfig) (ops : list Op) : GameManager :=
  fst (performAll ops (newManager cfg)).

(** Two players at 1000 each, the bullet drawn into chamber 3 at start. *)
Definition duel : list Op :=
  [ CreateGame 0 (0 # 1) lobby "town";
    AddPlayer lobby "0xa1" "ann" 1000;
    AddPlayer lobby "0xb2" "bob" 1000;
    StartGame (1 # 2) lobby ].

(** Two players, the bullet drawn into chamber 0 at start. *)
Definition loadedDuel : list Op :=
  [ CreateGame 0 (0 # 1) lobby "town";
    AddPlayer lobby "0xa1" "ann" 1000;
    AddPlayer lobby "0xb2" "bob" 1000;
    StartGame (0 # 1) lobby ].

(** Three players waiting, entries 334, 333 and 333. *)
Definition waitingThree : list Op :=
  [ CreateGame 0 (0 # 1) lobby "town";
    AddPlayer lobby "0xa1" "ann" 334;
    AddPlayer lobby "0xb2" "bob" 333;
    AddPlayer lobby "0xc3" "cyd" 333 ].

(** Four players, the bullet drawn into chamber 0 at start. *)
Definition loadedFour : list Op :=
  [ CreateGame 0 (0 # 1) lobby "town";
    AddPlayer lobby "0xa1" "ann" 1000;
    AddPlayer lobby "0xb2" "bob" 1000;
    AddPlayer lobby "0xc3" "cyd" 1000;
    AddPlayer lobby "0xd4" "dee" 1000;
    StartGame (0 # 1) lobby ].

(** ** The rest of game.ts and gameManager.ts *)

Module Num.

(** [a - b] *)
Definition sub (a b : number) : number :=
  match a, b with
  | Num x, Num y => Num (x - y)
  | _, _ => NaN
  end.

(** The value of a division of [number]s: an exact quotient, an infinity
    or [NaN]. *)
Inductive quotient : Type :=
| Finite (q : Q)
| Infinity
| NegInfinity
| NotANumber.

(** [1 / b] *)
Definition recip (b : number) : quotient :=
  match b with
  | Num 0 => Infinity
  | Num z => Finite (1 / inject_Z z)
  | NaN => NotANumber
  end.

End Num.

(** [getDeathProbability] (game.ts 113-116) *)
Definition getDeathProbability (game : Game) : Num.quotient :=
  let remainingChambers := Num.sub (Game_chambers game) (gunChamber game) in
  Num.recip remainingChambers.

(** *** formatAmount (game.ts 121-128) *)

Module Text.

Definition digitChar (d : Z) : ascii := ascii_of_nat (48 + Z.to_nat d).

(** The decimal digits of [n >= 0] in front of [acc], most significant
    first; [fuel] bounds the number of digits. *)
Fixpoint digitsLoop (fuel : nat) (n : Z) (acc : string) : string :=
  match fuel with
  | O => acc
  | S fuel' =>
      let acc' := String (digitChar (n mod 10)) acc in
      if n / 10 =? 0 then acc' else digitsLoop fuel' (n / 10) acc'
  end.

(** Decimal digits of [n >= 0]; a number below [2^k] has at most [k]
    digits, and [0] has one. *)
Definition digits (n : Z) : string :=
  digitsLoop (S (Z.to_nat (Z.log2 n))) n "".

(** [n.toString()] on a [bigint]. *)
Definition bigintToString (n : Z) : string :=
  if n <? 0 then String "-" (digits (- n)) else digits n.

(** [count] copies of ["0"]. *)
Fixpoint zeros (count : nat) : string :=
  match count with
  | O => ""
  | S k => String "0" (zeros k)
  end.

(** [s.padStart(width, '0')] *)
Definition padStart (width : nat) (s : string) : string :=
  zeros (width - String.length s) ++ s.

(** [s.replace(/0+$/, '')]: the string without its trailing zeros. *)
Fixpoint stripZeros (s : string) : string :=
  match s with
  | EmptyString => EmptyString
  | String c s' =>
      let t := stripZeros s' in
      if Ascii.eqb c "0" && String.eqb t "" then "" else String c t
  end.

(** The white space removed by [trim] on a string of ASCII characters:
    tab, line feed, vertical tab, form feed, carriage return and space. *)
Definition isSpace (c : ascii) : bool :=
  let n := nat_of_ascii c in
  (Nat.leb 9 n && Nat.leb n 13) || Nat.eqb n 32.

Fixpoint trimStart (s : string) : string :=
  match s with
  | EmptyString => EmptyString
  | String c s' => if isSpace c then trimStart s' else s
  end.

Fixpoint trimEnd (s : string) : string :=
  match s with
  | EmptyString => EmptyString
  | String c s' =>
      let t := trimEnd s' in
      if isSpace c && String.eqb t "" then "" else String c t
  end.

(** [s.trim()] *)
Definition trim (s : string) : string := trimEnd (trimStart s).

(** The number written by a string of digits. *)
Fixpoint valueFrom (acc : Z) (s : string) : Z :=
  match s with
  | EmptyString => acc
  | String c s' => valueFrom (10 * acc + (Z.of_nat (nat_of_ascii c) - 48)) s'
  end.

(** The part of [s] before the first ["."] and the part after it. *)
Fixpoint splitPoint (s : string) : string * string :=
  match s with
  | EmptyString => ("", "")
  | String c s' =>
      if Ascii.eqb c "." then ("", s')
      else let '(w, f) := splitPoint s' in (String c w, f)
  end.

End Text.

(** [formatAmount(amount, decimals)]; [10 ** decimals] is an exact
    [number] for [decimals <= 22], and the default is 18. *)
Definition formatAmount (amount : Z) (decimals : nat) : string :=
  let divisor := 10 ^ Z.of_nat decimals in
  let whole := Z.quot amount divisor in
  let fraction := Z.rem amount divisor in
  let fractionStr := Text.padStart decimals (Text.bigintToString fraction) in
  let trimmed := Text.stripZeros fractionStr in
  if negb (String.eqb trimmed "")
  then Text.bigintToString whole ++ "." ++ trimmed
  else Text.bigintToString whole.

(** The amount, in base units, that a decimal string with at most
    [decimals] fraction digits denotes. *)
Definition readAmount (decimals : nat) (s : string) : Z :=
  let '(w, f) := Text.splitPoint s in
  Text.valueFrom 0 w * 10 ^ Z.of_nat decimals
  + Text.valueFrom 0 (f ++ Text.zeros (decimals - String.length f)).

(** *** findGamesByUsername (gameManager.ts 72-99) *)

(** The test of [game.players.some(...)]; [player.displayName || ''] is
    the display name itself. *)
Definition hasPlayer (normalized : string) (game : Game) : bool :=
  existsb (fun r =>
             match deref game r with
             | Some player =>
                 let displayName :=
                   toLowerCase (Text.trim (displayName player)) in
                 if negb (String.eqb displayName "")
                    && String.eqb displayName normalized
                 then true
                 else String.eqb (toLowerCase (userId player)) normalized
             | None => false
             end) (players game).

(** [this.games.values()]: the games of the [Map], in order of
    insertion. *)
Definition values (m : GameManager) : list Game :=
  omap (fun k => games m !! k) (insertionOrder m).

Definition findGamesByUsername (username : string) (m : GameManager)
  : list Game :=
  if String.eqb username "" then []
  else
    let normalized := toLowerCase (Text.trim username) in
    if String.eqb normalized "" then []
    else List.filter (hasPlayer normalized) (values m).

(** *** startTurnTimer (gameManager.ts 394-402) and getStatus (407-440) *)

Definition startTurnTimer (now : Z) (game : Game) : Game :=
  let game := match turnTimer game with
              | Some _ => set_turnTimer None game
              | None => game
              end in
  set_turnStartTime (Some now) game.

(** The line about the turn: the identity printed is [undefined] when no
    player sits at the turn index. *)
Inductive TurnInfo : Type :=
| MustShootNow (who : option string)      (* "<@who> must /shoot!" *)
| ShootOrPass (who : option string).      (* "<@who> - /shoot or /pass" *)

(** The death chance printed: [(1 / remaining * 100).toFixed(1)] of the
    exact value, or the text '100'. *)
Inductive DeathChance : Type :=
| ToFixed1 (percent : Q)
| Hundred.

Inductive Status : Type :=
| StatusNoGame                            (* 'No active game in this channel...' *)
| StatusWaiting (joined : nat) (max : Z) (names : list string) (a rk : Z)
| StatusActive (alive total : nat) (a b : Z) (turn : TurnInfo)
    (chamber : number) (chance : DeathChance) (safeShots ceiling : Z)
| StatusFinished.                         (* 'Game finished' *)

Definition getStatus (channel : string) (m : GameManager) : Status :=
  match games m !! channel with
  | None => StatusNoGame
  | Some game =>
      if GameState_eqb (state game) waiting then
        StatusWaiting (length (players game)) (maxPlayers (config m))
          (userIds game (players game)) (poolA game) (houseRake game)
      else if GameState_eqb (state game) active then
        let currentPlayer := currentPlayerRef game ≫= deref game in
        let turnInfo :=
          if forcedShoot game
          then MustShootNow (userId <$> currentPlayer)
          else ShootOrPass (userId <$> currentPlayer) in
        let remainingChambers :=
          Num.sub (Game_chambers game) (gunChamber game) in
        let deathProbability :=
          match remainingChambers with
          | Num z => if 0 <? z then ToFixed1 (1 / inject_Z z * 100) else Hundred
          | NaN => Hundred
          end in
        StatusActive (length (alivePlayers game)) (length (players game))
          (poolA game) (poolB game) turnInfo
          (add (gunChamber game) (Num 1)) deathProbability
          (consecutiveSafeShots game) (maxSafeShots (config m))
      else StatusFinished
  end.

(** ** Vocabulary of the further properties *)

(** The game of [channel] after a run of [handleAction], as the registry
    holds it or as [onAction] received it. *)
Definition seenAfter (run : Run) (channel : string) (g' : Game) : Prop :=
  games (r_manager run) !! channel = Some g'
  \/ exists msg, (g', msg) ∈ r_notified run.

(** The channel an operation addresses. *)
Definition opChannel (op : Op) : string :=
  match op with
  | CreateGame _ _ channel _ => channel
  | AddPlayer channel _ _ _ => channel
  | StartGame _ channel => channel
  | HandleAction _ _ channel _ _ => channel
  | StopGame channel => channel
  | EndGame channel => channel
  end.

(** The entry of an operation that tips is not negative. *)
Definition entryNonNegative (op : Op) : Prop :=
  match op with
  | AddPlayer _ _ _ amount => 0 <= amount
  | _ => True
  end.

(** The sum of a field over the [Player] objects of a game. *)
Definition sumOver (f : Player -> Z) (g : Game) : Z :=
  fold_right (fun p acc => f p + acc) 0 (playerObjs g).

(** The game that [addPlayer] writes back (lines 133-149). *)
Definition joined (cfg : GameConfig) (user name : string) (amount : Z)
    (g : Game) : Game :=
  let d := calculateEntryDistribution amount (rakePercent cfg) in
  set_houseRake (houseRake g + rake d)
    (set_poolA (poolA g + toPoolA d)
       (set_alivePlayers (alivePlayers g ++ [length (playerObjs g)])
          (set_players (players g ++ [length (playerObjs g)])
             (set_playerObjs (playerObjs g ++ [mkPlayer user name true amount])
                g)))).

(** The game that [startGame] writes back (lines 178-184). *)
Definition started (rnd : Q) (g : Game) : Game :=
  resetGun rnd
    (set_lastDeathTime None
       (set_consecutiveSafeShots 0
          (set_forcedShoot false
             (set_consecutivePasses 0
                (set_currentTurnIndex 0 (set_state active g)))))).

(** The identity [user] is the [userId] of a joined player. *)
Definition alreadyJoined (user : string) (g : Game) : bool :=
  existsb (fun r => match deref g r with
                    | Some p => String.eqb (userId p) user
                    | None => false
                    end) (players g).

(** What a call of [handleAction] can do to the table of a game: nothing,
    or the elimination of the player at the turn when the chamber holds
    the bullet. *)
Definition tableStep (g g' : Game) : Prop :=
  players g' = players g
  /\ (playerObjs g' = playerObjs g /\ alivePlayers g' = alivePlayers g
      \/ exists r p,
           currentPlayerRef g = Some r /\ deref g r = Some p
           /\ checkChamber g = true
           /\ playerObjs g' = alter kill r (playerObjs g)
           /\ alivePlayers g' = othersAlive g r).

(** What a call of [handleAction] with [action] can do to the money of a
    game under [cfg]. *)
Definition moneyStep (cfg : GameConfig) (action : Action) (g g' : Game) : Prop :=
  houseRake g' = houseRake g
  /\ match action with
     | pass =>
         poolA g' = poolA g
         /\ (poolB g' = poolB g \/ poolB g' = poolB g + passPenalty cfg)
     | shoot =>
         poolA g' = poolA g /\ poolB g' = poolB g
         \/ bonusFromB cfg <= poolB g
            /\ poolA g' = poolA g + bonusFromB cfg
            /\ poolB g' = poolB g - bonusFromB cfg
     end.

(** The game that [createGame] registers (lines 38-55). *)
Definition fresh (now : Z) (rnd : Q) (channel space : string) : Game :=
  mkGame now channel space waiting [] [] [] 0 0 0 0
    (Num 0) (randomBulletPosition rnd) 0 false 0 None None None now.

(** The rake and the net share of the entry of a player under [cfg]. *)
Definition rakeOf (cfg : GameConfig) (p : Player) : Z :=
  rake (calculateEntryDistribution (entryAmount p) (rakePercent cfg)).

Definition netOf (cfg : GameConfig) (p : Player) : Z :=
  toPoolA (calculateEntryDistribution (entryAmount p) (rakePercent cfg)).

(** The books of a game registered under [key]: it carries its key, its
    players are its objects in order of arrival, within the capacity and
    with distinct identities, the house rake is the sum of the rakes, and
    before the start [poolA] is the sum of the net shares, [poolB] is
    empty and everybody is alive. *)
Definition ledger (cfg : GameConfig) (key : string) (g : Game) : Prop :=
  channelId g = key
  /\ players g = seq 0 (length (playerObjs g))
  /\ Z.of_nat (length (players g)) <= Z.max 0 (maxPlayers cfg)
  /\ NoDup (userId <$> playerObjs g)
  /\ houseRake g = sumOver (rakeOf cfg) g
  /\ (state g = waiting ->
      poolA g = sumOver (netOf cfg) g /\ poolB g = 0
      /\ alivePlayers g = players g).

(** A registered game is not finished, and while active it has two alive
    players or more. *)
Definition flow (g : Game) : Prop :=
  state g <> finished
  /\ (state g = active -> (2 <= length (alivePlayers g))%nat).

Definition managerSound (m : GameManager) : Prop :=
  forall key g,
    games m !! key = Some g ->
    wellFormed g /\ ledger (config m) key g
    /\ (2 <= minPlayers (config m) -> flow g).

(** The keys in order of insertion are the keys of the registry, each
    listed once. *)
Definition orderSound (m : GameManager) : Prop :=
  NoDup (insertionOrder m)
  /\ forall k, k ∈ insertionOrder m <-> is_Some (games m !! k).

(** The identity and the display name that an operation brings in are
    strings of ASCII characters. *)
Definition asciiNames (op : Op) : bool :=
  match op with
  | AddPlayer _ user name _ => isAscii user && isAscii name
  | _ => true
  end.

(** The player goes by [username]: the trimmed display name, when it is
    not empty, or the [userId] equals the trimmed [username], letter case
    apart. *)
Definition goesBy (username : string) (p : Player) : Prop :=
  toLowerCase (Text.trim (displayName p)) <> ""
  /\ toLowerCase (Text.trim (displayName p)) = toLowerCase (Text.trim username)
  \/ toLowerCase (userId p) = toLowerCase (Text.trim username).

(** Two channels, created in the order [zeta], [alpha], with the same
    player in both. *)
Definition twoChannels : list Op :=
  [ CreateGame 0 (0 # 1) "zeta" "town";
    AddPlayer "zeta" "0xb2" "bob" 1000;
    CreateGame 1 (0 # 1) "alpha" "town";
    AddPlayer "alpha" "0xB2" "" 1000 ].

(** No pool of the game is negative. *)
Definition poolsNonNegative (g : Game) : Prop :=
  0 <= poolA g /\ 0 <= poolB g /\ 0 <= houseRake g.

(** How an operation produced the game [g'] that the registry [m] did not
    hold under [key]. *)
Definition producedBy (op : Op) (m : GameManager) (key : string) (g' : Game)
  : Prop :=
  key = opChannel op
  /\ match op with
     | CreateGame now rnd channel space => g' = fresh now rnd channel space
     | AddPlayer channel user name amount =>
         exists g, games m !! key = Some g
                   /\ state g = waiting
                   /\ alreadyJoined user g = false
                   /\ Z.of_nat (length (players g)) < maxPlayers (config m)
                   /\ g' = joined (config m) user name amount g
     | StartGame rnd channel =>
         exists g, games m !! key = Some g
                   /\ state g <> active
                   /\ minPlayers (config m) <= Z.of_nat (length (players g))
                   /\ g' = started rnd g
     | HandleAction now rnd channel user action =>
         exists g, games m !! key = Some g
                   /\ t_deleted (takeTurn (config m) now rnd user action g)
                      = false
                   /\ g' = t_game (takeTurn (config m) now rnd user action g)
     | StopGame _ | EndGame _ => False
     end.

(** A configuration with sensible amounts. *)
Definition saneConfig (cfg : GameConfig) : Prop :=
  0 <= rakePercent cfg <= 100 /\ 0 <= passPenalty cfg /\ 0 <= bonusFromB cfg.

(** A started duel after two passes of a thirty-second game. *)
Definition duelAfterPasses : list Op :=
  [ CreateGame 0 (0 # 1) "lobby" "town";
    AddPlayer "lobby" "0xa1" "ann" 1000;
    AddPlayer "lobby" "0xb2" "bob" 1000;
    StartGame (1 # 2) "lobby";
    HandleAction 10 (0 # 1) "lobby" "0xa1" pass;
    HandleAction 20 (0 # 1) "lobby" "0xb2" pass ].

(** ** Economy and chamber primitives: properties *)

Section Primitives.

Lemma floor_unique (x : Q) (j : Z) :
  (inject_Z j <= x)%Q -> (x < inject_Z (j + 1))%Q -> floor x = j.
Proof.
  intros Hlo Hhi. unfold floor.
  pose proof (Qfloor_le x) as Hf1.
  pose proof (Qlt_floor x) as Hf2.
  assert (H1 : (inject_Z (Qfloor x) < inject_Z (j + 1))%Q)
    by (eapply Qle_lt_trans; eassumption).
  assert (H2 : (inject_Z j < inject_Z (Qfloor x + 1))%Q)
    by (eapply Qle_lt_trans; eassumption).
  rewrite <- Zlt_Qlt in H1, H2. lia.
Qed.

Lemma floor_bounds (x : Q) :
  (inject_Z (floor x) <= x)%Q /\ (x < inject_Z (floor x + 1))%Q.
Proof. unfold floor. split; [apply Qfloor_le | apply Qlt_floor]. Qed.

Import Double.

Lemma roundHalfEven_bounds (x : Q) :
  Qfloor x <= roundHalfEven x
  /\ (x - (1 # 2) <= inject_Z (roundHalfEven x))%Q
  /\ (inject_Z (roundHalfEven x) <= x + (1 # 2))%Q.
Proof.
  unfold roundHalfEven.
  pose proof (Qfloor_le x) as Hlo. pose proof (Qlt_floor x) as Hhi.
  rewrite inject_Z_plus in Hhi. change (inject_Z 1) with 1%Q in Hhi.
  assert (Hup : (inject_Z (Qfloor x + 1) == inject_Z (Qfloor x) + 1)%Q)
    by (by rewrite inject_Z_plus).
  destruct (Qcompare_spec (x - inject_Z (Qfloor x)) (1 # 2)) as [E | E | E].
  - destruct (Z.even (Qfloor x)); (split; [lia |]); rewrite ?Hup; split; lra.
  - split; [lia |]. split; lra.
  - split; [lia |]. rewrite Hup. split; lra.
Qed.

Lemma scale_pos : (0 < inject_Z scale)%Q.
Proof. by vm_compute. Qed.

Lemma ulp_exponent (y : Q) :
  (0 <= y)%Q -> (y < 8)%Q ->
  exists k, 0 <= k <= 1024 /\ ulp y = 2 ^ k.
Proof.
  intros Hlo Hhi. unfold ulp.
  set (s := Qfloor (y * inject_Z scale)).
  exists (Z.max 0 (Z.log2 s - 52)). split; [| done].
  assert (Hs : s < 2 ^ 1077).
  { assert (H : (inject_Z s < inject_Z (2 ^ 1077))%Q).
    { eapply Qle_lt_trans; [apply Qfloor_le |].
      change (inject_Z (2 ^ 1077)) with (8 * inject_Z scale)%Q.
      apply Qmult_lt_compat_r; [apply scale_pos | done]. }
    by rewrite <- Zlt_Qlt in H. }
  destruct (Z.le_gt_cases s 0) as [H0 | H0].
  - rewrite Z.log2_nonpos by done. lia.
  - apply Z.log2_lt_pow2 in Hs; [lia | done].
Qed.

(** The rounded value, in units of the last place. *)
Lemma round_shape (y : Q) :
  (0 <= y)%Q -> (y < 8)%Q ->
  exists k x,
    0 <= k <= 1024
    /\ ulp y = 2 ^ k
    /\ (x * inject_Z (2 ^ k) == y * inject_Z scale)%Q
    /\ (round y * inject_Z scale
        == inject_Z (roundHalfEven x) * inject_Z (2 ^ k))%Q.
Proof.
  intros Hlo Hhi. destruct (ulp_exponent y Hlo Hhi) as (k & Hk & Hulp).
  exists k, (y * inject_Z scale / inject_Z (2 ^ k))%Q.
  assert (Hp : (0 < inject_Z (2 ^ k))%Q).
  { change 0%Q with (inject_Z 0). rewrite <- Zlt_Qlt.
    apply Z.pow_pos_nonneg; lia. }
  pose proof scale_pos as Hu.
  split; [done |]. split; [done |]. split.
  - rewrite Qmult_comm. apply Qmult_div_r. lra.
  - unfold round. rewrite Hulp, inject_Z_mult.
    rewrite Qmult_comm. apply Qmult_div_r. lra.
Qed.

Lemma round_error (y : Q) :
  (0 <= y)%Q -> (y < 8)%Q ->
  (y - (1 # 2 ^ 51) <= round y)%Q /\ (round y <= y + (1 # 2 ^ 51))%Q.
Proof.
  intros Hlo Hhi.
  destruct (round_shape y Hlo Hhi) as (k & x & Hk & _ & Hx & Hr).
  destruct (roundHalfEven_bounds x) as (_ & Hm1 & Hm2).
  set (m := inject_Z (roundHalfEven x)) in *.
  assert (Hp : (0 < inject_Z (2 ^ k))%Q).
  { change 0%Q with (inject_Z 0). rewrite <- Zlt_Qlt.
    apply Z.pow_pos_nonneg; lia. }
  assert (Hpu : (inject_Z (2 ^ k) * inject_Z (2 ^ 50) <= inject_Z scale)%Q).
  { rewrite <- inject_Z_mult, <- Zle_Qle, <- Z.pow_add_r by lia.
    unfold scale. apply Z.pow_le_mono_r; lia. }
  pose proof scale_pos as Hu.
  set (p := inject_Z (2 ^ k)) in *. set (u := inject_Z scale) in *.
  set (r := round y) in *.
  assert (H1 : (m * p <= (x + (1 # 2)) * p)%Q)
    by (apply Qmult_le_compat_r; lra).
  assert (H2 : ((x - (1 # 2)) * p <= m * p)%Q)
    by (apply Qmult_le_compat_r; lra).
  change (inject_Z (2 ^ 50)) with (1125899906842624 # 1)%Q in Hpu.
  change (1 # 2 ^ 51)%Q with (1 # 2251799813685248)%Q.
  split; apply (Qmult_le_r _ _ u Hu); lra.
Qed.

(** Rounding does not cross an integer: a product that reaches [j] is
    rounded to [j] or more. *)
Lemma round_reaches (y : Q) (j : Z) :
  0 <= j -> (inject_Z j <= y)%Q -> (y < 8)%Q ->
  (inject_Z j <= round y)%Q.
Proof.
  intros Hj Hlo Hhi.
  assert (H0 : (0 <= y)%Q).
  { eapply Qle_trans; [| exact Hlo]. change 0%Q with (inject_Z 0).
    by rewrite <- Zle_Qle. }
  destruct (round_shape y H0 Hhi) as (k & x & Hk & _ & Hx & Hr).
  destruct (roundHalfEven_bounds x) as (Hm & _ & _).
  assert (Hp : (0 < inject_Z (2 ^ k))%Q).
  { change 0%Q with (inject_Z 0). rewrite <- Zlt_Qlt.
    apply Z.pow_pos_nonneg; lia. }
  pose proof scale_pos as Hu.
  assert (HJ : (inject_Z (j * 2 ^ (1074 - k)) * inject_Z (2 ^ k)
                == inject_Z j * inject_Z scale)%Q).
  { rewrite <- !inject_Z_mult. apply inject_Z_injective.
    unfold scale. rewrite <- Z.mul_assoc, <- Z.pow_add_r by lia.
    do 2 f_equal. lia. }
  set (J := j * 2 ^ (1074 - k)) in *.
  assert (Hx' : (inject_Z J <= x)%Q).
  { apply (Qmult_le_r _ _ _ Hp). rewrite HJ, Hx.
    apply Qmult_le_compat_r; [done | lra]. }
  assert (HJM : J <= roundHalfEven x).
  { etrans; [| exact Hm]. rewrite <- (Qfloor_Z J). by apply Qfloor_resp_le. }
  rewrite Zle_Qle in HJM.
  apply (Qmult_le_r _ _ _ Hu). rewrite Hr, <- HJ.
  apply Qmult_le_compat_r; [done | lra].
Qed.

(** The largest [number] below 1 is [1 - 2^-53]. *)
Lemma representable_below_one (rnd : Q) :
  representable rnd -> (0 <= rnd)%Q -> (rnd < 1)%Q ->
  (rnd <= 1 - (1 # 2 ^ 53))%Q.
Proof.
  unfold representable, round. intros Hrep Hlo Hhi.
  pose proof scale_pos as Hu.
  set (M := roundHalfEven _) in Hrep.
  set (N := M * ulp rnd) in Hrep.
  assert (HN : (rnd * inject_Z scale == inject_Z N)%Q).
  { rewrite <- Hrep at 1. rewrite Qmult_comm. apply Qmult_div_r. lra. }
  assert (Hs : Qfloor (rnd * inject_Z scale) = N)
    by (by rewrite HN, Qfloor_Z).
  assert (HNu : N < 2 ^ 1074).
  { rewrite Zlt_Qlt, <- HN. change (inject_Z (2 ^ 1074)) with (1 * inject_Z scale)%Q.
    by apply Qmult_lt_compat_r. }
  assert (Hgoal : N <= 2 ^ 1074 - 2 ^ 1021).
  { destruct (Z.lt_ge_cases N (2 ^ 1073)) as [Hsmall | Hbig].
    - assert (2 ^ 1073 + 2 ^ 1021 <= 2 ^ 1074); [| lia].
      change (2 ^ 1074) with (2 ^ 1073 + 2 ^ 1073).
      apply Z.add_le_mono_l. by apply Z.pow_le_mono_r.
    - assert (Hlog : Z.log2 N = 1073) by (apply Z.log2_unique; lia).
      assert (Hulp : ulp rnd = 2 ^ 1021).
      { unfold ulp. rewrite Hs, Hlog. reflexivity. }
      subst N. rewrite Hulp in *.
      change (2 ^ 1074) with (2 ^ 53 * 2 ^ 1021) in *.
      assert (M < 2 ^ 53) by (apply (Z.mul_lt_mono_pos_r (2 ^ 1021)); done).
      assert (M * 2 ^ 1021 <= (2 ^ 53 - 1) * 2 ^ 1021); [| lia].
      apply Z.mul_le_mono_nonneg_r; [done | lia]. }
  rewrite Zle_Qle in Hgoal.
  apply (Qmult_le_r _ _ _ Hu). rewrite HN.
  eapply Qle_trans; [exact Hgoal |]. by vm_compute.
Qed.

(** The draw is an integer of [0, 6). *)
Lemma randomBulletPosition_range (rnd : Q) :
  representable rnd -> (0 <= rnd)%Q -> (rnd < 1)%Q ->
  exists k, randomBulletPosition rnd = Num k /\ 0 <= k < 6.
Proof.
  intros Hrep Hlo Hhi. exists (floor (mul rnd 6)). split; [reflexivity |].
  pose proof (representable_below_one rnd Hrep Hlo Hhi) as Htop.
  change (1 # 2 ^ 53)%Q with (1 # 9007199254740992)%Q in Htop.
  assert (H0 : (0 <= rnd * 6)%Q) by lra.
  assert (H8 : (rnd * 6 < 8)%Q) by lra.
  destruct (round_error (rnd * 6) H0 H8) as [_ Hup].
  change (1 # 2 ^ 51)%Q with (1 # 2251799813685248)%Q in Hup.
  pose proof (round_reaches (rnd * 6) 0 ltac:(lia) H0 H8) as Hdown.
  destruct (floor_bounds (mul rnd 6)) as [Hf1 Hf2]. unfold mul in *.
  assert (Ha : (inject_Z 0 < inject_Z (floor (round (rnd * 6)) + 1))%Q)
    by (eapply Qle_lt_trans; eassumption).
  assert (Hb : (inject_Z (floor (round (rnd * 6))) < inject_Z 6)%Q).
  { eapply Qle_lt_trans; [exact Hf1 |]. change (inject_Z 6) with 6%Q. lra. }
  rewrite <- Zlt_Qlt in Ha, Hb. lia.
Qed.

(** The draw is [j] on the [j]-th sixth of the unit interval, up to the
    rounding of the product at the two ends of the sixth. *)
Lemma randomBulletPosition_sixth (rnd : Q) (j : Z) :
  (0 <= rnd)%Q -> (rnd < 1)%Q ->
  (0 <= j ->
   (inject_Z j <= rnd * 6)%Q ->
   (rnd * 6 < inject_Z (j + 1) - (1 # 2 ^ 51))%Q ->
   randomBulletPosition rnd = Num j)
  /\ (0 <= j ->
      randomBulletPosition rnd = Num j ->
      (inject_Z j - (1 # 2 ^ 51) <= rnd * 6)%Q
      /\ (rnd * 6 < inject_Z (j + 1))%Q).
Proof.
  intros Hlo Hhi.
  assert (H0 : (0 <= rnd * 6)%Q) by lra.
  assert (H8 : (rnd * 6 < 8)%Q) by lra.
  destruct (round_error (rnd * 6) H0 H8) as [Hdn Hup].
  change (1 # 2 ^ 51)%Q with (1 # 2251799813685248)%Q in *.
  unfold randomBulletPosition, mul.
  destruct (floor_bounds (round (rnd * 6))) as [Hf1 Hf2].
  split.
  - intros Hj Hge Hlt. f_equal.
    pose proof (round_reaches (rnd * 6) j Hj Hge H8).
    rewrite inject_Z_plus in Hlt. change (inject_Z 1) with 1%Q in Hlt.
    apply floor_unique; [done |].
    rewrite inject_Z_plus. change (inject_Z 1) with 1%Q. lra.
  - set (f := floor (round (rnd * 6))) in *.
    intros Hj [= Hfl]. rewrite Hfl in Hf1, Hf2. split; [lra |].
    apply Qnot_le_lt. intros Hge.
    pose proof (round_reaches (rnd * 6) (j + 1) ltac:(lia) Hge H8). lra.
Qed.

Lemma advanceChamber_NaN (game : Game) :
  gunChamber (advanceChamber game) = NaN.
Proof.
  unfold advanceChamber, Game_chambers, ofUndefined. cbn.
  by destruct (add (gunChamber game) (Num 1)).
Qed.

(** Once the chamber position is [NaN] no chamber holds the bullet: the
    shots that follow are all safe, up to the safe-shot ceiling. *)
Lemma checkChamber_NaN (game : Game) :
  gunChamber game = NaN -> checkChamber game = false.
Proof. unfold checkChamber. by intros ->. Qed.

End Primitives.

(** C8. For every non-negative entry amount and rake percentage,
    [calculateEntryDistribution] returns [rake = floor(amount * rakePercent
    / 100)] and [toPoolA = amount - rake], so [rake + toPoolA = amount]. *)
Theorem C8_entry_split_conserves (amount percent : Z) :
  0 <= amount -> 0 <= percent ->
  let d := calculateEntryDistribution amount percent in
  rake d = Z.div (amount * percent) 100
  /\ toPoolA d = amount - rake d
  /\ rake d + toPoolA d = amount.
Proof.
  intros Ha Hp. cbn. repeat split; [| lia].
  apply Z.quot_div_nonneg; lia.
Qed.

Lemma C8_entry_split_conserves_witness :
  0 <= 1005 /\ 0 <= 10
  /\ rake (calculateEntryDistribution 1005 10) = Z.div (1005 * 10) 100
  /\ toPoolA (calculateEntryDistribution 1005 10)
     = 1005 - rake (calculateEntryDistribution 1005 10)
  /\ rake (calculateEntryDistribution 1005 10)
     + toPoolA (calculateEntryDistribution 1005 10) = 1005.
Proof.
  split; [lia |]. split; [lia |].
  apply (C8_entry_split_conserves 1005 10); lia.
Defined.

(** C1 (defect of the code). [advanceChamber] computes the remainder by
    [game.chambers], a property no [Game] has, so it stores [NaN] whatever
    the game: after the first safe shot of a duel under the default
    configuration the chamber position is outside [0, chambers). *)
Theorem C1_advanceChamber_leaves_range :
  (forall game, gunChamber (advanceChamber game) = NaN)
  /\ exists g,
       games (r_manager (handleAction 1000 (0 # 1) lobby "0xa1" shoot
                           (reached DEFAULT_CONFIG duel))) !! lobby = Some g
       /\ state g = active
       /\ gunChamber g = NaN
       /\ ~ chamberInRange (chambers DEFAULT_CONFIG) (gunChamber g).
Proof.
  split; [apply advanceChamber_NaN |].
  eexists. split; [by vm_compute |].
  split; [reflexivity |]. split; [reflexivity |]. cbn. tauto.
Qed.

(** The product by 6 is rounded, so the sixths are not exact: the sample
    [3752999689475413 / 2^52] lies below [5/6] and draws 5. *)
Lemma randomBulletPosition_boundary :
  Double.representable (3752999689475413 # 2 ^ 52)
  /\ (3752999689475413 # 2 ^ 52 < 5 # 6)%Q
  /\ randomBulletPosition (3752999689475413 # 2 ^ 52) = Num 5.
Proof. split; [by vm_compute |]. split; [by vm_compute | by vm_compute]. Qed.

(** C3, the claim as stated, fails: under a configuration of four
    chambers the sample 0.875 puts the bullet in chamber 5, at creation
    and at every reload. *)
Lemma C3_bullet_outside_configured_chambers :
  Double.representable (7 # 8) /\ (0 <= 7 # 8)%Q /\ (7 # 8 < 1)%Q
  /\ exists g,
       games (reached fourChambers [CreateGame 0 (7 # 8) lobby "town"]) !! lobby
         = Some g
       /\ bulletChamber g = Num 5
       /\ ~ chamberInRange (chambers fourChambers) (bulletChamber g)
       /\ ~ chamberInRange (chambers fourChambers)
            (bulletChamber (resetGun (7 # 8) g)).
Proof.
  split; [by vm_compute |]. split; [by vm_compute |]. split; [by vm_compute |].
  eexists. split; [by vm_compute |].
  split; [reflexivity |]. split; vm_compute; intros [_ H]; discriminate H.
Qed.

(** C3, amended. The bullet position drawn at creation and by [resetGun]
    is [Math.floor(rnd * 6)] for the sample [rnd] of [Math.random()], a
    [number] of [0, 1): an integer of [0, 6) whatever the configuration.
    It is [j] on the [j]-th sixth of the unit interval up to the rounding
    of the product: every sample with [j <= 6 rnd < j + 1 - 2^-51] draws
    [j], and every sample that draws [j] has [j - 2^-51 <= 6 rnd < j + 1].
    So the bullet is inside [0, chambers) when at least six chambers are
    configured; [resetGun] also puts the chamber position back to 0. *)
Theorem C3_bullet_drawn_among_six (rnd : Q) :
  Double.representable rnd -> (0 <= rnd)%Q -> (rnd < 1)%Q ->
  (exists k, randomBulletPosition rnd = Num k /\ 0 <= k < 6)
  /\ (forall j, 0 <= j ->
                (inject_Z j <= rnd * 6)%Q ->
                (rnd * 6 < inject_Z (j + 1) - (1 # 2 ^ 51))%Q ->
                randomBulletPosition rnd = Num j)
  /\ (forall j, randomBulletPosition rnd = Num j ->
                (inject_Z j - (1 # 2 ^ 51) <= rnd * 6)%Q
                /\ (rnd * 6 < inject_Z (j + 1))%Q)
  /\ (forall cfg, 6 <= chambers cfg ->
                  chamberInRange (chambers cfg) (randomBulletPosition rnd))
  /\ (forall game, gunChamber (resetGun rnd game) = Num 0
                   /\ bulletChamber (resetGun rnd game) = randomBulletPosition rnd)
  /\ (forall now channel space m m' g,
        createGame now rnd channel space m = Some (m', g) ->
        bulletChamber g = randomBulletPosition rnd).
Proof.
  intros Hrep Hlo Hhi.
  destruct (randomBulletPosition_range rnd Hrep Hlo Hhi) as (k & Hk & Hr).
  split; [by exists k |].
  split.
  { intros j Hj. by apply (randomBulletPosition_sixth rnd j Hlo Hhi). }
  split.
  { intros j Hdraw. apply (randomBulletPosition_sixth rnd j Hlo Hhi); [| done].
    rewrite Hk in Hdraw. injection Hdraw as <-. lia. }
  split; [intros cfg Hc; rewrite Hk; cbn; lia |].
  split; [by intros game |].
  intros now channel space m m' g. unfold createGame.
  destruct (match games m !! channel with
            | Some e => GameState_eqb (state e) active
            | None => false
            end); [done |].
  by intros [= _ <-].
Qed.

Lemma C3_bullet_drawn_among_six_witness :
  Double.representable (7 # 8) /\ (0 <= 7 # 8)%Q /\ (7 # 8 < 1)%Q
  /\ (exists k, randomBulletPosition (7 # 8) = Num k /\ 0 <= k < 6).
Proof.
  split; [by vm_compute |]. split; [by vm_compute |]. split; [by vm_compute |].
  apply (C3_bullet_drawn_among_six (7 # 8)); by vm_compute.
Defined.

(** [stopGame] looks at the alive players first: with a player alive and
    [poolA] positive the refund is [poolA] over the alive players, in any
    state, and the house rake stays out of it. *)
Lemma stopGame_refunds_poolA_first (channel : string) (m : GameManager) (g : Game) :
  games m !! channel = Some g ->
  state g <> finished ->
  alivePlayers g <> [] ->
  0 < poolA g ->
  message (snd (stopGame channel m))
  = Stopped (Some (mkRefund (Z.quot (poolA g) (Z.of_nat (length (alivePlayers g))))
                            (userIds g (alivePlayers g)))).
Proof.
  intros Hg Hs Ha Hp. unfold stopGame. rewrite Hg.
  destruct (state g) eqn:Es; [| | done]; cbn;
    (destruct (alivePlayers g); [done |]); cbn;
    destruct (Z.ltb_spec 0 (poolA g)); (reflexivity || lia).
Qed.

(** C2 (defect of the code). With three players waiting and [poolA +
    houseRake = 1000], [stopGame] announces a refund of 300 to each, the
    share of [poolA = 901] alone; the branch that adds the house rake is
    behind the test on alive players and is not reached. *)
Theorem C2_stopGame_waiting_refund_misses_rake :
  exists g,
    games (reached DEFAULT_CONFIG waitingThree) !! lobby = Some g
    /\ state g = waiting
    /\ length (players g) = 3%nat
    /\ poolA g + houseRake g = 1000
    /\ Z.div (poolA g + houseRake g) 3 = 333
    /\ message (snd (stopGame lobby (reached DEFAULT_CONFIG waitingThree)))
       = Stopped (Some (mkRefund 300 ["0xa1"; "0xb2"; "0xc3"])).
Proof.
  eexists. split; [by vm_compute |]. by repeat split.
Qed.

(** ** The turn protocol: how a call of [handleAction] unfolds *)

Section Turn.

Variables (cfg : GameConfig) (now : Z) (rnd : Q).

Lemma GameState_eqb_eq (a b : GameState) : GameState_eqb a b = true <-> a = b.
Proof. by destruct a, b. Qed.

Lemma holdsTurn_nonempty g r p user :
  holdsTurn g r p user -> alivePlayers g <> [] /\ r ∈ alivePlayers g.
Proof.
  intros (_ & Hr & _). unfold currentPlayerRef in Hr.
  destruct (currentTurnIndex g <? 0); [done |].
  split; [by intros E; rewrite E in Hr |].
  by eapply list_elem_of_lookup_2.
Qed.

(** A call by the turn-holder passes the checks of lines 209-231. *)
Lemma takeTurn_holder user action g r p :
  holdsTurn g r p user ->
  takeTurn cfg now rnd user action g
  = if match action with pass => forcedShoot g | shoot => false end
    then mkTurn g false (Some (failure MustShoot)) []
    else match action with
         | pass => finishTurn cfg now (passBranch cfg (set_turnTimer None g))
         | shoot =>
             match shootBranch cfg now rnd user r (set_turnTimer None g) with
             | inl game => mkTurn game false None []
             | inr b => finishTurn cfg now b
             end
         end.
Proof.
  intros (Hs & Hr & Hp & Hid & Ha). unfold takeTurn.
  rewrite Hs, Hr. cbn. rewrite Hp. cbn. rewrite Hid, String.eqb_refl, Ha.
  reflexivity.
Qed.

(** The write [currentPlayer.isAlive = false] is seen through every
    reference to that object and through no other. *)
Lemma aliveRef_killed g g' r p x :
  deref g r = Some p ->
  playerObjs g' = alter kill r (playerObjs g) ->
  aliveRef g' x = aliveRef g x && negb (Nat.eqb x r).
Proof.
  unfold aliveRef, deref. intros Hp ->.
  destruct (Nat.eqb_spec x r) as [-> | Hne].
  - rewrite list_lookup_alter_eq, Hp. cbn. by rewrite andb_false_r.
  - rewrite list_lookup_alter_ne by done. by rewrite andb_true_r.
Qed.

End Turn.

Section Shots.

Variables (now : Z) (rnd : Q).

Lemma filter_killed g g' r p (l : list nat) :
  deref g r = Some p ->
  playerObjs g' = alter kill r (playerObjs g) ->
  List.filter (aliveRef g') l
  = List.filter (fun x => aliveRef g x && negb (Nat.eqb x r)) l.
Proof.
  intros Hp Hobjs. apply filter_ext. intros x.
  by eapply aliveRef_killed.
Qed.

Lemma userIds_objs g g' (l : list nat) :
  playerObjs g' = playerObjs g -> userIds g' l = userIds g l.
Proof. unfold userIds, deref. by intros ->. Qed.

Lemma othersAlive_deref g r w :
  w ∈ othersAlive g r ->
  exists q, deref g w = Some q /\ isAlive q = true /\ w <> r.
Proof.
  unfold othersAlive. rewrite list_elem_of_In, filter_In.
  intros [_ H]. apply andb_true_iff in H as [Ha Hne].
  unfold aliveRef in Ha. destruct (deref g w) as [q |] eqn:E; [| done].
  exists q. split; [done |]. split; [done |].
  intros ->. by rewrite Nat.eqb_refl in Hne.
Qed.

End Shots.

(** C7. If a surviving shot raises [consecutiveSafeShots] to
    [maxSafeShots] or more, [handleAction] returns a success, the game
    handed to [onAction] is finished and out of the registry, and the
    refund announced for each remaining alive player is
    [floor(poolA / len(alivePlayers))], the remainder being left out. *)
Theorem C7_safe_shot_ceiling_terminates
    (now : Z) (rnd : Q) (channel user : string) (m : GameManager)
    (g : Game) (r : ref) (p : Player) :
  games m !! channel = Some g ->
  holdsTurn g r p user ->
  checkChamber g = false ->
  maxSafeShots (config m) <= consecutiveSafeShots g + 1 ->
  0 <= poolA g ->
  let run := handleAction now rnd channel user shoot m in
  let n := Z.of_nat (length (alivePlayers g)) in
  let refund := mkRefund (Z.div (poolA g) n) (userIds g (alivePlayers g)) in
  0 < n
  /\ r_result run
     = Some {| success := true; message := SafeTerminated refund; game := None |}
  /\ games (r_manager run) !! channel = None
  /\ (exists g', r_notified run = [(g', SafeTerminated refund)]
                 /\ state g' = finished
                 /\ alivePlayers g' = alivePlayers g
                 /\ poolA g' = poolA g)
  /\ 0 <= poolA g - n * refundPerPlayer refund < n.
Proof.
  intros Hg Hturn Hsafe Hmax Hpool run n refund.
  destruct (holdsTurn_nonempty _ _ _ _ Hturn) as [Hne _].
  assert (Hn : 0 < n).
  { subst n. destruct (alivePlayers g); [done | cbn; lia]. }
  split; [exact Hn |].
  subst run. unfold handleAction. rewrite Hg.
  rewrite (takeTurn_holder _ _ _ _ _ _ _ _ Hturn).
  unfold shootBranch. cbn.
  change (checkChamber _) with (checkChamber g). rewrite Hsafe.
  destruct (Z.leb_spec (maxSafeShots (config m)) (consecutiveSafeShots g + 1));
    [| lia].
  unfold bigintDiv. fold n.
  destruct (Z.eqb_spec n 0); [lia |].
  rewrite Z.quot_div_nonneg by lia.
  unfold finishTurn. cbn.
  split; [reflexivity |].
  split; [apply lookup_delete_eq |].
  split.
  - eexists. split; [reflexivity |]. by cbn.
  - subst refund. cbn.
    pose proof (Z.mod_pos_bound (poolA g) n Hn).
    pose proof (Z.div_mod (poolA g) n). lia.
Qed.

Lemma C7_safe_shot_ceiling_terminates_witness :
  let m := reached lowCeiling (waitingThree ++ [StartGame (1 # 2) lobby]) in
  let run := handleAction 1000 (0 # 1) lobby "0xa1" shoot m in
  r_result run
  = Some {| success := true;
            message := SafeTerminated (mkRefund 300 ["0xa1"; "0xb2"; "0xc3"]);
            game := None |}
  /\ games (r_manager run) !! lobby = None.
Proof.
  intros m run.
  assert (Hg : exists g, games m !! lobby = Some g) by (eexists; by vm_compute).
  destruct Hg as [g Hg].
  assert (Hgame : g = default g (games m !! lobby)) by (by rewrite Hg).
  vm_compute in Hgame.
  destruct (C7_safe_shot_ceiling_terminates 1000 (0 # 1) lobby "0xa1" m g
              0%nat (mkPlayer "0xa1" "ann" true 334) Hg)
    as (_ & Hres & Hgone & _).
  - rewrite Hgame. by repeat split.
  - rewrite Hgame. reflexivity.
  - rewrite Hgame. by vm_compute.
  - rewrite Hgame. by vm_compute.
  - split; [| exact Hgone].
    subst run. rewrite Hres, Hgame. reflexivity.
Defined.

Lemma handleAction_absent now rnd channel user action m :
  games m !! channel = None ->
  handleAction now rnd channel user action m
  = mkRun m (Some (failure NoActiveGame)) [].
Proof. intros H. unfold handleAction. by rewrite H. Qed.

(** The elimination that leaves one player, on the game itself. *)
Lemma takeTurn_last_survivor cfg now rnd user g r p w q :
  holdsTurn g r p user ->
  checkChamber g = true ->
  othersAlive g r = [w] ->
  deref g w = Some q -> w <> r ->
  let t := takeTurn cfg now rnd user shoot g in
  t_deleted t = true
  /\ t_result t
     = Some {| success := true;
               message := Bang user (Wins (userId q) (poolA g));
               game := None |}
  /\ t_notified t = [(t_game t, Bang user (Wins (userId q) (poolA g)))]
  /\ state (t_game t) = finished
  /\ alivePlayers (t_game t) = [w]
  /\ aliveRef (t_game t) r = false
  /\ poolA (t_game t) = poolA g.
Proof.
  intros Hturn Hhit Hone Hq Hwr t.
  pose proof Hturn as (_ & _ & Hp & _).
  subst t. rewrite (takeTurn_holder _ _ _ _ _ _ _ _ Hturn).
  unfold shootBranch. cbn.
  change (checkChamber _) with (checkChamber g). rewrite Hhit.
  erewrite (filter_killed g) by (exact Hp || reflexivity).
  fold (othersAlive g r). rewrite Hone.
  assert (Hw : forall g1, playerObjs g1 = alter kill r (playerObjs g) ->
                          deref g1 w = Some q).
  { intros g1 E. unfold deref. rewrite E, list_lookup_alter_ne by done.
    exact Hq. }
  assert (Hr : forall g1, playerObjs g1 = alter kill r (playerObjs g) ->
                          aliveRef g1 r = false).
  { intros g1 E. rewrite (aliveRef_killed g g1 r p r Hp E).
    by rewrite Nat.eqb_refl, andb_false_r. }
  destruct (Z.of_nat (length [w]) <=? currentTurnIndex g); cbn;
    (rewrite (Hw (set_forcedShoot _ _)) by reflexivity); cbn;
    (split_and!; first [ reflexivity | by apply Hr ]).
Qed.

(** C4. If a shot handled by [handleAction] finds the bullet and exactly
    one player remains alive after the elimination, the game handed to
    [onAction] is finished with that player alone in [alivePlayers], the
    message awards that player the whole of [poolA], the game is out of the
    registry, and no further action reaches it. *)
Theorem C4_last_survivor_wins
    (now : Z) (rnd : Q) (channel user : string) (m : GameManager)
    (g : Game) (r : ref) (p : Player) (w : ref) :
  games m !! channel = Some g ->
  holdsTurn g r p user ->
  checkChamber g = true ->
  othersAlive g r = [w] ->
  let run := handleAction now rnd channel user shoot m in
  exists q g',
    deref g w = Some q /\ isAlive q = true /\ w <> r
    /\ r_result run
       = Some {| success := true;
                 message := Bang user (Wins (userId q) (poolA g));
                 game := None |}
    /\ r_notified run = [(g', Bang user (Wins (userId q) (poolA g)))]
    /\ state g' = finished
    /\ alivePlayers g' = [w]
    /\ aliveRef g' r = false
    /\ poolA g' = poolA g
    /\ games (r_manager run) !! channel = None
    /\ (forall now' rnd' user' action',
          handleAction now' rnd' channel user' action' (r_manager run)
          = mkRun (r_manager run) (Some (failure NoActiveGame)) []).
Proof.
  intros Hg Hturn Hhit Hone run.
  destruct (othersAlive_deref g r w) as (q & Hq & Hqa & Hwr).
  { rewrite Hone. by left. }
  destruct (takeTurn_last_survivor (config m) now rnd user g r p w q
              Hturn Hhit Hone Hq Hwr)
    as (Hdel & Hres & Hnot & Hst & Hal & Hdead & Hpool).
  assert (Hgone : games (r_manager run) !! channel = None).
  { subst run. unfold handleAction. rewrite Hg. cbn. rewrite Hdel.
    apply lookup_delete_eq. }
  exists q, (t_game (takeTurn (config m) now rnd user shoot g)).
  split_and!; try done.
  - subst run. unfold handleAction. rewrite Hg. exact Hres.
  - subst run. unfold handleAction. rewrite Hg. exact Hnot.
  - intros now' rnd' user' action'. by apply handleAction_absent.
Qed.

Lemma C4_last_survivor_wins_witness :
  let run := handleAction 1000 (1 # 2) lobby "0xA1" shoot
               (reached DEFAULT_CONFIG loadedDuel) in
  r_result run
  = Some {| success := true;
            message := Bang "0xA1" (Wins "0xb2" 1800);
            game := None |}
  /\ games (r_manager run) !! lobby = None.
Proof.
  intros run. set (m := reached DEFAULT_CONFIG loadedDuel) in *.
  assert (Hg : exists g, games m !! lobby = Some g) by (eexists; by vm_compute).
  destruct Hg as [g Hg].
  assert (Hgame : g = default g (games m !! lobby)) by (by rewrite Hg).
  vm_compute in Hgame.
  destruct (C4_last_survivor_wins 1000 (1 # 2) lobby "0xA1" m g
              0%nat (mkPlayer "0xa1" "ann" true 1000) 1%nat Hg)
    as (q & g' & Hq & _ & _ & Hres & _ & _ & _ & _ & _ & Hgone & _).
  - rewrite Hgame. by repeat split.
  - rewrite Hgame. reflexivity.
  - rewrite Hgame. reflexivity.
  - split; [| exact Hgone].
    subst run. rewrite Hres. rewrite Hgame in Hq. vm_compute in Hq.
    injection Hq as <-. rewrite Hgame. reflexivity.
Defined.

(** ** Compaction of the rotation *)

Section Compaction.

Lemma filter_absent (r : nat) (l : list nat) :
  r ∉ l -> List.filter (fun x => negb (Nat.eqb x r)) l = l.
Proof.
  induction l as [| a l IH]; [done |].
  intros Hnotin. apply not_elem_of_cons in Hnotin as [Hne Hl].
  cbn. destruct (Nat.eqb_spec a r) as [-> | _]; [done |].
  cbn. by rewrite IH.
Qed.

(** Removing the one occurrence of [r] closes the gap it leaves. *)
Lemma filter_one_out (r : nat) (l : list nat) (i : nat) :
  NoDup l -> l !! i = Some r ->
  List.filter (fun x => negb (Nat.eqb x r)) l = take i l ++ drop (S i) l.
Proof.
  intros Hnd. revert i. induction Hnd as [| a l Hnotin Hnd IH]; [done |].
  intros [| i] Hi; cbn in Hi.
  - injection Hi as ->. cbn. rewrite Nat.eqb_refl. cbn.
    rewrite drop_0. by apply filter_absent.
  - assert (a <> r).
    { intros ->. apply Hnotin. by eapply list_elem_of_lookup_2. }
    cbn. destruct (Nat.eqb_spec a r); [done |]. cbn.
    by rewrite (IH i Hi).
Qed.

(** In a well-formed game every player of [alivePlayers] is alive and
    appears once. *)
Lemma wellFormed_alive g :
  wellFormed g ->
  NoDup (alivePlayers g) /\ (forall x, x ∈ alivePlayers g -> aliveRef g x = true).
Proof.
  intros [[_ Hnd] [Hview _]]. rewrite Hview. split.
  - apply NoDup_ListNoDup, List.NoDup_filter. by apply NoDup_ListNoDup.
  - intros x. rewrite list_elem_of_In, filter_In. tauto.
Qed.

Lemma othersAlive_compact g r (i : nat) :
  wellFormed g -> alivePlayers g !! i = Some r ->
  othersAlive g r = take i (alivePlayers g) ++ drop (S i) (alivePlayers g).
Proof.
  intros Hwf Hi. destruct (wellFormed_alive g Hwf) as [Hnd Hal].
  rewrite <- (filter_one_out r _ i Hnd Hi). unfold othersAlive.
  apply filter_ext_in. intros x Hx.
  rewrite Hal; [done |]. by apply list_elem_of_In.
Qed.

(** The player after position [i] in the rotation sits at position [i] of
    the compacted list, or at its head when [i] was the last position. *)
Lemma compact_next (l : list nat) (i : nat) :
  (i < length l)%nat -> (2 <= length l)%nat ->
  let l' := take i l ++ drop (S i) l in
  let i' := if (length l' <=? i)%nat then 0%nat else i in
  length l' = (length l - 1)%nat
  /\ l' !! i' = l !! ((i + 1) mod length l)%nat.
Proof.
  intros Hi Hlen l' i'.
  assert (Hl' : length l' = (length l - 1)%nat).
  { subst l'. rewrite length_app, length_take, length_drop. lia. }
  split; [exact Hl' |]. subst i'. rewrite Hl'.
  destruct (Nat.leb_spec (length l - 1) i) as [Hlast | Hmid].
  - assert (i = length l - 1)%nat as -> by lia.
    replace (length l - 1 + 1)%nat with (length l) by lia.
    rewrite Nat.Div0.mod_same. subst l'.
    rewrite lookup_app_l by (rewrite length_take; lia).
    apply lookup_take_lt. lia.
  - rewrite Nat.mod_small by lia. subst l'.
    rewrite lookup_app_r by (rewrite length_take; lia).
    rewrite length_take, lookup_drop. f_equal. lia.
Qed.

End Compaction.

(** An elimination that leaves two players or more, on the game itself:
    the list is compacted, the index is kept or wrapped, and
    [advanceTurn] is not run. *)
Lemma takeTurn_elimination cfg now rnd user g r p :
  holdsTurn g r p user ->
  checkChamber g = true ->
  (2 <= length (othersAlive g r))%nat ->
  let t := takeTurn cfg now rnd user shoot g in
  let n' := Z.of_nat (length (othersAlive g r)) in
  (exists msg, t_notified t = [(t_game t, msg)]
               /\ t_result t <> None)
  /\ alivePlayers (t_game t) = othersAlive g r
  /\ currentTurnIndex (t_game t)
     = (if n' <=? currentTurnIndex g then 0 else currentTurnIndex g)
  /\ (t_deleted t = false /\ state (t_game t) = active
      \/ t_deleted t = true /\ state (t_game t) = finished).
Proof.
  intros Hturn Hhit Hlen t n'.
  pose proof Hturn as (Hs & _ & Hp & _).
  subst t. rewrite (takeTurn_holder _ _ _ _ _ _ _ _ Hturn).
  unfold shootBranch. cbn.
  change (checkChamber _) with (checkChamber g). rewrite Hhit.
  erewrite (filter_killed g) by (exact Hp || reflexivity).
  fold (othersAlive g r). fold n'.
  assert (Hne1 : Nat.eqb (length (othersAlive g r)) 1 = false)
    by (apply Nat.eqb_neq; lia).
  assert (Hdiv : bigintDiv (poolA g) n' = Some (Z.quot (poolA g) n')).
  { unfold bigintDiv. destruct (Z.eqb_spec n' 0); [lia | done]. }
  unfold finishTurn.
  destruct (n' <=? currentTurnIndex g); cbn; rewrite Hne1; cbn; rewrite Hs; cbn;
    (destruct (maxGameDurationMinutes cfg * 60000 <=? now - createdAt g); cbn;
     [ fold n'; rewrite Hdiv; cbn | ]);
    (split_and!; [ eexists; split; [reflexivity | done] | reflexivity
                 | reflexivity | (by left) || (by right) ]).
Qed.

(** C5. After an elimination that leaves two or more players alive,
    [handleAction] runs no turn advance: [currentTurnIndex] keeps its value
    unless it is at or past the end of the compacted [alivePlayers], where
    it becomes 0; the turn-holder is then the player that followed the
    eliminated one in the rotation. *)
Theorem C5_turn_after_elimination
    (now : Z) (rnd : Q) (channel user : string) (m : GameManager)
    (g : Game) (r : ref) (p : Player) :
  games m !! channel = Some g ->
  wellFormed g ->
  holdsTurn g r p user ->
  checkChamber g = true ->
  (2 <= length (othersAlive g r))%nat ->
  let run := handleAction now rnd channel user shoot m in
  let i := currentTurnIndex g in
  let n := Z.of_nat (length (alivePlayers g)) in
  exists g' msg,
    r_notified run = [(g', msg)]
    /\ alivePlayers g'
       = take (Z.to_nat i) (alivePlayers g) ++ drop (S (Z.to_nat i)) (alivePlayers g)
    /\ currentTurnIndex g'
       = (if Z.of_nat (length (alivePlayers g')) <=? i then 0 else i)
    /\ 0 <= currentTurnIndex g' < Z.of_nat (length (alivePlayers g'))
    /\ alivePlayers g' !! Z.to_nat (currentTurnIndex g')
       = alivePlayers g !! Z.to_nat ((i + 1) mod n)
    /\ (state g' = active -> games (r_manager run) !! channel = Some g').
Proof.
  intros Hg Hwf Hturn Hhit Hlen run i n.
  destruct (takeTurn_elimination (config m) now rnd user g r p Hturn Hhit Hlen)
    as ((msg & Hnot & _) & Hal & Hidx & Hreg).
  set (t := takeTurn (config m) now rnd user shoot g) in *.
  pose proof Hturn as (_ & Hr & _). unfold currentPlayerRef in Hr. fold i in Hr.
  destruct (Z.ltb_spec i 0) as [| Hi0]; [done |].
  pose proof (othersAlive_compact g r _ Hwf Hr) as Hcompact.
  pose proof (lookup_lt_Some _ _ _ Hr) as Hlt.
  assert (Hlen2 : (2 <= length (alivePlayers g))%nat).
  { rewrite Hcompact, length_app, length_take, length_drop in Hlen. lia. }
  destruct (compact_next (alivePlayers g) (Z.to_nat i) Hlt Hlen2) as [Hl' Hnext].
  rewrite <- Hcompact in Hl', Hnext.
  assert (Hi' : Z.to_nat (currentTurnIndex (t_game t))
                = if (length (othersAlive g r) <=? Z.to_nat i)%nat
                  then 0%nat else Z.to_nat i).
  { rewrite Hidx. fold i.
    destruct (Z.leb_spec (Z.of_nat (length (othersAlive g r))) i),
             (Nat.leb_spec (length (othersAlive g r)) (Z.to_nat i));
      (reflexivity || lia). }
  exists (t_game t), msg.
  split; [| split; [| split; [| split; [| split]]]].
  - subst run. unfold handleAction. rewrite Hg. exact Hnot.
  - by rewrite Hal.
  - by rewrite Hal.
  - rewrite Hidx, Hal. fold i.
    destruct (Z.leb_spec (Z.of_nat (length (othersAlive g r))) i); lia.
  - rewrite Hi', Hal, Hnext. f_equal. subst n.
    rewrite <- (Z2Nat.id i) at 2 by lia.
    rewrite <- (Nat2Z.inj_add _ 1), <- Nat2Z.inj_mod, Nat2Z.id. reflexivity.
  - intros Hact. subst run. unfold handleAction. rewrite Hg. fold t. cbn.
    destruct Hreg as [[-> _] | [_ Hfin]]; [apply lookup_insert_eq |].
    rewrite Hfin in Hact. discriminate.
Qed.

(** ** The invariant of the registry *)

Section Invariant.

(** Well-formedness reads five fields only; a change that keeps the table
    and does not move the index of an active game keeps it. *)
Lemma wellFormed_keep g g' :
  wellFormed g ->
  playerObjs g' = playerObjs g ->
  players g' = players g ->
  alivePlayers g' = alivePlayers g ->
  (state g' = active ->
   state g = active /\ currentTurnIndex g' = currentTurnIndex g) ->
  wellFormed g'.
Proof.
  intros [[Hrefs Hnd] [Hview Hidx]] Ho Hp Ha Hs.
  unfold wellFormed, refsSound, gameInvariant, aliveView, turnInRange, aliveRef,
    deref in *.
  rewrite Ho, Hp, Ha. split_and!; try done.
  intros Hact Hne. destruct (Hs Hact) as [Hact' ->]. by apply Hidx.
Qed.

Lemma createGame_wf now rnd channel space m m' g :
  managerWF m ->
  createGame now rnd channel space m = Some (m', g) ->
  managerWF m' /\ wellFormed g.
Proof.
  intros Hm. unfold createGame.
  destruct (match games m !! channel with
            | Some e => GameState_eqb (state e) active
            | None => false
            end); [done |].
  intros [= <- <-].
  assert (Hnew : wellFormed
                   (mkGame now channel space waiting [] [] [] 0 0 0 0 (Num 0)
                      (randomBulletPosition rnd) 0 false 0 None None None now)).
  { split; split; cbn; try done. apply NoDup_nil_2. }
  split; [| exact Hnew]. by apply map_Forall_insert_2.
Qed.

Lemma addPlayer_game_wf g user name amount d :
  wellFormed g -> state g = waiting ->
  wellFormed
    (set_houseRake (houseRake g + rake d)
       (set_poolA (poolA g + toPoolA d)
          (set_alivePlayers (alivePlayers g ++ [length (playerObjs g)])
             (set_players (players g ++ [length (playerObjs g)])
                (set_playerObjs (playerObjs g ++ [mkPlayer user name true amount])
                   g))))).
Proof.
  intros [[Hrefs Hnd] [Hview Hidx]] Hs.
  unfold wellFormed, refsSound, gameInvariant, aliveView, turnInRange. cbn.
  rewrite Hs. split_and!; try done.
  - apply Forall_app. split.
    + eapply Forall_impl; [exact Hrefs |]. intros x Hx. cbn in Hx.
      rewrite length_app. cbn. lia.
    + apply Forall_singleton. rewrite length_app. cbn. lia.
  - apply NoDup_app. split_and!; [done | | apply NoDup_singleton].
    intros x Hx Hx'. apply list_elem_of_singleton in Hx'. subst x.
    rewrite Forall_forall in Hrefs. specialize (Hrefs _ Hx). lia.
  - rewrite List.filter_app. f_equal.
    + rewrite Hview. apply filter_ext_in. intros x Hx.
      apply list_elem_of_In in Hx. rewrite Forall_forall in Hrefs.
      specialize (Hrefs _ Hx). unfold aliveRef, deref. cbn.
      by rewrite lookup_app_l.
    + cbn. unfold aliveRef, deref. cbn. by rewrite list_lookup_middle.
Qed.

Lemma addPlayer_wf channel user name amount m :
  managerWF m ->
  managerWF (fst (addPlayer channel user name amount m))
  /\ Forall wellFormed (shown (snd (addPlayer channel user name amount m))).
Proof.
  intros Hm. unfold addPlayer.
  destruct (games m !! channel) as [g |] eqn:Hg; [| by split].
  pose proof (Hm _ _ Hg) as Hwf.
  destruct (GameState_eqb (state g) waiting) eqn:Hs; cbn; [| by split].
  apply GameState_eqb_eq in Hs.
  destruct (existsb _ _); [by split |].
  destruct (_ <=? _); [by split |]. cbn.
  pose proof (addPlayer_game_wf g user name amount
                (calculateEntryDistribution amount (rakePercent (config m)))
                Hwf Hs) as Hnew.
  split; [by apply map_Forall_insert_2 |].
  by apply Forall_singleton.
Qed.

Lemma startGame_wf rnd channel m :
  managerWF m ->
  managerWF (fst (startGame rnd channel m))
  /\ Forall wellFormed (shown (snd (startGame rnd channel m))).
Proof.
  intros Hm. unfold startGame.
  destruct (games m !! channel) as [g |] eqn:Hg; [| by split].
  pose proof (Hm _ _ Hg) as [Hsound [Hview _]].
  destruct (GameState_eqb (state g) active); [by split |].
  destruct (_ <? _); [by split |]. cbn.
  match goal with |- managerWF {| games := <[_ := ?g']> _ |} /\ _ =>
    assert (Hnew : wellFormed g') end.
  { split; [exact Hsound |]. split; [exact Hview |].
    intros _ Hne. cbn in *. destruct (alivePlayers g); [done | cbn; lia]. }
  split; [by apply map_Forall_insert_2 |].
  by apply Forall_singleton.
Qed.

Lemma stopGame_wf channel m :
  managerWF m ->
  managerWF (fst (stopGame channel m))
  /\ Forall wellFormed (shown (snd (stopGame channel m))).
Proof.
  intros Hm. unfold stopGame.
  destruct (games m !! channel) as [g |] eqn:Hg; [| by split].
  pose proof (Hm _ _ Hg) as Hwf.
  destruct (GameState_eqb (state g) finished); [by split |]. cbn.
  split; [by apply map_Forall_delete |].
  apply Forall_singleton. by apply (wellFormed_keep g).
Qed.

End Invariant.

Section InvariantOfTurns.

Variables (cfg : GameConfig) (now : Z) (rnd : Q).

Lemma filter_filter_andb (f h : nat -> bool) (l : list nat) :
  List.filter f (List.filter h l) = List.filter (fun x => h x && f x) l.
Proof.
  induction l as [| a l IH]; [done |].
  cbn. destruct (h a); cbn; [destruct (f a) |]; by rewrite IH.
Qed.

Lemma advanceTurn_wf g : wellFormed g -> wellFormed (advanceTurn g).
Proof.
  intros Hwf. unfold advanceTurn.
  destruct (Nat.eqb_spec (length (alivePlayers g)) 0) as [| Hlen]; [done |].
  pose proof Hwf as [Hsound [Hview Hidx]].
  split; [exact Hsound |]. split; [exact Hview |].
  intros Hact Hne. cbn in *. specialize (Hidx Hact Hne).
  apply Z.rem_bound_pos; lia.
Qed.

Lemma finishTurn_wf b :
  wellFormed (b_game b) ->
  wellFormed (t_game (finishTurn cfg now b))
  /\ Forall wellFormed (fst <$> t_notified (finishTurn cfg now b)).
Proof.
  intros Hwf. unfold finishTurn.
  assert (Hfin : wellFormed (set_state finished (b_game b)))
    by (by apply (wellFormed_keep (b_game b))).
  destruct (_ && _).
  - destruct (bigintDiv _ _); cbn; split; try done.
    by apply Forall_singleton.
  - assert (Hnext : wellFormed
                      (if GameState_eqb (state (b_game b)) active
                       then if negb (b_playerDied b)
                            then advanceTurn (b_game b) else b_game b
                       else b_game b)).
    { destruct (GameState_eqb _ _); [| done].
      destruct (negb _); [by apply advanceTurn_wf | done]. }
    cbn. split; [done |]. by apply Forall_singleton.
Qed.

Lemma passBranch_wf g : wellFormed g -> wellFormed (b_game (passBranch cfg g)).
Proof.
  intros Hwf. unfold passBranch. cbn.
  destruct (_ <=? _); by apply (wellFormed_keep g).
Qed.

(** The game after an elimination: the store with the object killed, the
    list compacted, the index kept or wrapped. *)
Lemma eliminated_wf g g' r p :
  wellFormed g ->
  deref g r = Some p ->
  0 <= currentTurnIndex g ->
  playerObjs g' = alter kill r (playerObjs g) ->
  players g' = players g ->
  alivePlayers g' = othersAlive g r ->
  (state g' = active ->
   currentTurnIndex g'
   = if Z.of_nat (length (othersAlive g r)) <=? currentTurnIndex g
     then 0 else currentTurnIndex g) ->
  wellFormed g'.
Proof.
  intros [[Hrefs Hnd] [Hview _]] Hp Hi Ho Hpl Hal Hidx.
  split; [split | split].
  - rewrite Ho, Hpl, length_alter. exact Hrefs.
  - by rewrite Hpl.
  - unfold aliveView. rewrite Hal, Hpl. unfold othersAlive.
    rewrite Hview, filter_filter_andb. apply filter_ext. intros x.
    rewrite (aliveRef_killed g g' r p x Hp Ho).
    by destruct (aliveRef g x).
  - intros Hact Hne. rewrite (Hidx Hact), Hal in *.
    destruct (Z.leb_spec (Z.of_nat (length (othersAlive g r)))
                (currentTurnIndex g)); [| lia].
    destruct (othersAlive g r); [done | cbn; lia].
Qed.

Lemma shootBranch_wf user g r p :
  wellFormed g ->
  deref g r = Some p ->
  0 <= currentTurnIndex g ->
  match shootBranch cfg now rnd user r g with
  | inl g' => wellFormed g'
  | inr b => wellFormed (b_game b)
  end.
Proof.
  intros Hwf Hp Hi. unfold shootBranch. cbn.
  destruct (checkChamber _).
  - erewrite (filter_killed g) by (exact Hp || reflexivity).
    fold (othersAlive g r).
    assert (Hgen : forall g', playerObjs g' = alter kill r (playerObjs g) ->
                              players g' = players g ->
                              alivePlayers g' = othersAlive g r ->
                              (state g' = active ->
                               currentTurnIndex g'
                               = if Z.of_nat (length (othersAlive g r))
                                    <=? currentTurnIndex g
                                 then 0 else currentTurnIndex g) ->
                              wellFormed g')
      by (intros g'; by apply eliminated_wf with (p := p)).
    destruct (Z.of_nat (length (othersAlive g r)) <=? currentTurnIndex g) eqn:E;
      cbn;
      (destruct (Nat.eqb (length (othersAlive g r)) 1);
       [ destruct (_ ≫= _); cbn | cbn ]);
      apply Hgen; cbn; try done; by rewrite ?E.
  - destruct (_ <=? _).
    + destruct (bigintDiv _ _); cbn; by apply (wellFormed_keep g).
    + cbn. destruct (_ <=? _); by apply (wellFormed_keep g).
Qed.

Lemma takeTurn_wf user action g :
  wellFormed g ->
  wellFormed (t_game (takeTurn cfg now rnd user action g))
  /\ Forall wellFormed (fst <$> t_notified (takeTurn cfg now rnd user action g)).
Proof.
  intros Hwf. unfold takeTurn.
  destruct (negb _); [by split |].
  destruct (currentPlayerRef g) as [r |] eqn:Hr; cbn; [| by split].
  destruct (deref g r) as [p |] eqn:Hp; cbn; [| by split].
  destruct (negb _); [by split |].
  destruct (negb _); [by split |].
  destruct (match action with pass => forcedShoot g | shoot => false end);
    [by split |].
  assert (Hwf' : wellFormed (set_turnTimer None g))
    by (by apply (wellFormed_keep g)).
  destruct action.
  - assert (Hi : 0 <= currentTurnIndex g).
    { unfold currentPlayerRef in Hr.
      destruct (Z.ltb_spec (currentTurnIndex g) 0); [done | lia]. }
    pose proof (shootBranch_wf user (set_turnTimer None g) r p Hwf' Hp Hi) as Hb.
    destruct (shootBranch _ _ _ _ _ _) as [g' | b]; [by split |].
    by apply finishTurn_wf.
  - apply finishTurn_wf. by apply passBranch_wf.
Qed.

End InvariantOfTurns.

Lemma handleAction_wf now rnd channel user action m :
  managerWF m ->
  managerWF (r_manager (handleAction now rnd channel user action m))
  /\ Forall wellFormed
       (fst <$> r_notified (handleAction now rnd channel user action m)).
Proof.
  intros Hm. unfold handleAction.
  destruct (games m !! channel) as [g |] eqn:Hg; [| by split].
  destruct (takeTurn_wf (config m) now rnd user action g (Hm _ _ Hg)) as [Hgame Hseen].
  cbn. split; [| exact Hseen].
  destruct (t_deleted _); [by apply map_Forall_delete |].
  by apply map_Forall_insert_2.
Qed.

Section Reachable.

Lemma perform_wf op m :
  managerWF m ->
  managerWF (fst (perform op m)) /\ Forall wellFormed (snd (perform op m)).
Proof.
  intros Hm. destruct op as [now rnd channel space | channel user name amount
                            | rnd channel | now rnd channel user action
                            | channel | channel]; cbn.
  - destruct (createGame now rnd channel space m) as [[m' g] |] eqn:E; cbn;
      [| by split].
    destruct (createGame_wf _ _ _ _ _ _ _ Hm E). split; [done |].
    by apply Forall_singleton.
  - pose proof (addPlayer_wf channel user name amount m Hm).
    by destruct (addPlayer channel user name amount m).
  - pose proof (startGame_wf rnd channel m Hm).
    by destruct (startGame rnd channel m).
  - by apply handleAction_wf.
  - pose proof (stopGame_wf channel m Hm).
    by destruct (stopGame channel m).
  - split; [| done]. by apply map_Forall_delete.
Qed.

Lemma performAll_wf ops m :
  managerWF m ->
  managerWF (fst (performAll ops m)) /\ Forall wellFormed (snd (performAll ops m)).
Proof.
  revert m. induction ops as [| op ops IH]; intros m Hm; [by split |].
  cbn. destruct (perform_wf op m Hm) as [Hm' Hseen].
  destruct (perform op m) as [m' seen]. cbn in Hm', Hseen.
  destruct (IH m' Hm') as [Hm'' Hseen'].
  destruct (performAll ops m') as [m'' seen']. cbn in *.
  split; [done |]. by apply Forall_app.
Qed.

Lemma newManager_wf cfg : managerWF (newManager cfg).
Proof. apply map_Forall_empty. Qed.

Lemma reached_wf cfg ops channel g :
  games (reached cfg ops) !! channel = Some g -> wellFormed g.
Proof.
  intros Hg.
  destruct (performAll_wf ops (newManager cfg) (newManager_wf cfg)) as [Hm _].
  exact (Hm _ _ Hg).
Qed.

End Reachable.

(** C9. Whatever operations were run on a fresh registry, every game in
    the registry and every game handed to a caller has [alivePlayers]
    equal to the alive part of [players] in the order of [players], and a
    turn index inside [alivePlayers] when it is active with a player
    alive; one more operation of any kind keeps this so. *)
Theorem C9_invariant_at_every_observation (cfg : GameConfig) (ops : list Op) :
  let m := fst (performAll ops (newManager cfg)) in
  let seen := snd (performAll ops (newManager cfg)) in
  map_Forall (fun _ g => gameInvariant g) (games m)
  /\ Forall gameInvariant seen
  /\ forall op,
       map_Forall (fun _ g => gameInvariant g) (games (fst (perform op m)))
       /\ Forall gameInvariant (snd (perform op m)).
Proof.
  intros m seen.
  destruct (performAll_wf ops (newManager cfg) (newManager_wf cfg))
    as [Hm Hseen].
  fold m in Hm. fold seen in Hseen.
  assert (Hweak : forall l, Forall wellFormed l -> Forall gameInvariant l).
  { intros l Hl. eapply Forall_impl; [exact Hl |]. by intros g [_ Hinv]. }
  assert (Hweak' : forall m', managerWF m' ->
                              map_Forall (fun _ g => gameInvariant g) (games m')).
  { intros m' Hm' k g Hg. by destruct (Hm' k g Hg). }
  split; [by apply Hweak' |]. split; [by apply Hweak |].
  intros op. destruct (perform_wf op m Hm) as [Hm' Hseen'].
  split; [by apply Hweak' | by apply Hweak].
Qed.

Lemma C5_turn_after_elimination_witness :
  let m := reached DEFAULT_CONFIG loadedFour in
  let run := handleAction 1000 (1 # 2) lobby "0xa1" shoot m in
  exists g g' msg,
    games m !! lobby = Some g
    /\ alivePlayers g = [0; 1; 2; 3]%nat
    /\ currentTurnIndex g = 0
    /\ r_notified run = [(g', msg)]
    /\ alivePlayers g' = [1; 2; 3]%nat
    /\ currentTurnIndex g' = 0.
Proof.
  intros m run.
  assert (Hg : exists g, games m !! lobby = Some g) by (eexists; by vm_compute).
  destruct Hg as [g Hg].
  assert (Hgame : g = default g (games m !! lobby)) by (by rewrite Hg).
  vm_compute in Hgame.
  destruct (C5_turn_after_elimination 1000 (1 # 2) lobby "0xa1" m g
              0%nat (mkPlayer "0xa1" "ann" true 1000) Hg)
    as (g' & msg & Hnot & Hal & Hidx & _).
  - by apply (reached_wf DEFAULT_CONFIG loadedFour lobby).
  - rewrite Hgame. by repeat split.
  - rewrite Hgame. reflexivity.
  - rewrite Hgame. cbn. lia.
  - exists g, g', msg. split; [exact Hg |].
    rewrite Hgame in Hal, Hidx |- *. cbn in Hal. rewrite Hal in Hidx.
    cbn in Hidx. by split_and!.
Defined.

(** ** Forced shoot *)

Section ForcedShoot.

Variables (cfg : GameConfig) (now : Z) (rnd : Q).

(** The end of a call changes neither the flag nor the pass counter, and
    a call that returns has notified once. *)
Lemma finishTurn_flags b res :
  t_result (finishTurn cfg now b) = Some res ->
  success res = true
  /\ exists msg,
       t_notified (finishTurn cfg now b) = [(t_game (finishTurn cfg now b), msg)]
       /\ forcedShoot (t_game (finishTurn cfg now b)) = forcedShoot (b_game b)
       /\ consecutivePasses (t_game (finishTurn cfg now b))
          = consecutivePasses (b_game b).
Proof.
  unfold finishTurn. destruct (_ && _).
  - destruct (bigintDiv _ _); cbn; [| done].
    intros [= <-]. split; [done |]. by eexists.
  - cbn. intros [= <-]. split; [done |]. eexists. split; [reflexivity |].
    destruct (GameState_eqb _ _); [| done].
    destruct (negb _); [| done].
    unfold advanceTurn. by destruct (Nat.eqb _ _).
Qed.

Lemma shootBranch_flags user r g b :
  shootBranch cfg now rnd user r g = inr b ->
  forcedShoot (b_game b) = false /\ consecutivePasses (b_game b) = 0.
Proof.
  unfold shootBranch. cbn.
  destruct (checkChamber _).
  - destruct (_ <=? _); cbn;
      (destruct (Nat.eqb _ 1); [destruct (_ ≫= _); [| done] |]);
      by intros [= <-].
  - destruct (_ <=? _).
    + destruct (bigintDiv _ _); [| done]. by intros [= <-].
    + cbn. destruct (_ <=? _); by intros [= <-].
Qed.

Lemma passBranch_flags g :
  forcedShoot g = false ->
  consecutivePasses (b_game (passBranch cfg g)) = consecutivePasses g + 1
  /\ (forcedShoot (b_game (passBranch cfg g)) = true
      <-> Z.of_nat (length (alivePlayers g)) <= consecutivePasses g + 1).
Proof.
  intros Hf. unfold passBranch. cbn.
  destruct (Z.leb_spec (Z.of_nat (length (alivePlayers g)))
              (consecutivePasses g + 1)); cbn.
  - split; [done |]. by split.
  - split; [done |]. rewrite Hf. split; [done | lia].
Qed.

End ForcedShoot.

Lemma handleAction_rejected now rnd channel user action m g res :
  games m !! channel = Some g ->
  takeTurn (config m) now rnd user action g = mkTurn g false (Some res) [] ->
  handleAction now rnd channel user action m = mkRun m (Some res) [].
Proof.
  intros Hg Ht. unfold handleAction. rewrite Hg, Ht. cbn.
  rewrite (insert_id _ _ _ Hg). by destruct m.
Qed.

(** ** Identities and letter case *)

Section Identities.

Lemma existsb_none {A} (f : A -> bool) (l : list A) :
  (forall x, x ∈ l -> f x = false) -> existsb f l = false.
Proof.
  induction l as [| a l IH]; [done |]. intros H. cbn.
  rewrite (H a) by (by left). apply IH. intros x Hx. apply H. by right.
Qed.

(** A pass by an identity that the turn check accepts goes through when
    no shot is forced. *)
Lemma pass_accepted cfg now rnd user g r p :
  holdsTurn g r p user ->
  forcedShoot g = false ->
  exists res,
    t_result (takeTurn cfg now rnd user pass g) = Some res
    /\ success res = true.
Proof.
  intros Hturn Hf.
  destruct (holdsTurn_nonempty _ _ _ _ Hturn) as [Hne _].
  rewrite (takeTurn_holder _ _ _ _ _ _ _ _ Hturn), Hf.
  unfold finishTurn, passBranch, bigintDiv. cbn.
  assert (E : (Z.of_nat (length (alivePlayers g)) =? 0) = false).
  { apply Z.eqb_neq. destruct (alivePlayers g); [done | cbn; lia]. }
  destruct (_ <=? _); cbn; (destruct (_ && _); [rewrite E |]); by eexists.
Qed.

End Identities.

(** An identity that the turn check does not accept is refused and the
    call changes nothing. *)
Lemma handleAction_refuses now rnd channel caller action m g r p :
  games m !! channel = Some g ->
  state g = active ->
  currentPlayerRef g = Some r ->
  deref g r = Some p ->
  toLowerCase caller <> toLowerCase (userId p) ->
  handleAction now rnd channel caller action m
  = mkRun m
      (Some (failure (NotYourTurn (if String.eqb (userId p) "" then "none"
                                   else userId p)))) [].
Proof.
  intros Hg Hs Hr Hp Hother. eapply handleAction_rejected; [exact Hg |].
  unfold takeTurn. rewrite Hs, Hr. cbn. rewrite Hp. cbn.
  destruct (String.eqb_spec (toLowerCase (userId p)) (toLowerCase caller));
    [congruence | done].
Qed.

(** The turn check sees an identity through its lower case only: a pass
    under two identities that it accepts is one and the same call. *)
Lemma pass_same_call cfg now rnd user user' g r p :
  holdsTurn g r p user ->
  toLowerCase user' = toLowerCase user ->
  takeTurn cfg now rnd user' pass g = takeTurn cfg now rnd user pass g.
Proof.
  intros Hturn Hcase.
  assert (Hturn' : holdsTurn g r p user').
  { destruct Hturn as (? & ? & ? & Hid & ?). split_and!; try done.
    by rewrite Hcase. }
  by rewrite (takeTurn_holder _ _ _ _ _ _ _ _ Hturn),
             (takeTurn_holder _ _ _ _ _ _ _ _ Hturn').
Qed.

(** C10, the claim as stated, fails: in a waiting game with room left,
    where [0xAb] and [0xab] have joined, the identity [0xab] differs from
    the joined [0xAb] in letter case only, and [addPlayer] rejects it as
    already joined, without a new [Player] entry. *)
Lemma C10_case_variant_rejected :
  let m := reached DEFAULT_CONFIG
             [ CreateGame 0 (0 # 1) lobby "town";
               AddPlayer lobby "0xAb" "ann" 1000;
               AddPlayer lobby "0xab" "bob" 1000 ] in
  exists g,
    games m !! lobby = Some g
    /\ state g = waiting
    /\ Z.of_nat (length (players g)) < maxPlayers (config m)
    /\ deref g 0%nat = Some (mkPlayer "0xAb" "ann" true 1000)
    /\ "0xab" <> "0xAb"
    /\ toLowerCase "0xab" = toLowerCase "0xAb"
    /\ addPlayer lobby "0xab" "cyd" 1000 m = (m, failure AlreadyJoined).
Proof.
  intros m. eexists. split; [by vm_compute |].
  split; [reflexivity |]. split; [by vm_compute |].
  split; [reflexivity |]. split; [discriminate |].
  split; [reflexivity |]. by vm_compute.
Qed.

(** C10, amended. [addPlayer] compares [userId] with [===]: in a waiting
    game with room left, an identity that equals a joined player's
    [userId] up to letter case, and is the exact [userId] of no joined
    player, is accepted as a new [Player] object next to the first one.
    [handleAction] compares the lower-cased identities instead: on the
    turn of the first player a caller whose lower-cased identity is that
    player's is taken for the player (its pass is the very call of the
    player, and succeeds when no shot is forced; its shot is not
    refused), and a caller whose lower-cased identity differs is refused
    with the not-your-turn message and changes nothing. *)
Theorem C10_duplicate_check_is_case_sensitive
    (channel user name : string) (amount : Z) (m : GameManager)
    (g : Game) (r : ref) (p : Player) :
  games m !! channel = Some g ->
  wellFormed g ->
  state g = waiting ->
  Z.of_nat (length (players g)) < maxPlayers (config m) ->
  r ∈ players g ->
  deref g r = Some p ->
  toLowerCase user = toLowerCase (userId p) ->
  (forall r' p', r' ∈ players g -> deref g r' = Some p' -> userId p' <> user) ->
  (exists g' r',
     success (snd (addPlayer channel user name amount m)) = true
     /\ game (snd (addPlayer channel user name amount m)) = Some g'
     /\ games (fst (addPlayer channel user name amount m)) !! channel = Some g'
     /\ players g' = players g ++ [r']
     /\ alivePlayers g' = alivePlayers g ++ [r']
     /\ r' <> r
     /\ deref g' r' = Some (mkPlayer user name true amount)
     /\ deref g' r = Some p)
  /\ (forall now rnd m2 g2,
        games m2 !! channel = Some g2 ->
        holdsTurn g2 r p (userId p) ->
        handleAction now rnd channel user pass m2
        = handleAction now rnd channel (userId p) pass m2
        /\ (forcedShoot g2 = false ->
            exists res,
              r_result (handleAction now rnd channel user pass m2) = Some res
              /\ success res = true)
        /\ (forall res,
              r_result (handleAction now rnd channel user shoot m2) = Some res ->
              success res = true)
        /\ (forall caller action,
              isAscii caller = true -> isAscii (userId p) = true ->
              toLowerCase caller <> toLowerCase (userId p) ->
              handleAction now rnd channel caller action m2
              = mkRun m2
                  (Some (failure
                           (NotYourTurn (if String.eqb (userId p) ""
                                         then "none" else userId p)))) [])).
Proof.
  intros Hg Hwf Hs Hroom Hr Hp Hcase Hfresh. split.
  - pose proof Hwf as [[Hrefs _] _].
    rewrite Forall_forall in Hrefs. pose proof (Hrefs _ Hr) as Hlt.
    unfold addPlayer. rewrite Hg, Hs. cbn.
    rewrite existsb_none.
    2:{ intros x Hx. destruct (deref g x) as [px |] eqn:Ex; [| done].
        apply String.eqb_neq. by eapply Hfresh. }
    destruct (Z.leb_spec (maxPlayers (config m)) (Z.of_nat (length (players g))));
      [lia |]. cbn.
    eexists. exists (length (playerObjs g)).
    split; [reflexivity |]. split; [reflexivity |].
    split; [apply lookup_insert_eq |]. cbn.
    split; [reflexivity |]. split; [reflexivity |].
    split; [lia |]. unfold deref in *. cbn.
    split; [by rewrite list_lookup_middle |].
    by rewrite lookup_app_l.
  - intros now rnd m2 g2 Hg2 Hexact.
    pose proof Hexact as (Hact & Href & Hobj & _ & Halive).
    assert (Hturn : holdsTurn g2 r p user) by (by repeat split).
    split; [| split; [| split]].
    + unfold handleAction. rewrite Hg2.
      by rewrite (pass_same_call (config m2) now rnd (userId p) user g2 r p
                    Hexact Hcase).
    + intros Hf.
      destruct (pass_accepted (config m2) now rnd user g2 r p Hturn Hf)
        as (res & Hres & Hok).
      exists res. split; [| exact Hok].
      unfold handleAction. by rewrite Hg2.
    + intros res. unfold handleAction. rewrite Hg2.
      rewrite (takeTurn_holder _ _ _ _ _ _ _ _ Hturn). cbn.
      destruct (shootBranch _ _ _ _ _ _) as [g1 | b]; [done |].
      intros Hres. by destruct (finishTurn_flags _ _ _ _ Hres).
    + intros caller action _ _ Hother.
      by apply (handleAction_refuses now rnd channel caller action m2 g2 r p).
Qed.

Lemma C10_duplicate_check_is_case_sensitive_witness :
  let m := reached DEFAULT_CONFIG
             [ CreateGame 0 (0 # 1) lobby "town";
               AddPlayer lobby "0xAb" "ann" 1000 ] in
  exists g',
    success (snd (addPlayer lobby "0xab" "bob" 1000 m)) = true
    /\ games (fst (addPlayer lobby "0xab" "bob" 1000 m)) !! lobby = Some g'
    /\ players g' = [0; 1]%nat
    /\ deref g' 1%nat = Some (mkPlayer "0xab" "bob" true 1000)
    /\ deref g' 0%nat = Some (mkPlayer "0xAb" "ann" true 1000).
Proof.
  intros m.
  assert (Hg : exists g, games m !! lobby = Some g) by (eexists; by vm_compute).
  destruct Hg as [g Hg].
  assert (Hgame : g = default g (games m !! lobby)) by (by rewrite Hg).
  vm_compute in Hgame.
  destruct (C10_duplicate_check_is_case_sensitive lobby "0xab" "bob" 1000 m g
              0%nat (mkPlayer "0xAb" "ann" true 1000) Hg)
    as [(g' & r' & Hok & _ & Hreg & Hpl & _ & Hne & Hnew & Hold) _].
  - by apply (reached_wf DEFAULT_CONFIG
                [CreateGame 0 (0 # 1) lobby "town";
                 AddPlayer lobby "0xAb" "ann" 1000] lobby).
  - rewrite Hgame. reflexivity.
  - rewrite Hgame. by vm_compute.
  - rewrite Hgame. by left.
  - rewrite Hgame. reflexivity.
  - reflexivity.
  - rewrite Hgame. intros r1 p1 Hin Hd. cbn in Hin.
    apply list_elem_of_singleton in Hin. subst r1.
    cbn in Hd. injection Hd as <-. cbn. discriminate.
  - exists g'. split; [exact Hok |]. split; [exact Hreg |].
    rewrite Hgame in Hpl. cbn in Hpl.
    assert (Hr' : r' = 1%nat).
    { pose proof (lookup_lt_Some _ _ _ Hnew) as Hlt.
      assert (Hd := Hnew). unfold deref in Hd.
      destruct (games (fst (addPlayer lobby "0xab" "bob" 1000 m)) !! lobby)
        as [g2 |] eqn:E; [| done].
      injection Hreg as ->. vm_compute in E. injection E as <-.
      cbn in Hlt. lia. }
    subst r'. by split_and!.
Defined.

(** ** Further properties of the economy primitives *)

Ltac pick_game m ch g Hg Hgame :=
  assert (Hg : exists g0, games m !! ch = Some g0) by (eexists; by vm_compute);
  destruct Hg as [g Hg];
  assert (Hgame : g = default g (games m !! ch)) by (by rewrite Hg);
  vm_compute in Hgame.

Lemma split_within_entry (amount percent : Z) :
  0 <= amount -> 0 <= percent <= 100 ->
  0 <= rake (calculateEntryDistribution amount percent) <= amount
  /\ 0 <= toPoolA (calculateEntryDistribution amount percent) <= amount.
Proof.
  intros Ha Hp. cbn.
  assert (Hq : 0 <= Z.quot (amount * percent) 100 <= amount).
  { rewrite Z.quot_div_nonneg by nia. split.
    - apply Z.div_pos; nia.
    - apply Z.div_le_upper_bound; nia. }
  lia.
Qed.

(** X1. With a rake percentage between 0 and 100 and an entry that is not
    negative, the rake and the net share both lie between 0 and the
    entry. *)
Theorem entry_split_bounds (amount percent : Z) :
  0 <= amount -> 0 <= percent <= 100 ->
  0 <= rake (calculateEntryDistribution amount percent) <= amount
  /\ 0 <= toPoolA (calculateEntryDistribution amount percent) <= amount.
Proof. apply split_within_entry. Qed.

Lemma entry_split_bounds_witness :
  0 <= rake (calculateEntryDistribution 1005 10) <= 1005
  /\ 0 <= toPoolA (calculateEntryDistribution 1005 10) <= 1005.
Proof. apply (entry_split_bounds 1005 10); lia. Defined.

(** ** Further properties of the registry *)

Section Registry.

Lemma addPlayer_unfold channel user name amount m :
  addPlayer channel user name amount m
  = match games m !! channel with
    | None => (m, failure NoGameStartOne)
    | Some g =>
        if negb (GameState_eqb (state g) waiting)
        then (m, failure AlreadyInProgress)
        else if alreadyJoined user g then (m, failure AlreadyJoined)
        else if maxPlayers (config m) <=? Z.of_nat (length (players g))
        then (m, failure (GameFull (maxPlayers (config m))))
        else
          let g' := joined (config m) user name amount g in
          (mkManager (<[channel := g']> (games m)) (insertionOrder m) (config m),
           {| success := true; message := Joined (poolA g'); game := Some g' |})
    end.
Proof. reflexivity. Qed.

Lemma startGame_unfold rnd channel m :
  startGame rnd channel m
  = match games m !! channel with
    | None => (m, failure NoGame)
    | Some g =>
        if GameState_eqb (state g) active then (m, failure AlreadyActive)
        else if Z.of_nat (length (players g)) <? minPlayers (config m)
        then (m, failure (NeedPlayers (minPlayers (config m))))
        else
          (mkManager (<[channel := started rnd g]> (games m)) (insertionOrder m)
             (config m),
           {| success := true; message := Started; game := Some (started rnd g) |})
    end.
Proof. reflexivity. Qed.

Lemma GameState_eqb_neq (a b : GameState) : GameState_eqb a b = false <-> a <> b.
Proof. destruct a, b; cbn; split; (done || congruence). Qed.

End Registry.

(** X2. [createGame] throws exactly when the channel holds an active
    game. Otherwise it registers a new waiting game with no player and
    empty pools under the channel, replacing any game that was there with
    its players and pools, and leaves the other channels alone. *)
Theorem createGame_fresh_or_conflict
    (now : Z) (rnd : Q) (channel space : string) (m : GameManager) :
  (createGame now rnd channel space m = None
   <-> exists e, games m !! channel = Some e /\ state e = active)
  /\ forall m' g,
       createGame now rnd channel space m = Some (m', g) ->
       getGame channel m' = Some g
       /\ state g = waiting /\ players g = [] /\ alivePlayers g = []
       /\ poolA g = 0 /\ poolB g = 0 /\ houseRake g = 0
       /\ gunChamber g = Num 0
       /\ bulletChamber g = randomBulletPosition rnd
       /\ channelId g = channel
       /\ config m' = config m
       /\ forall other, other <> channel ->
                        getGame other m' = getGame other m.
Proof.
  unfold createGame, getGame. split.
  - destruct (games m !! channel) as [e |] eqn:He.
    + destruct (GameState_eqb (state e) active) eqn:Hs.
      * split; [intros _ | done]. exists e. split; [done |].
        by apply GameState_eqb_eq.
      * split; [done |]. intros (e' & [= <-] & Hact).
        apply GameState_eqb_neq in Hs. done.
    + split; [done |]. by intros (e' & ? & _).
  - intros m' g.
    destruct (match games m !! channel with
              | Some e => GameState_eqb (state e) active
              | None => false
              end); [done |].
    intros [= <- <-]. cbn. split; [apply lookup_insert_eq |].
    split_and!; try done.
    intros other Hne. by apply lookup_insert_ne.
Qed.

(** X3. [addPlayer] succeeds exactly when the channel holds a waiting
    game, no joined player has this very [userId], and the table has room;
    when it fails the registry is the one it was given and no game is
    returned. *)
Theorem addPlayer_succeeds_iff
    (channel user name : string) (amount : Z) (m : GameManager) :
  (success (snd (addPlayer channel user name amount m)) = true
   <-> exists g, games m !! channel = Some g
                 /\ state g = waiting
                 /\ alreadyJoined user g = false
                 /\ Z.of_nat (length (players g)) < maxPlayers (config m))
  /\ (success (snd (addPlayer channel user name amount m)) = false ->
      fst (addPlayer channel user name amount m) = m
      /\ game (snd (addPlayer channel user name amount m)) = None).
Proof.
  rewrite addPlayer_unfold.
  destruct (games m !! channel) as [g |] eqn:Hg.
  2:{ cbn. split; [| done]. split; [done |]. by intros (g & ? & _). }
  destruct (GameState_eqb (state g) waiting) eqn:Hs; cbn.
  2:{ split; [| done]. split; [done |]. intros (g' & [= <-] & Hw & _).
      apply GameState_eqb_neq in Hs. done. }
  apply GameState_eqb_eq in Hs.
  destruct (alreadyJoined user g) eqn:Hdup; cbn.
  { split; [| done]. split; [done |]. intros (g' & [= <-] & _ & Hd & _).
    congruence. }
  destruct (Z.leb_spec (maxPlayers (config m)) (Z.of_nat (length (players g))));
    cbn.
  { split; [| done]. split; [done |]. intros (g' & [= <-] & _ & _ & Hlt). lia. }
  split; [| done]. split; [| done]. intros _. by exists g.
Qed.

(** X4. A successful [addPlayer] books the whole entry: [poolA +
    houseRake] grows by the amount tipped, [poolB] is untouched, the game
    stays waiting, and one alive player with that identity and entry is
    appended to [players] and [alivePlayers]. *)
Theorem addPlayer_books_the_entry
    (channel user name : string) (amount : Z) (m : GameManager) (g : Game) :
  games m !! channel = Some g ->
  success (snd (addPlayer channel user name amount m)) = true ->
  exists g' r,
    games (fst (addPlayer channel user name amount m)) !! channel = Some g'
    /\ game (snd (addPlayer channel user name amount m)) = Some g'
    /\ poolA g' + houseRake g' = poolA g + houseRake g + amount
    /\ poolB g' = poolB g
    /\ state g' = waiting
    /\ players g' = players g ++ [r]
    /\ alivePlayers g' = alivePlayers g ++ [r]
    /\ deref g' r = Some (mkPlayer user name true amount).
Proof.
  intros Hg. rewrite addPlayer_unfold, Hg.
  destruct (GameState_eqb (state g) waiting) eqn:Hs; cbn; [| done].
  apply GameState_eqb_eq in Hs.
  destruct (alreadyJoined user g); cbn; [done |].
  destruct (_ <=? _); cbn; [done |]. intros _.
  eexists. exists (length (playerObjs g)).
  split; [apply lookup_insert_eq |]. split; [reflexivity |]. cbn.
  split; [lia |]. split_and!; try done.
  unfold deref. cbn. by rewrite list_lookup_middle.
Qed.

Lemma addPlayer_books_the_entry_witness :
  let m := reached DEFAULT_CONFIG [CreateGame 0 (0 # 1) lobby "town"] in
  exists g',
    games (fst (addPlayer lobby "0xa1" "ann" 1005 m)) !! lobby = Some g'
    /\ poolA g' + houseRake g' = 1005.
Proof.
  intros m. pick_game m lobby g Hg Hgame.
  destruct (addPlayer_books_the_entry lobby "0xa1" "ann" 1005 m g Hg)
    as (g' & r & Hreg & _ & Hsum & _).
  - by vm_compute.
  - exists g'. split; [exact Hreg |]. rewrite Hsum, Hgame. reflexivity.
Defined.

(** X5. [startGame] succeeds exactly when the channel holds a game that is
    not active and has at least [minPlayers] players. It then makes the
    game active with the turn at index 0, clears the counters and the
    forced-shoot flag, reloads the gun, and changes neither the players
    nor the pools; when it fails the registry is the one it was given. *)
Theorem startGame_succeeds_iff
    (rnd : Q) (channel : string) (m : GameManager) :
  (success (snd (startGame rnd channel m)) = true
   <-> exists g, games m !! channel = Some g
                 /\ state g <> active
                 /\ minPlayers (config m) <= Z.of_nat (length (players g)))
  /\ (success (snd (startGame rnd channel m)) = false ->
      fst (startGame rnd channel m) = m)
  /\ forall g,
       games m !! channel = Some g ->
       success (snd (startGame rnd channel m)) = true ->
       exists g',
         games (fst (startGame rnd channel m)) !! channel = Some g'
         /\ game (snd (startGame rnd channel m)) = Some g'
         /\ state g' = active /\ currentTurnIndex g' = 0
         /\ consecutivePasses g' = 0 /\ forcedShoot g' = false
         /\ consecutiveSafeShots g' = 0 /\ lastDeathTime g' = None
         /\ gunChamber g' = Num 0
         /\ bulletChamber g' = randomBulletPosition rnd
         /\ playerObjs g' = playerObjs g /\ players g' = players g
         /\ alivePlayers g' = alivePlayers g
         /\ poolA g' = poolA g /\ poolB g' = poolB g
         /\ houseRake g' = houseRake g.
Proof.
  rewrite startGame_unfold.
  destruct (games m !! channel) as [g |] eqn:Hg.
  2:{ cbn. split; [| done]. split; [done |]. by intros (g & ? & _). }
  destruct (GameState_eqb (state g) active) eqn:Hs; cbn.
  { apply GameState_eqb_eq in Hs. split; [| done].
    split; [done |]. by intros (g' & [= <-] & Hna & _). }
  apply GameState_eqb_neq in Hs.
  destruct (Z.ltb_spec (Z.of_nat (length (players g))) (minPlayers (config m)));
    cbn.
  { split; [| done]. split; [done |]. intros (g' & [= <-] & _ & Hmin). lia. }
  split; [| split; [done |]].
  - split; [| done]. intros _. exists g. split_and!; (done || lia).
  - intros g0 [= <-] _. exists (started rnd g).
    split; [apply lookup_insert_eq |]. by split_and!.
Qed.

(** ** Further properties of handleAction *)

Section Calls.

Variables (cfg : GameConfig) (now : Z) (rnd : Q).

(** The three ways a call goes once the game is resolved: refused, an
    exception out of the shot, or a branch followed by the common end. *)
Lemma takeTurn_shape user action g :
  let t := takeTurn cfg now rnd user action g in
  (exists msg, t = mkTurn g false (Some (failure msg)) [])
  \/ (exists r p g1,
        holdsTurn g r p user /\ action = shoot
        /\ shootBranch cfg now rnd user r (set_turnTimer None g) = inl g1
        /\ t = mkTurn g1 false None [])
  \/ (exists r p b,
        holdsTurn g r p user
        /\ match action with
           | pass => forcedShoot g = false
                     /\ b = passBranch cfg (set_turnTimer None g)
           | shoot => shootBranch cfg now rnd user r (set_turnTimer None g)
                      = inr b
           end
        /\ t = finishTurn cfg now b).
Proof.
  unfold takeTurn.
  destruct (GameState_eqb (state g) active) eqn:Hs; cbn; [| left; by eexists].
  apply GameState_eqb_eq in Hs.
  destruct (currentPlayerRef g) as [r |] eqn:Hr; cbn; [| left; by eexists].
  destruct (deref g r) as [p |] eqn:Hp; cbn; [| left; by eexists].
  destruct (String.eqb_spec (toLowerCase (userId p)) (toLowerCase user))
    as [Hid |]; cbn; [| left; by eexists].
  destruct (isAlive p) eqn:Ha; cbn; [| left; by eexists].
  assert (Hturn : holdsTurn g r p user) by (by repeat split).
  destruct action.
  - destruct (shootBranch _ _ _ _ _ _) as [g1 | b] eqn:Hb.
    + right. left. by exists r, p, g1.
    + right. right. by exists r, p, b.
  - destruct (forcedShoot g) eqn:Hf; [left; by eexists |].
    right. right. by exists r, p, (passBranch cfg (set_turnTimer None g)).
Qed.

(** The common end moves the index or the state and nothing else. *)
Lemma finishTurn_frame b :
  let g := b_game b in
  let g' := t_game (finishTurn cfg now b) in
  playerObjs g' = playerObjs g /\ players g' = players g
  /\ alivePlayers g' = alivePlayers g
  /\ poolA g' = poolA g /\ poolB g' = poolB g /\ houseRake g' = houseRake g
  /\ gunChamber g' = gunChamber g /\ bulletChamber g' = bulletChamber g
  /\ consecutiveSafeShots g' = consecutiveSafeShots g
  /\ channelId g' = channelId g /\ createdAt g' = createdAt g
  /\ (state g' = state g \/ state g' = finished).
Proof.
  unfold finishTurn. destruct (_ && _).
  - destruct (bigintDiv _ _); cbn; split_and!; (done || by right).
  - cbn. destruct (GameState_eqb _ _); [| split_and!; (done || by left)].
    destruct (negb _); [| split_and!; (done || by left)].
    unfold advanceTurn. destruct (Nat.eqb _ _); cbn;
      split_and!; (done || by left).
Qed.

Lemma finishTurn_notified b x :
  x ∈ t_notified (finishTurn cfg now b) ->
  x.1 = t_game (finishTurn cfg now b).
Proof.
  unfold finishTurn. destruct (_ && _).
  - destruct (bigintDiv _ _); cbn; [| by intros ?%elem_of_nil].
    by intros ->%list_elem_of_singleton.
  - cbn. by intros ->%list_elem_of_singleton.
Qed.

Lemma takeTurn_notified user action g x :
  x ∈ t_notified (takeTurn cfg now rnd user action g) ->
  x.1 = t_game (takeTurn cfg now rnd user action g).
Proof.
  destruct (takeTurn_shape user action g)
    as [(msg & ->) | [(r & p & g1 & _ & _ & _ & ->) | (r & p & b & _ & _ & ->)]];
    cbn; try by intros ?%elem_of_nil.
  apply finishTurn_notified.
Qed.

(** The shot: the table and the money after it. *)
Lemma shootBranch_steps user g r p :
  currentPlayerRef g = Some r -> deref g r = Some p ->
  let g1 := match shootBranch cfg now rnd user r g with
            | inl g1 => g1
            | inr b => b_game b
            end in
  tableStep g g1 /\ moneyStep cfg shoot g g1
  /\ channelId g1 = channelId g /\ createdAt g1 = createdAt g.
Proof.
  intros Hr Hp. unfold shootBranch. cbn.
  change (checkChamber _) with (checkChamber g).
  destruct (checkChamber g) eqn:Hhit.
  - erewrite (filter_killed g) by (exact Hp || reflexivity).
    fold (othersAlive g r).
    assert (Hstep : forall g1,
               players g1 = players g ->
               playerObjs g1 = alter kill r (playerObjs g) ->
               alivePlayers g1 = othersAlive g r ->
               tableStep g g1).
    { intros g1 H1 H2 H3. split; [done |]. right. by exists r, p. }
    destruct (_ <=? _); cbn;
      (destruct (Nat.eqb _ 1); [destruct (_ ≫= _) |]); cbn;
      (split; [by apply Hstep |]); (split; [| done]);
      (split; [done |]); by left.
  - destruct (_ <=? _).
    + destruct (bigintDiv _ _); cbn;
        (split; [split; [done |]; by left |]); (split; [| done]);
        (split; [done |]); by left.
    + cbn. destruct (Z.leb_spec (bonusFromB cfg) (poolB g)); cbn;
        (split; [split; [done |]; by left |]); (split; [| done]);
        (split; [done |]); [by right | by left].
Qed.

Lemma passBranch_steps g :
  let g1 := b_game (passBranch cfg g) in
  tableStep g g1 /\ moneyStep cfg pass g g1
  /\ channelId g1 = channelId g /\ createdAt g1 = createdAt g.
Proof.
  unfold passBranch. cbn. destruct (_ <=? _); cbn;
    (split; [split; [done |]; by left |]); (split; [| done]);
    (split; [done |]); (split; [done |]); by right.
Qed.

Lemma tableStep_timer g g' :
  tableStep (set_turnTimer None g) g' -> tableStep g g'.
Proof. done. Qed.

Lemma moneyStep_timer action g g' :
  moneyStep cfg action (set_turnTimer None g) g' -> moneyStep cfg action g g'.
Proof. by destruct action. Qed.

(** Every call, whatever its outcome, steps the table and the money by
    the rules and keeps the channel and the creation time. *)
Lemma takeTurn_steps user action g :
  let g' := t_game (takeTurn cfg now rnd user action g) in
  tableStep g g' /\ moneyStep cfg action g g'
  /\ channelId g' = channelId g /\ createdAt g' = createdAt g.
Proof.
  assert (Hrefl : tableStep g g) by (split; [done |]; by left).
  assert (Hmoney : moneyStep cfg action g g).
  { split; [done |]. destruct action; [by left | split; [done | by left]]. }
  destruct (takeTurn_shape user action g)
    as [(msg & ->) | [(r & p & g1 & Hturn & -> & Hb & ->)
                     | (r & p & b & Hturn & Hb & ->)]]; cbn; [done | |].
  - destruct Hturn as (_ & Hr & Hp & _).
    pose proof (shootBranch_steps user (set_turnTimer None g) r p Hr Hp) as H.
    rewrite Hb in H. exact H.
  - destruct Hturn as (_ & Hr & Hp & _).
    destruct (finishTurn_frame b)
      as (Ho & Hpl & Hal & Ha & Hb' & Hh & _ & _ & _ & Hc & Hcr & _).
    assert (Hbase : tableStep g (b_game b) /\ moneyStep cfg action g (b_game b)
                    /\ channelId (b_game b) = channelId g
                    /\ createdAt (b_game b) = createdAt g).
    { destruct action.
      - pose proof (shootBranch_steps user (set_turnTimer None g) r p Hr Hp) as H.
        by rewrite Hb in H.
      - destruct Hb as [_ ->].
        exact (passBranch_steps (set_turnTimer None g)). }
    destruct Hbase as (Ht & Hm & Hc0 & Hcr0).
    unfold tableStep, moneyStep in *. rewrite Ho, Hpl, Hal, Ha, Hb', Hh, Hc, Hcr.
    done.
Qed.

End Calls.

(** The game of the channel after a call is the one the call worked on. *)
Lemma handleAction_seenAfter now rnd channel user action m g g' :
  games m !! channel = Some g ->
  seenAfter (handleAction now rnd channel user action m) channel g' ->
  g' = t_game (takeTurn (config m) now rnd user action g).
Proof.
  intros Hg. unfold seenAfter, handleAction. rewrite Hg. cbn.
  intros [Hreg | [msg Hmsg]].
  - destruct (t_deleted _).
    + by rewrite lookup_delete_eq in Hreg.
    + rewrite lookup_insert_eq in Hreg. by injection Hreg.
  - exact (takeTurn_notified _ _ _ _ _ _ (g', msg) Hmsg).
Qed.

Lemma registry_write_back (channel : string) (m : GameManager) (g : Game) :
  games m !! channel = Some g ->
  mkManager (<[channel := g]> (games m)) (insertionOrder m) (config m) = m.
Proof. intros Hg. rewrite (insert_id _ _ _ Hg). by destruct m. Qed.

(** X6. A call of [handleAction] that returns a failure has changed
    nothing: the registry is the one it was given and [onAction] was not
    called. *)
Theorem handleAction_failure_changes_nothing
    (now : Z) (rnd : Q) (channel user : string) (action : Action)
    (m : GameManager) (res : Result) :
  r_result (handleAction now rnd channel user action m) = Some res ->
  success res = false ->
  r_manager (handleAction now rnd channel user action m) = m
  /\ r_notified (handleAction now rnd channel user action m) = [].
Proof.
  unfold handleAction.
  destruct (games m !! channel) as [g |] eqn:Hg; [| done]. cbn.
  destruct (takeTurn_shape (config m) now rnd user action g)
    as [(msg & ->) | [(r & p & g1 & _ & _ & _ & ->) | (r & p & b & _ & _ & ->)]];
    cbn.
  - intros _ _. split; [by apply registry_write_back | done].
  - done.
  - intros Hres Hfail.
    destruct (finishTurn_flags _ _ _ _ Hres) as [Hok _]. congruence.
Qed.

Lemma handleAction_failure_changes_nothing_witness :
  let m := reached DEFAULT_CONFIG duel in
  r_manager (handleAction 5 (0 # 1) lobby "0xb2" shoot m) = m
  /\ r_notified (handleAction 5 (0 # 1) lobby "0xb2" shoot m) = [].
Proof.
  intros m.
  apply (handleAction_failure_changes_nothing 5 (0 # 1) lobby "0xb2" shoot m
           (failure (NotYourTurn "0xa1"))); by vm_compute.
Defined.

(** X7. While a game is active, an action by an identity that is not the
    [userId] of the player at the turn index, letter case apart, is
    refused with the not-your-turn message naming that player, and changes
    nothing; so is any action when no player sits at the turn index. The
    two identities are strings of ASCII characters. *)
Theorem handleAction_out_of_turn
    (now : Z) (rnd : Q) (channel user : string) (action : Action)
    (m : GameManager) (g : Game) :
  games m !! channel = Some g ->
  state g = active ->
  match currentPlayerRef g ≫= deref g with
  | Some p => isAscii (userId p) = true /\ isAscii user = true
              /\ toLowerCase (userId p) <> toLowerCase user
  | None => True
  end ->
  handleAction now rnd channel user action m
  = mkRun m
      (Some (failure
               (NotYourTurn
                  match currentPlayerRef g ≫= deref g with
                  | Some p => if String.eqb (userId p) "" then "none"
                              else userId p
                  | None => "none"
                  end))) [].
Proof.
  intros Hg Hs Hother. eapply handleAction_rejected; [exact Hg |].
  unfold takeTurn. rewrite Hs. cbn.
  destruct (currentPlayerRef g) as [r |]; cbn in *; [| done].
  destruct (deref g r) as [p |]; cbn in *; [| done].
  destruct Hother as (_ & _ & Hother).
  by destruct (String.eqb_spec (toLowerCase (userId p)) (toLowerCase user)).
Qed.

Lemma handleAction_out_of_turn_witness :
  let m := reached DEFAULT_CONFIG duel in
  handleAction 5 (0 # 1) lobby "0xb2" pass m
  = mkRun m (Some (failure (NotYourTurn "0xa1"))) [].
Proof.
  intros m. pick_game m lobby g Hg Hgame.
  rewrite (handleAction_out_of_turn 5 (0 # 1) lobby "0xb2" pass m g Hg).
  - rewrite Hgame. reflexivity.
  - rewrite Hgame. reflexivity.
  - rewrite Hgame. cbn. split; [reflexivity |]. split; [reflexivity |].
    discriminate.
Defined.

(** X8. A pass by the turn-holder, when no shot is forced and the
    duration ceiling is not reached, adds [passPenalty] to [poolB] and one
    to [consecutivePasses], moves the turn to the next alive player in the
    rotation, and leaves [poolA], the gun, the players and the safe-shot
    counter as they were; the game stays active in the registry. *)
Theorem pass_effect
    (now : Z) (rnd : Q) (channel user : string) (m : GameManager)
    (g : Game) (r : ref) (p : Player) :
  games m !! channel = Some g ->
  holdsTurn g r p user ->
  forcedShoot g = false ->
  now - createdAt g < maxGameDurationMinutes (config m) * 60000 ->
  let run := handleAction now rnd channel user pass m in
  let n := Z.of_nat (length (alivePlayers g)) in
  exists g' full,
    games (r_manager run) !! channel = Some g'
    /\ r_notified run
       = [(g', Passed (poolA g) (poolB g + passPenalty (config m)) full)]
    /\ r_result run
       = Some {| success := true;
                 message := Passed (poolA g) (poolB g + passPenalty (config m)) full;
                 game := None |}
    /\ poolB g' = poolB g + passPenalty (config m)
    /\ poolA g' = poolA g
    /\ consecutivePasses g' = consecutivePasses g + 1
    /\ currentTurnIndex g' = (currentTurnIndex g + 1) mod n
    /\ state g' = active
    /\ gunChamber g' = gunChamber g /\ bulletChamber g' = bulletChamber g
    /\ alivePlayers g' = alivePlayers g /\ playerObjs g' = playerObjs g
    /\ consecutiveSafeShots g' = consecutiveSafeShots g.
Proof.
  intros Hg Hturn Hf Hdur run n.
  destruct (holdsTurn_nonempty _ _ _ _ Hturn) as [Hne _].
  pose proof Hturn as (Hs & Hr & _).
  assert (Hi : 0 <= currentTurnIndex g).
  { unfold currentPlayerRef in Hr.
    destruct (Z.ltb_spec (currentTurnIndex g) 0); [done | lia]. }
  assert (Hn : 0 < n) by (subst n; destruct (alivePlayers g); [done | cbn; lia]).
  subst run. unfold handleAction. rewrite Hg.
  rewrite (takeTurn_holder _ _ _ _ _ _ _ _ Hturn), Hf.
  unfold finishTurn, passBranch, advanceTurn. cbn.
  assert (E0 : Nat.eqb (length (alivePlayers g)) 0 = false).
  { apply Nat.eqb_neq. by destruct (alivePlayers g). }
  assert (Edur : (maxGameDurationMinutes (config m) * 60000
                  <=? now - createdAt g) = false) by (apply Z.leb_gt; lia).
  fold n.
  destruct (n <=? consecutivePasses g + 1) eqn:Efull; cbn;
    rewrite Hs; cbn; rewrite Edur, E0; cbn;
    eexists; eexists; (split; [apply lookup_insert_eq |]);
    (split; [reflexivity |]); (split; [reflexivity |]);
    split_and!; try done; fold n; apply Z.rem_mod_nonneg; lia.
Qed.

Lemma pass_effect_witness :
  let m := reached DEFAULT_CONFIG duel in
  exists g',
    games (r_manager (handleAction 5 (0 # 1) lobby "0xa1" pass m)) !! lobby
    = Some g'
    /\ poolB g' = 150000000000000 /\ poolA g' = 1800
    /\ currentTurnIndex g' = 1.
Proof.
  intros m. pick_game m lobby g Hg Hgame.
  destruct (pass_effect 5 (0 # 1) lobby "0xa1" m g 0%nat
              (mkPlayer "0xa1" "ann" true 1000) Hg)
    as (g' & full & Hreg & _ & _ & Hb & Ha & _ & Hi & _).
  - rewrite Hgame. by repeat split.
  - rewrite Hgame. reflexivity.
  - rewrite Hgame. by vm_compute.
  - exists g'. split; [exact Hreg |].
    rewrite Hb, Ha, Hi, Hgame. vm_compute. repeat split.
Defined.

(** The common end when the game goes on: the turn advances and the
    branch message is sent once. *)
Lemma finishTurn_continue cfg now b :
  state (b_game b) = active ->
  b_playerDied b = false ->
  now - createdAt (b_game b) < maxGameDurationMinutes cfg * 60000 ->
  finishTurn cfg now b
  = mkTurn (advanceTurn (b_game b)) (b_deleted b)
      (Some {| success := true; message := b_message b; game := None |})
      [(advanceTurn (b_game b), b_message b)].
Proof.
  intros Hs Hd Hdur. unfold finishTurn. rewrite Hs, Hd. cbn.
  assert (E : (maxGameDurationMinutes cfg * 60000
               <=? now - createdAt (b_game b)) = false) by (apply Z.leb_gt; lia).
  by rewrite E.
Qed.

Lemma advanceTurn_fields g :
  alivePlayers g <> [] -> 0 <= currentTurnIndex g ->
  currentTurnIndex (advanceTurn g)
  = (currentTurnIndex g + 1) mod Z.of_nat (length (alivePlayers g))
  /\ state (advanceTurn g) = state g
  /\ playerObjs (advanceTurn g) = playerObjs g
  /\ players (advanceTurn g) = players g
  /\ alivePlayers (advanceTurn g) = alivePlayers g
  /\ poolA (advanceTurn g) = poolA g /\ poolB (advanceTurn g) = poolB g
  /\ gunChamber (advanceTurn g) = gunChamber g
  /\ bulletChamber (advanceTurn g) = bulletChamber g
  /\ consecutivePasses (advanceTurn g) = consecutivePasses g
  /\ forcedShoot (advanceTurn g) = forcedShoot g
  /\ consecutiveSafeShots (advanceTurn g) = consecutiveSafeShots g.
Proof.
  intros Hne Hi. unfold advanceTurn.
  destruct (alivePlayers g) as [| a l] eqn:E; [done |].
  cbn [length Nat.eqb]. cbn. rewrite E. split_and!; try done.
  apply Z.rem_mod_nonneg; lia.
Qed.

(** The safe shot below the ceiling, as a branch. *)
Lemma shootBranch_safe cfg now rnd user r g :
  checkChamber g = false ->
  consecutiveSafeShots g + 1 < maxSafeShots cfg ->
  let bonus := bonusFromB cfg <=? poolB g in
  exists b,
    shootBranch cfg now rnd user r g = inr b
    /\ b_playerDied b = false /\ b_deleted b = false
    /\ b_message b = Safe bonus (poolA (b_game b)) (poolB (b_game b))
    /\ poolA (b_game b) = (if bonus then poolA g + bonusFromB cfg else poolA g)
    /\ poolB (b_game b) = (if bonus then poolB g - bonusFromB cfg else poolB g)
    /\ consecutiveSafeShots (b_game b) = consecutiveSafeShots g + 1
    /\ consecutivePasses (b_game b) = 0 /\ forcedShoot (b_game b) = false
    /\ currentTurnIndex (b_game b) = currentTurnIndex g
    /\ state (b_game b) = state g /\ createdAt (b_game b) = createdAt g
    /\ gunChamber (b_game b) = NaN /\ bulletChamber (b_game b) = bulletChamber g
    /\ alivePlayers (b_game b) = alivePlayers g
    /\ playerObjs (b_game b) = playerObjs g.
Proof.
  intros Hsafe Hmax bonus.
  assert (Emax : (maxSafeShots cfg <=? consecutiveSafeShots g + 1) = false)
    by (apply Z.leb_gt; lia).
  unfold shootBranch.
  cbn [consecutiveSafeShots poolB set_consecutiveSafeShots set_forcedShoot
       set_consecutivePasses].
  change (checkChamber _) with (checkChamber g). rewrite Hsafe, Emax.
  fold bonus. destruct bonus; eexists; (split; [reflexivity |]); cbn;
    split_and!; try done; by destruct (add (gunChamber g) (Num 1)).
Qed.

(** X9. A safe shot by the turn-holder below the safe-shot ceiling and the
    duration ceiling counts one more safe shot, moves [bonusFromB] from
    [poolB] to [poolA] when [poolB] holds that much and nothing otherwise,
    moves the turn to the next alive player, and leaves the chamber
    position at [NaN]; the players and the bullet are untouched. *)
Theorem safe_shot_effect
    (now : Z) (rnd : Q) (channel user : string) (m : GameManager)
    (g : Game) (r : ref) (p : Player) :
  games m !! channel = Some g ->
  holdsTurn g r p user ->
  checkChamber g = false ->
  consecutiveSafeShots g + 1 < maxSafeShots (config m) ->
  now - createdAt g < maxGameDurationMinutes (config m) * 60000 ->
  let run := handleAction now rnd channel user shoot m in
  let n := Z.of_nat (length (alivePlayers g)) in
  let bonus := bonusFromB (config m) <=? poolB g in
  exists g',
    games (r_manager run) !! channel = Some g'
    /\ r_notified run = [(g', Safe bonus (poolA g') (poolB g'))]
    /\ r_result run
       = Some {| success := true;
                 message := Safe bonus (poolA g') (poolB g');
                 game := None |}
    /\ poolA g' = (if bonus then poolA g + bonusFromB (config m) else poolA g)
    /\ poolB g' = (if bonus then poolB g - bonusFromB (config m) else poolB g)
    /\ consecutiveSafeShots g' = consecutiveSafeShots g + 1
    /\ consecutivePasses g' = 0 /\ forcedShoot g' = false
    /\ currentTurnIndex g' = (currentTurnIndex g + 1) mod n
    /\ state g' = active
    /\ gunChamber g' = NaN /\ bulletChamber g' = bulletChamber g
    /\ alivePlayers g' = alivePlayers g /\ playerObjs g' = playerObjs g.
Proof.
  intros Hg Hturn Hsafe Hmax Hdur run n bonus.
  destruct (holdsTurn_nonempty _ _ _ _ Hturn) as [Hne _].
  pose proof Hturn as (Hs & Hr & _).
  assert (Hi : 0 <= currentTurnIndex g).
  { unfold currentPlayerRef in Hr.
    destruct (Z.ltb_spec (currentTurnIndex g) 0); [done | lia]. }
  destruct (shootBranch_safe (config m) now rnd user r (set_turnTimer None g)
              Hsafe Hmax)
    as (b & Hb & Hdied & Hdel & Hmsg & Ha & Hpb & Hcss & Hcp & Hfs & Hidx
        & Hst & Hcr & Hgun & Hbul & Hal & Hobj).
  cbn in Ha, Hpb, Hcss, Hidx, Hst, Hcr, Hbul, Hal, Hobj. fold bonus in Ha, Hpb.
  assert (Hne' : alivePlayers (b_game b) <> []) by (by rewrite Hal).
  assert (Hi' : 0 <= currentTurnIndex (b_game b)) by (by rewrite Hidx).
  destruct (advanceTurn_fields (b_game b) Hne' Hi')
    as (Ti & Ts & To & _ & Tal & Ta & Tb & Tg & Tbu & Tcp & Tfs & Tcss).
  subst run. unfold handleAction. rewrite Hg.
  rewrite (takeTurn_holder _ _ _ _ _ _ _ _ Hturn). cbn [negb].
  rewrite Hb, finishTurn_continue; [| by rewrite Hst | done | by rewrite Hcr].
  cbn [t_deleted t_game t_result t_notified r_manager r_result r_notified games].
  rewrite Hdel, Hmsg.
  exists (advanceTurn (b_game b)).
  split; [apply lookup_insert_eq |].
  rewrite Ta, Tb, Ti, Ts, To, Tal, Tg, Tbu, Tcp, Tfs, Tcss.
  rewrite Ha, Hpb, Hcss, Hcp, Hfs, Hidx, Hst, Hgun, Hbul, Hal, Hobj.
  fold bonus. fold n. by split_and!.
Qed.

Lemma safe_shot_effect_witness :
  let m := reached DEFAULT_CONFIG duelAfterPasses in
  exists g',
    games (r_manager (handleAction 30 (0 # 1) lobby "0xa1" shoot m)) !! lobby
    = Some g'
    /\ poolA g' = 150000000001800 /\ poolB g' = 150000000000000
    /\ gunChamber g' = NaN /\ currentTurnIndex g' = 1.
Proof.
  intros m. pick_game m lobby g Hg Hgame.
  destruct (safe_shot_effect 30 (0 # 1) lobby "0xa1" m g 0%nat
              (mkPlayer "0xa1" "ann" true 1000) Hg)
    as (g' & Hreg & _ & _ & Ha & Hb & _ & _ & _ & Hi & _ & Hgun & _).
  - rewrite Hgame. by repeat split.
  - rewrite Hgame. reflexivity.
  - rewrite Hgame. by vm_compute.
  - rewrite Hgame. by vm_compute.
  - exists g'. split; [exact Hreg |].
    rewrite Ha, Hb, Hi, Hgun, Hgame. vm_compute. repeat split.
Defined.

(** X10. When the duration ceiling is reached, a pass by the turn-holder
    is still charged to [poolB], but the game is then finished without a
    turn advance: [onAction] receives the duration message with a refund of
    [poolA] over the alive players, truncated, the call returns the
    duration-limit success, and the game leaves the registry. *)
Theorem duration_ceiling_after_pass
    (now : Z) (rnd : Q) (channel user : string) (m : GameManager)
    (g : Game) (r : ref) (p : Player) :
  games m !! channel = Some g ->
  holdsTurn g r p user ->
  forcedShoot g = false ->
  maxGameDurationMinutes (config m) * 60000 <= now - createdAt g ->
  let run := handleAction now rnd channel user pass m in
  let n := Z.of_nat (length (alivePlayers g)) in
  exists g',
    r_result run
    = Some {| success := true; message := DurationLimit; game := None |}
    /\ r_notified run
       = [(g', DurationExceeded (maxGameDurationMinutes (config m))
                 (mkRefund (Z.quot (poolA g) n) (userIds g (alivePlayers g))))]
    /\ games (r_manager run) !! channel = None
    /\ state g' = finished
    /\ poolB g' = poolB g + passPenalty (config m)
    /\ poolA g' = poolA g
    /\ currentTurnIndex g' = currentTurnIndex g
    /\ alivePlayers g' = alivePlayers g.
Proof.
  intros Hg Hturn Hf Hdur run n.
  destruct (holdsTurn_nonempty _ _ _ _ Hturn) as [Hne _].
  pose proof Hturn as (Hs & _).
  assert (En : (n =? 0) = false).
  { apply Z.eqb_neq. subst n. destruct (alivePlayers g); [done | cbn; lia]. }
  assert (Edur : (maxGameDurationMinutes (config m) * 60000
                  <=? now - createdAt g) = true) by (apply Z.leb_le; lia).
  subst run. unfold handleAction. rewrite Hg.
  rewrite (takeTurn_holder _ _ _ _ _ _ _ _ Hturn), Hf.
  unfold finishTurn, passBranch, bigintDiv. cbn. fold n.
  destruct (n <=? consecutivePasses g + 1); cbn;
    rewrite Hs; cbn; rewrite Edur; cbn; fold n; rewrite En; cbn;
    eexists; (split; [reflexivity |]); (split; [reflexivity |]);
    (split; [apply lookup_delete_eq |]); by split_and!.
Qed.

Lemma duration_ceiling_after_pass_witness :
  let m := reached DEFAULT_CONFIG duel in
  r_result (handleAction 1800000 (0 # 1) lobby "0xa1" pass m)
  = Some {| success := true; message := DurationLimit; game := None |}
  /\ games (r_manager (handleAction 1800000 (0 # 1) lobby "0xa1" pass m))
     !! lobby = None.
Proof.
  intros m. pick_game m lobby g Hg Hgame.
  destruct (duration_ceiling_after_pass 1800000 (0 # 1) lobby "0xa1" m g 0%nat
              (mkPlayer "0xa1" "ann" true 1000) Hg)
    as (g' & Hres & _ & Hgone & _).
  - rewrite Hgame. by repeat split.
  - rewrite Hgame. reflexivity.
  - rewrite Hgame. by vm_compute.
  - by split.
Defined.

(** X11. No call of [handleAction] adds, removes or reorders [players],
    revives a player or touches an identity or an entry: the alive list
    after the call is the one before, or the one before without the player
    at the turn when the chamber held the bullet. *)
Theorem handleAction_never_revives
    (now : Z) (rnd : Q) (channel user : string) (action : Action)
    (m : GameManager) (g g' : Game) :
  games m !! channel = Some g ->
  seenAfter (handleAction now rnd channel user action m) channel g' ->
  players g' = players g
  /\ (forall x, aliveRef g' x = true -> aliveRef g x = true)
  /\ (forall x, x ∈ alivePlayers g' -> x ∈ alivePlayers g)
  /\ (fun q => (userId q, displayName q, entryAmount q)) <$> playerObjs g'
     = (fun q => (userId q, displayName q, entryAmount q)) <$> playerObjs g.
Proof.
  intros Hg Hseen.
  rewrite (handleAction_seenAfter _ _ _ _ _ _ _ _ Hg Hseen).
  destruct (takeTurn_steps (config m) now rnd user action g)
    as ((Hpl & Htable) & _).
  split; [exact Hpl |].
  destruct Htable as [[Ho Hal] | (r & p & _ & Hp & _ & Ho & Hal)].
  - unfold aliveRef, deref. rewrite Ho, Hal. by split_and!.
  - split_and!.
    + intros x. rewrite (aliveRef_killed g _ r p x Hp Ho).
      by intros [? _]%andb_true_iff.
    + intros x. rewrite Hal. unfold othersAlive.
      rewrite !list_elem_of_In, filter_In. tauto.
    + rewrite Ho. apply list_eq. intros i.
      rewrite !list_lookup_fmap.
      destruct (decide (r = i)) as [-> | Hne].
      * rewrite list_lookup_alter_eq. by destruct (playerObjs g !! i).
      * by rewrite list_lookup_alter_ne.
Qed.

Lemma handleAction_never_revives_witness :
  let run := handleAction 5 (0 # 1) lobby "0xa1" shoot
               (reached DEFAULT_CONFIG loadedFour) in
  exists g',
    games (r_manager run) !! lobby = Some g'
    /\ players g' = [0; 1; 2; 3]%nat.
Proof.
  intros run. set (m := reached DEFAULT_CONFIG loadedFour) in *.
  pick_game m lobby g Hg Hgame.
  pick_game (r_manager run) lobby g' Hg' Hgame'.
  exists g'. split; [exact Hg' |].
  destruct (handleAction_never_revives 5 (0 # 1) lobby "0xa1" shoot m g g' Hg)
    as (Hpl & _).
  - by left.
  - rewrite Hpl, Hgame. reflexivity.
Defined.

(** X12. The money of a game moves by two rules only. A call with [pass]
    leaves [poolA] alone and adds nothing or [passPenalty] to [poolB]; a
    call with [shoot] leaves both pools alone or moves [bonusFromB] from
    [poolB], which held that much, to [poolA]; no call touches
    [houseRake]. *)
Theorem handleAction_moves_money_by_rule
    (now : Z) (rnd : Q) (channel user : string) (action : Action)
    (m : GameManager) (g g' : Game) :
  games m !! channel = Some g ->
  seenAfter (handleAction now rnd channel user action m) channel g' ->
  moneyStep (config m) action g g'.
Proof.
  intros Hg Hseen.
  rewrite (handleAction_seenAfter _ _ _ _ _ _ _ _ Hg Hseen).
  by destruct (takeTurn_steps (config m) now rnd user action g) as (_ & ? & _).
Qed.

Lemma handleAction_moves_money_by_rule_witness :
  let run := handleAction 30 (0 # 1) lobby "0xa1" shoot
               (reached DEFAULT_CONFIG duelAfterPasses) in
  exists g',
    games (r_manager run) !! lobby = Some g'
    /\ poolA g' + poolB g' = 300000000001800 /\ houseRake g' = 200.
Proof.
  intros run. set (m := reached DEFAULT_CONFIG duelAfterPasses) in *.
  pick_game m lobby g Hg Hgame.
  pick_game (r_manager run) lobby g' Hg' Hgame'.
  exists g'. split; [exact Hg' |].
  destruct (handleAction_moves_money_by_rule 30 (0 # 1) lobby "0xa1" shoot m
              g g' Hg) as (Hh & Hpools).
  - by left.
  - rewrite Hgame in Hh, Hpools. cbn in Hh, Hpools.
    split; [| exact Hh]. clear Hgame Hgame' Hg Hg'.
    destruct Hpools as [[-> ->] | (_ & -> & ->)]; reflexivity.
Defined.

Section DeadGun.

Variables (cfg : GameConfig) (now : Z) (rnd : Q).

Lemma shootBranch_miss_gun user r g :
  gunChamber g = NaN ->
  match shootBranch cfg now rnd user r g with
  | inl g1 => gunChamber g1 = NaN
  | inr b => gunChamber (b_game b) = NaN
  end.
Proof.
  intros Hgun. unfold shootBranch.
  cbn [consecutiveSafeShots poolB poolA alivePlayers set_consecutiveSafeShots
       set_forcedShoot set_consecutivePasses].
  change (checkChamber _) with (checkChamber g).
  rewrite (checkChamber_NaN g Hgun).
  destruct (_ <=? _).
  - by destruct (bigintDiv _ _).
  - destruct (_ <=? _); cbn; by destruct (add (gunChamber g) (Num 1)).
Qed.

Lemma takeTurn_dead_gun user action g :
  gunChamber g = NaN ->
  gunChamber (t_game (takeTurn cfg now rnd user action g)) = NaN.
Proof.
  intros Hgun.
  destruct (takeTurn_shape cfg now rnd user action g)
    as [(msg & ->) | [(r & p & g1 & _ & _ & Hb & ->) | (r & p & b & _ & Hb & ->)]];
    cbn [t_game]; [done | |].
  - pose proof (shootBranch_miss_gun user r (set_turnTimer None g) Hgun) as H.
    by rewrite Hb in H.
  - destruct (finishTurn_frame cfg now b) as (_ & _ & _ & _ & _ & _ & -> & _).
    destruct action.
    + pose proof (shootBranch_miss_gun user r (set_turnTimer None g) Hgun) as H.
      by rewrite Hb in H.
    + destruct Hb as [_ ->]. unfold passBranch. cbn. by destruct (_ <=? _).
Qed.

End DeadGun.

(** X13. Once the chamber position of a game is [NaN], no call of
    [handleAction] eliminates anybody: after any call the alive players
    and the player objects are the ones before, and the chamber position
    is still [NaN]. *)
Theorem dead_gun_never_kills
    (now : Z) (rnd : Q) (channel user : string) (action : Action)
    (m : GameManager) (g g' : Game) :
  games m !! channel = Some g ->
  gunChamber g = NaN ->
  seenAfter (handleAction now rnd channel user action m) channel g' ->
  alivePlayers g' = alivePlayers g
  /\ playerObjs g' = playerObjs g
  /\ gunChamber g' = NaN.
Proof.
  intros Hg Hgun Hseen.
  rewrite (handleAction_seenAfter _ _ _ _ _ _ _ _ Hg Hseen).
  split; [| split; [| by apply takeTurn_dead_gun]];
    destruct (takeTurn_steps (config m) now rnd user action g)
      as ((_ & [[Ho Hal] | (r & p & _ & _ & Hhit & _)]) & _); try done;
    by rewrite (checkChamber_NaN g Hgun) in Hhit.
Qed.

Lemma dead_gun_never_kills_witness :
  let m := reached DEFAULT_CONFIG
             (duel ++ [HandleAction 5 (0 # 1) lobby "0xa1" shoot]) in
  let run := handleAction 9 (0 # 1) lobby "0xb2" shoot m in
  exists g',
    games (r_manager run) !! lobby = Some g'
    /\ alivePlayers g' = [0; 1]%nat /\ gunChamber g' = NaN.
Proof.
  intros m run. pick_game m lobby g Hg Hgame.
  pick_game (r_manager run) lobby g' Hg' Hgame'.
  exists g'. split; [exact Hg' |].
  destruct (dead_gun_never_kills 9 (0 # 1) lobby "0xb2" shoot m g g' Hg)
    as (Hal & _ & Hgun).
  - rewrite Hgame. reflexivity.
  - by left.
  - split; [| exact Hgun]. rewrite Hal, Hgame. reflexivity.
Defined.

(** X14. [advanceTurn] rotates: from an index [i] inside [alivePlayers],
    [k] advances lead to index [(i + k) mod n] and leave the list
    untouched, so [n] advances come back to the index they started
    from. *)
Theorem advanceTurn_rotation (g : Game) (k : nat) :
  0 <= currentTurnIndex g < Z.of_nat (length (alivePlayers g)) ->
  let n := Z.of_nat (length (alivePlayers g)) in
  currentTurnIndex (Nat.iter k advanceTurn g)
  = (currentTurnIndex g + Z.of_nat k) mod n
  /\ alivePlayers (Nat.iter k advanceTurn g) = alivePlayers g
  /\ currentTurnIndex (Nat.iter (length (alivePlayers g)) advanceTurn g)
     = currentTurnIndex g.
Proof.
  intros Hi n.
  assert (Hne : alivePlayers g <> []).
  { intros E. rewrite E in Hi. cbn in Hi. lia. }
  assert (Hk : forall j,
             currentTurnIndex (Nat.iter j advanceTurn g)
             = (currentTurnIndex g + Z.of_nat j) mod n
             /\ alivePlayers (Nat.iter j advanceTurn g) = alivePlayers g).
  { induction j as [| j [IHi IHa]].
    - cbn. rewrite Z.add_0_r, Z.mod_small by (subst n; lia). done.
    - rewrite Nat.iter_succ.
      assert (Hne' : alivePlayers (Nat.iter j advanceTurn g) <> [])
        by (by rewrite IHa).
      assert (Hi' : 0 <= currentTurnIndex (Nat.iter j advanceTurn g)).
      { rewrite IHi. apply Z.mod_pos_bound. subst n. lia. }
      destruct (advanceTurn_fields _ Hne' Hi') as (Ti & _ & _ & _ & Ta & _).
      rewrite Ti, Ta, IHi, IHa. fold n. split; [| done].
      rewrite Zplus_mod_idemp_l. f_equal. lia. }
  split; [apply Hk |]. split; [apply Hk |].
  destruct (Hk (length (alivePlayers g))) as [-> _]. fold n.
  rewrite <- (Z.mul_1_l n) at 1. rewrite Z.mod_add by (subst n; lia).
  apply Z.mod_small. subst n. lia.
Qed.

Lemma advanceTurn_rotation_witness :
  exists g,
    games (reached DEFAULT_CONFIG loadedFour) !! lobby = Some g
    /\ currentTurnIndex (Nat.iter 6 advanceTurn g) = 2
    /\ currentTurnIndex (Nat.iter 4 advanceTurn g) = 0.
Proof.
  set (m := reached DEFAULT_CONFIG loadedFour).
  pick_game m lobby g Hg Hgame.
  exists g. split; [exact Hg |].
  assert (Hi : 0 <= currentTurnIndex g < Z.of_nat (length (alivePlayers g))).
  { rewrite Hgame. vm_compute. split; [discriminate | reflexivity]. }
  destruct (advanceTurn_rotation g 6 Hi) as (H6 & _ & Hn).
  split.
  - rewrite H6, Hgame. reflexivity.
  - replace 4%nat with (length (alivePlayers g)) by (rewrite Hgame; reflexivity).
    rewrite Hn, Hgame. reflexivity.
Defined.

Lemma advanceTurn_empty (g : Game) : alivePlayers g = [] -> advanceTurn g = g.
Proof. intros E. unfold advanceTurn. by rewrite E. Qed.

(** ** Further properties of stopGame, getStatus and the lookups *)

Lemma stopGame_absent channel m :
  games m !! channel = None -> stopGame channel m = (m, failure NoActiveGame).
Proof. intros Hg. unfold stopGame. by rewrite Hg. Qed.

Lemma stopGame_done channel m g :
  games m !! channel = Some g -> state g = finished ->
  stopGame channel m = (m, failure AlreadyFinished).
Proof. intros Hg Hs. unfold stopGame. by rewrite Hg, Hs. Qed.

Lemma stopGame_live channel m g :
  games m !! channel = Some g -> state g <> finished ->
  exists refund,
    stopGame channel m
    = (mkManager (delete channel (games m))
         (without channel (insertionOrder m)) (config m),
       {| success := true; message := Stopped refund;
          game := Some (set_state finished g) |}).
Proof.
  intros Hg Hs. unfold stopGame. rewrite Hg.
  apply GameState_eqb_neq in Hs. rewrite Hs. by eexists.
Qed.

(** X15. [stopGame] succeeds exactly when the channel holds a game that
    is not finished. It then removes the game from the registry and
    returns it finished with its players and pools as they were, so that
    the channel has no game left: a second [stopGame] and any [getGame]
    find nothing. When it fails the registry is unchanged. *)
Theorem stopGame_outcome (channel : string) (m : GameManager) :
  (success (snd (stopGame channel m)) = true
   <-> exists g, games m !! channel = Some g /\ state g <> finished)
  /\ (success (snd (stopGame channel m)) = false ->
      fst (stopGame channel m) = m)
  /\ forall g,
       games m !! channel = Some g ->
       success (snd (stopGame channel m)) = true ->
       getGame channel (fst (stopGame channel m)) = None
       /\ (forall other, other <> channel ->
             getGame other (fst (stopGame channel m)) = getGame other m)
       /\ snd (stopGame channel (fst (stopGame channel m)))
          = failure NoActiveGame
       /\ exists g',
            game (snd (stopGame channel m)) = Some g'
            /\ state g' = finished
            /\ playerObjs g' = playerObjs g /\ players g' = players g
            /\ alivePlayers g' = alivePlayers g
            /\ poolA g' = poolA g /\ poolB g' = poolB g
            /\ houseRake g' = houseRake g.
Proof.
  destruct (games m !! channel) as [g |] eqn:Hg.
  2:{ rewrite (stopGame_absent _ _ Hg). cbn. split; [| done].
      split; [done |]. by intros (g & ? & _). }
  destruct (GameState_eqb (state g) finished) eqn:Hs;
    [apply GameState_eqb_eq in Hs | apply GameState_eqb_neq in Hs].
  { rewrite (stopGame_done _ _ _ Hg Hs). cbn. split; [| done].
    split; [done |]. by intros (g' & [= <-] & Hnf). }
  destruct (stopGame_live _ _ _ Hg Hs) as [refund ->]. cbn.
  split; [| split; [done |]].
  - split; [| done]. intros _. by exists g.
  - intros g0 [= <-] _. unfold getGame. cbn.
    rewrite lookup_delete_eq. split; [done |].
    split; [intros other Hne; by apply lookup_delete_ne |].
    split; [by rewrite stopGame_absent by apply lookup_delete_eq |].
    eexists. split; [reflexivity |]. by split_and!.
Qed.

(** X16. [stopGame] never announces more than it holds. When it
    announces a refund, the amount for each is not negative and is either
    the truncated share of [poolA] among the alive players, or, in a
    waiting game where nobody is alive or [poolA] is not positive, the
    truncated share of [poolA + houseRake] among all the players; in both
    cases the shares add up to no more than the money shared, and fall
    short of it by less than one unit for each recipient. *)
Theorem stopGame_refund_within_pool
    (channel : string) (m : GameManager) (g : Game)
    (per : Z) (who : list string) :
  games m !! channel = Some g ->
  message (snd (stopGame channel m)) = Stopped (Some (mkRefund per who)) ->
  0 <= per
  /\ ((let n := Z.of_nat (length (alivePlayers g)) in
       who = userIds g (alivePlayers g) /\ 0 < n
       /\ n * per <= poolA g < n * per + n)
      \/ (let n := Z.of_nat (length (players g)) in
          who = userIds g (players g) /\ state g = waiting /\ 0 < n
          /\ (alivePlayers g = [] \/ poolA g <= 0)
          /\ n * per <= poolA g + houseRake g < n * per + n)).
Proof.
  intros Hg. unfold stopGame. rewrite Hg.
  destruct (GameState_eqb (state g) finished); [done |]. cbn.
  assert (Hshare : forall a n, 0 < n -> 0 < a ->
            0 <= Z.quot a n /\ n * Z.quot a n <= a < n * Z.quot a n + n).
  { intros a n Hn Ha. pose proof (Z.quot_rem' a n) as Hq.
    pose proof (Z.rem_bound_pos a n) as Hr.
    assert (0 <= Z.quot a n) by (apply Z.quot_pos; lia). lia. }
  destruct (Z.ltb_spec 0 (Z.of_nat (length (alivePlayers g)))) as [Hn | Hn];
    destruct (Z.ltb_spec 0 (poolA g)) as [Ha | Ha]; cbn.
  { intros [= <- <-]. destruct (Hshare _ _ Hn Ha) as [? ?].
    split; [done |]. left. cbv zeta. split_and!; (done || lia). }
  all: destruct (GameState_eqb (state g) waiting) eqn:Hs; [| done];
    apply GameState_eqb_eq in Hs;
    destruct (Z.ltb_spec 0 (Z.of_nat (length (players g)))) as [Hp | Hp];
    [| done];
    destruct (Z.ltb_spec 0 (poolA g + houseRake g)) as [Ht | Ht]; [| done];
    cbn; intros [= <- <-]; destruct (Hshare _ _ Hp Ht) as [? ?];
    (split; [done |]); right; cbv zeta; split_and!; try (done || lia).
  left. destruct (alivePlayers g); [done | cbn in Hn; lia].
Qed.

Lemma stopGame_refund_within_pool_witness :
  exists g,
    games (reached DEFAULT_CONFIG duel) !! lobby = Some g
    /\ 2 * 900 <= poolA g < 2 * 900 + 2.
Proof.
  set (m := reached DEFAULT_CONFIG duel). pick_game m lobby g Hg Hgame.
  exists g. split; [exact Hg |].
  destruct (stopGame_refund_within_pool lobby m g 900 ["0xa1"; "0xb2"] Hg)
    as [_ [(_ & _ & Hsum) | (_ & Hs & _)]].
  - vm_compute. reflexivity.
  - rewrite Hgame in Hsum. rewrite Hgame. cbn in Hsum. cbn. lia.
  - rewrite Hgame in Hs. discriminate Hs.
Defined.

Lemma toLowerCase_empty (s : string) : toLowerCase s = "" <-> s = "".
Proof. destruct s; cbn; split; (done || congruence). Qed.

(** X17. [getDeathProbability] is [NaN] for every game, and the status of
    an active game always prints the fall-back death chance '100': both
    subtract the chamber position from [game.chambers], which no game
    has. A channel without a game gets the no-game status. *)
Theorem status_death_chance_is_fallback (channel : string) (m : GameManager) :
  (forall game, getDeathProbability game = Num.NotANumber)
  /\ (games m !! channel = None -> getStatus channel m = StatusNoGame)
  /\ forall g,
       games m !! channel = Some g -> state g = active ->
       exists turn,
         getStatus channel m
         = StatusActive (length (alivePlayers g)) (length (players g))
             (poolA g) (poolB g) turn (add (gunChamber g) (Num 1)) Hundred
             (consecutiveSafeShots g) (maxSafeShots (config m)).
Proof.
  split; [| split].
  - intros game. unfold getDeathProbability, Game_chambers, ofUndefined. done.
  - intros Hg. unfold getStatus. by rewrite Hg.
  - intros g Hg Hs. unfold getStatus. rewrite Hg, Hs. cbn. by eexists.
Qed.

(** X18. A user name that is empty or all white space finds no game. *)
Theorem findGamesByUsername_blank (username : string) (m : GameManager) :
  Text.trim username = "" -> findGamesByUsername username m = [].
Proof.
  intros Hblank. unfold findGamesByUsername.
  destruct (String.eqb username ""); [done |].
  rewrite Hblank. reflexivity.
Qed.

Lemma findGamesByUsername_blank_witness :
  findGamesByUsername "   " (reached DEFAULT_CONFIG duel) = [].
Proof. apply findGamesByUsername_blank. reflexivity. Defined.

(** ** Every operation, game by game *)

Section Operations.

(** After an operation a channel holds the game it held, or the game the
    operation produced for its own channel; the configuration stays. *)
Lemma perform_cases op m key g' :
  games (fst (perform op m)) !! key = Some g' ->
  games m !! key = Some g' \/ producedBy op m key g'.
Proof.
  destruct op as [now rnd channel space | channel user name amount
                 | rnd channel | now rnd channel user action
                 | channel | channel]; cbn.
  - unfold createGame.
    destruct (match games m !! channel with
              | Some e => GameState_eqb (state e) active
              | None => false
              end); cbn; [by left |].
    destruct (decide (channel = key)) as [-> | Hne].
    + rewrite lookup_insert_eq. intros [= <-]. right. by split.
    + rewrite lookup_insert_ne by done. by left.
  - rewrite addPlayer_unfold.
    destruct (games m !! channel) as [g |] eqn:Hg; cbn; [| by left].
    destruct (GameState_eqb (state g) waiting) eqn:Hs; cbn; [| by left].
    apply GameState_eqb_eq in Hs.
    destruct (alreadyJoined user g) eqn:Hdup; cbn; [by left |].
    destruct (Z.leb_spec (maxPlayers (config m)) (Z.of_nat (length (players g))));
      cbn; [by left |].
    destruct (decide (channel = key)) as [-> | Hne].
    + rewrite lookup_insert_eq. intros [= <-]. right. split; [done |].
      by exists g.
    + rewrite lookup_insert_ne by done. by left.
  - rewrite startGame_unfold.
    destruct (games m !! channel) as [g |] eqn:Hg; cbn; [| by left].
    destruct (GameState_eqb (state g) active) eqn:Hs; cbn; [by left |].
    apply GameState_eqb_neq in Hs.
    destruct (Z.ltb_spec (Z.of_nat (length (players g))) (minPlayers (config m)));
      cbn; [by left |].
    destruct (decide (channel = key)) as [-> | Hne].
    + rewrite lookup_insert_eq. intros [= <-]. right. split; [done |].
      exists g. split_and!; (done || lia).
    + rewrite lookup_insert_ne by done. by left.
  - unfold handleAction.
    destruct (games m !! channel) as [g |] eqn:Hg; cbn; [| by left].
    destruct (decide (channel = key)) as [-> | Hne].
    + destruct (t_deleted _) eqn:Hdel.
      * by rewrite lookup_delete_eq.
      * rewrite lookup_insert_eq. intros [= <-]. right. split; [done |].
        by exists g.
    + destruct (t_deleted _);
        [rewrite lookup_delete_ne by done | rewrite lookup_insert_ne by done];
        by left.
  - destruct (games m !! channel) as [g |] eqn:Hg.
    + destruct (GameState_eqb (state g) finished) eqn:Hs.
      * rewrite (stopGame_done _ _ _ Hg) by (by apply GameState_eqb_eq).
        by left.
      * destruct (stopGame_live _ _ _ Hg) as [refund ->];
          [by apply GameState_eqb_neq |]. cbn.
        intros H. left. apply lookup_delete_Some in H. tauto.
    + rewrite (stopGame_absent _ _ Hg). by left.
  - intros H. left. apply lookup_delete_Some in H. tauto.
Qed.

Lemma perform_config op m : config (fst (perform op m)) = config m.
Proof.
  destruct op as [now rnd channel space | channel user name amount
                 | rnd channel | now rnd channel user action
                 | channel | channel]; cbn; try done.
  - unfold createGame. by destruct (match games m !! channel with
                                     | Some e => GameState_eqb (state e) active
                                     | None => false
                                     end).
  - rewrite addPlayer_unfold.
    destruct (games m !! channel) as [g |]; [| done].
    destruct (negb _); [done |]. destruct (alreadyJoined _ _); [done |].
    by destruct (_ <=? _).
  - rewrite startGame_unfold.
    destruct (games m !! channel) as [g |]; [| done].
    destruct (GameState_eqb _ _); [done |]. by destruct (_ <? _).
  - unfold handleAction. by destruct (games m !! channel).
  - unfold stopGame. destruct (games m !! channel) as [g |]; [| done].
    by destruct (GameState_eqb _ _).
Qed.

Lemma performAll_config ops m : config (fst (performAll ops m)) = config m.
Proof.
  revert m. induction ops as [| op ops IH]; intros m; [done |].
  cbn. pose proof (perform_config op m) as Hc.
  destruct (perform op m) as [m' seen]. cbn in Hc.
  specialize (IH m'). destruct (performAll ops m') as [m'' seen']. cbn in *.
  congruence.
Qed.

(** X20. An operation on one channel leaves the games of all other
    channels, and the configuration, as they were. *)
Theorem perform_other_channels (op : Op) (m : GameManager) (other : string) :
  other <> opChannel op ->
  games (fst (perform op m)) !! other = games m !! other
  /\ config (fst (perform op m)) = config m.
Proof.
  intros Hne. split; [| apply perform_config].
  destruct op as [now rnd channel space | channel user name amount
                 | rnd channel | now rnd channel user action
                 | channel | channel]; cbn in *.
  - unfold createGame. destruct (match games m !! channel with
                                  | Some e => GameState_eqb (state e) active
                                  | None => false
                                  end); cbn; [done |].
    by apply lookup_insert_ne.
  - rewrite addPlayer_unfold.
    destruct (games m !! channel) as [g |]; [| done].
    destruct (negb _); [done |]. destruct (alreadyJoined _ _); [done |].
    destruct (_ <=? _); [done |]. by apply lookup_insert_ne.
  - rewrite startGame_unfold.
    destruct (games m !! channel) as [g |]; [| done].
    destruct (GameState_eqb _ _); [done |]. destruct (_ <? _); [done |].
    by apply lookup_insert_ne.
  - unfold handleAction. destruct (games m !! channel) as [g |]; [| done]. cbn.
    destruct (t_deleted _); [by apply lookup_delete_ne | by apply lookup_insert_ne].
  - unfold stopGame. destruct (games m !! channel) as [g |]; [| done].
    destruct (GameState_eqb _ _); [done |]. by apply lookup_delete_ne.
  - by apply lookup_delete_ne.
Qed.

End Operations.

Lemma perform_other_channels_witness :
  games (fst (perform (StopGame "annex") (reached DEFAULT_CONFIG duel))) !! lobby
  = games (reached DEFAULT_CONFIG duel) !! lobby.
Proof.
  apply (perform_other_channels (StopGame "annex") (reached DEFAULT_CONFIG duel)
           lobby).
  discriminate.
Defined.

(** ** The books and the flow of every reachable game *)

Section Books.

Lemma sumOver_fmap f g :
  sumOver f g = foldr Z.add 0 (f <$> playerObjs g).
Proof.
  unfold sumOver. induction (playerObjs g) as [| p l IH]; [done |].
  cbn. by rewrite IH.
Qed.

Lemma fmap_alter_kill {B} (f : Player -> B) (r : nat) (l : list Player) :
  (forall p, f (kill p) = f p) -> f <$> alter kill r l = f <$> l.
Proof.
  intros Hf. apply list_eq. intros i. rewrite !list_lookup_fmap.
  destruct (decide (r = i)) as [-> | Hne].
  - rewrite list_lookup_alter_eq. destruct (l !! i); cbn; [| done].
    by rewrite Hf.
  - by rewrite list_lookup_alter_ne.
Qed.

Lemma omap_lookup_seq {B} (f : Player -> B) (pre l post : list Player) :
  omap (fun r => f <$> (pre ++ l ++ post) !! r) (seq (length pre) (length l))
  = f <$> l.
Proof.
  revert pre. induction l as [| a l IH]; intros pre; [done |].
  cbn. rewrite list_lookup_middle by done. cbn.
  f_equal. specialize (IH (pre ++ [a])).
  rewrite length_app, Nat.add_comm in IH. cbn [length Nat.add] in IH.
  rewrite <- (assoc_L (++) pre [a]) in IH. exact IH.
Qed.

Lemma userIds_seq g :
  players g = seq 0 (length (playerObjs g)) ->
  userIds g (players g) = userId <$> playerObjs g.
Proof.
  intros ->. unfold userIds, deref.
  pose proof (omap_lookup_seq userId [] (playerObjs g) []) as H.
  cbn in H. by rewrite app_nil_r in H.
Qed.

Lemma alreadyJoined_fresh user g :
  players g = seq 0 (length (playerObjs g)) ->
  alreadyJoined user g = false ->
  user ∉ userId <$> playerObjs g.
Proof.
  intros Hseq Hno Hin. apply list_elem_of_fmap in Hin as (p & -> & Hp).
  apply list_elem_of_lookup in Hp as [i Hi].
  assert (Hex : alreadyJoined (userId p) g = true); [| congruence].
  unfold alreadyJoined. apply existsb_exists. exists i. split.
  - rewrite Hseq. apply in_seq. pose proof (lookup_lt_Some _ _ _ Hi). lia.
  - unfold deref. rewrite Hi. apply String.eqb_refl.
Qed.

Lemma sumOver_joined f cfg user name amount g :
  sumOver f (joined cfg user name amount g)
  = sumOver f g + f (mkPlayer user name true amount).
Proof.
  rewrite !sumOver_fmap. cbn. rewrite fmap_app, foldr_app. cbn.
  generalize (f <$> playerObjs g). intros l.
  induction l as [| x l IH]; cbn; lia.
Qed.

Lemma fresh_sound cfg now rnd channel space :
  wellFormed (fresh now rnd channel space)
  /\ ledger cfg channel (fresh now rnd channel space)
  /\ flow (fresh now rnd channel space)
  /\ poolsNonNegative (fresh now rnd channel space).
Proof.
  split; [| split; [| split]].
  - split; split; cbn; try done. apply NoDup_nil_2.
  - unfold ledger. cbn. split_and!; try done; [lia | apply NoDup_nil_2].
  - split; done.
  - unfold poolsNonNegative. cbn. lia.
Qed.

Lemma joined_sound cfg key user name amount g :
  wellFormed g -> ledger cfg key g ->
  state g = waiting ->
  alreadyJoined user g = false ->
  Z.of_nat (length (players g)) < maxPlayers cfg ->
  wellFormed (joined cfg user name amount g)
  /\ ledger cfg key (joined cfg user name amount g)
  /\ flow (joined cfg user name amount g).
Proof.
  intros Hwf (Hk & Hseq & Hcap & Hnd & Hrake & Hwait) Hs Hno Hroom.
  destruct (Hwait Hs) as (Ha & Hb & Hal).
  split; [by apply addPlayer_game_wf |]. split.
  - unfold ledger. rewrite !sumOver_joined. cbn.
    rewrite Hs, Hseq, Hal, Hseq, !length_app, length_seq. cbn.
    split_and!; try done.
    + by rewrite Nat.add_1_r, seq_S.
    + rewrite Hseq, length_seq in Hroom. lia.
    + rewrite fmap_app. apply NoDup_app. split_and!; [done | | apply NoDup_singleton].
      intros x Hx Hx'. apply list_elem_of_singleton in Hx'. subst x.
      by apply (alreadyJoined_fresh user g).
    + lia.
    + intros _. split_and!; (done || lia).
  - split; cbn; by rewrite Hs.
Qed.

Lemma started_sound cfg key rnd g :
  wellFormed g -> ledger cfg key g ->
  (2 <= minPlayers cfg -> flow g) ->
  state g <> active ->
  minPlayers cfg <= Z.of_nat (length (players g)) ->
  wellFormed (started rnd g)
  /\ ledger cfg key (started rnd g)
  /\ (2 <= minPlayers cfg -> flow (started rnd g)).
Proof.
  intros [Hsound [Hview _]] (Hk & Hseq & Hcap & Hnd & Hrake & Hwait) Hflow Hs Hmin.
  split; [| split].
  - split; [exact Hsound |]. split; [exact Hview |].
    intros _ Hne. cbn in *. destruct (alivePlayers g); [done | cbn; lia].
  - unfold ledger. rewrite !sumOver_fmap. cbn. rewrite <- !sumOver_fmap.
    by split_and!.
  - intros H2. destruct (Hflow H2) as [Hnf _]. split; [done |].
    intros _. cbn.
    assert (Hw : state g = waiting) by (by destruct (state g)).
    destruct (Hwait Hw) as (_ & _ & ->). lia.
Qed.

Section BooksOfTurns.

Variables (cfg : GameConfig) (now : Z) (rnd : Q).

Lemma takeTurn_inactive user action g :
  state g <> active ->
  takeTurn cfg now rnd user action g
  = mkTurn g false (Some (failure NotActive)) [].
Proof.
  intros Hs. unfold takeTurn. apply GameState_eqb_neq in Hs. by rewrite Hs.
Qed.

Lemma shootBranch_state user r g :
  match shootBranch cfg now rnd user r g with
  | inl g1 => state g1 = state g \/ state g1 = finished
  | inr b => state (b_game b) = state g \/ state (b_game b) = finished
  end.
Proof.
  unfold shootBranch. cbn. destruct (checkChamber _).
  - destruct (_ <=? _); cbn;
      (destruct (Nat.eqb _ 1); [destruct (_ ≫= _) |]); cbn;
      (by left) || (by right).
  - destruct (_ <=? _).
    + destruct (bigintDiv _ _); cbn; by right.
    + cbn. destruct (_ <=? _); by left.
Qed.

Lemma takeTurn_state user action g :
  state (t_game (takeTurn cfg now rnd user action g)) = state g
  \/ state (t_game (takeTurn cfg now rnd user action g)) = finished.
Proof.
  destruct (takeTurn_shape cfg now rnd user action g)
    as [(msg & ->) | [(r & p & g1 & _ & _ & Hb & ->) | (r & p & b & _ & Hb & ->)]];
    cbn [t_game]; [by left | |].
  - pose proof (shootBranch_state user r (set_turnTimer None g)) as H.
    by rewrite Hb in H.
  - assert (Hbs : state (b_game b) = state g \/ state (b_game b) = finished).
    { destruct action.
      - pose proof (shootBranch_state user r (set_turnTimer None g)) as H.
        by rewrite Hb in H.
      - destruct Hb as [_ ->]. unfold passBranch. cbn.
        destruct (_ <=? _); by left. }
    destruct (finishTurn_frame cfg now b)
      as (_ & _ & _ & _ & _ & _ & _ & _ & _ & _ & _ & [-> | ->]);
      [done | by right].
Qed.

Lemma takeTurn_ledger key user action g :
  ledger cfg key g ->
  ledger cfg key (t_game (takeTurn cfg now rnd user action g)).
Proof.
  intros Hl.
  destruct (GameState_eqb (state (t_game (takeTurn cfg now rnd user action g)))
              waiting) eqn:Hw;
    [apply GameState_eqb_eq in Hw | apply GameState_eqb_neq in Hw].
  { destruct (takeTurn_state user action g) as [Hs | Hs]; [| congruence].
    rewrite takeTurn_inactive; [done |]. rewrite <- Hs, Hw. done. }
  destruct Hl as (Hk & Hseq & Hcap & Hnd & Hrake & _).
  destruct (takeTurn_steps cfg now rnd user action g)
    as ((Hpl & Htable) & (Hh & _) & Hc & _).
  set (g' := t_game (takeTurn cfg now rnd user action g)) in *.
  assert (Hobjs : forall B (f : Player -> B),
             (forall q, f (kill q) = f q) ->
             f <$> playerObjs g' = f <$> playerObjs g).
  { intros B f Hf.
    destruct Htable as [[-> _] | (r & p & _ & _ & _ & -> & _)]; [done |].
    by apply fmap_alter_kill. }
  assert (Hlen : length (playerObjs g') = length (playerObjs g)).
  { rewrite <- (length_fmap userId), (Hobjs _ userId) by done.
    by rewrite length_fmap. }
  unfold ledger. rewrite !sumOver_fmap, Hpl, Hlen, Hh, Hc.
  rewrite (Hobjs _ userId), (Hobjs _ (rakeOf cfg)) by done.
  rewrite <- sumOver_fmap. by split_and!.
Qed.

(** The common end returns, and removes the game unless it leaves its
    state as the branch set it. *)
Lemma finishTurn_flow b :
  alivePlayers (b_game b) <> [] ->
  t_result (finishTurn cfg now b) <> None
  /\ (t_deleted (finishTurn cfg now b) = true
      \/ t_deleted (finishTurn cfg now b) = b_deleted b
         /\ state (t_game (finishTurn cfg now b)) = state (b_game b)).
Proof.
  intros Hne. unfold finishTurn. destruct (_ && _).
  - unfold bigintDiv. cbn.
    destruct (Z.eqb_spec (Z.of_nat (length (alivePlayers (b_game b)))) 0) as [E |].
    { destruct (alivePlayers (b_game b)); [done | cbn in E; lia]. }
    cbn. split; [done | by left].
  - cbn. split; [done |]. right. split; [done |].
    destruct (GameState_eqb _ _); [| done].
    destruct (negb _); [| done].
    unfold advanceTurn. by destruct (Nat.eqb _ _).
Qed.

(** In a well-formed game with two alive players or more, the shot
    raises no exception, leaves somebody alive, and either removes the
    game or leaves it active with two alive players or more. *)
Lemma shootBranch_flow user g r p :
  wellFormed g ->
  state g = active ->
  currentPlayerRef g = Some r -> deref g r = Some p ->
  (2 <= length (alivePlayers g))%nat ->
  exists b,
    shootBranch cfg now rnd user r g = inr b
    /\ alivePlayers (b_game b) <> []
    /\ (b_deleted b = true
        \/ b_deleted b = false /\ state (b_game b) = active
           /\ (2 <= length (alivePlayers (b_game b)))%nat).
Proof.
  intros Hwf Hs Hr Hp Hlen.
  assert (Hne : alivePlayers g <> []) by (destruct (alivePlayers g); [cbn in Hlen; lia | done]).
  unfold shootBranch. cbn.
  change (checkChamber _) with (checkChamber g).
  destruct (checkChamber g).
  - erewrite (filter_killed g) by (exact Hp || reflexivity).
    fold (othersAlive g r).
    unfold currentPlayerRef in Hr.
    destruct (currentTurnIndex g <? 0); [done |].
    pose proof (othersAlive_compact g r _ Hwf Hr) as Hcompact.
    pose proof (lookup_lt_Some _ _ _ Hr) as Hlt.
    assert (Hlen' : length (othersAlive g r) = (length (alivePlayers g) - 1)%nat).
    { rewrite Hcompact, length_app, length_take, length_drop. lia. }
    destruct (othersAlive g r) as [| w l] eqn:Eo; [cbn in Hlen'; lia |].
    destruct (othersAlive_deref g r w) as (q & Hq & _ & Hwr);
      [rewrite Eo; by left |].
    assert (Hw : forall g1, playerObjs g1 = alter kill r (playerObjs g) ->
                            deref g1 w = Some q).
    { intros g1 E. unfold deref. rewrite E, list_lookup_alter_ne by done.
      exact Hq. }
    destruct (Z.of_nat (length (w :: l)) <=? currentTurnIndex g); cbn;
      (destruct (Nat.eqb_spec (length l) 0) as [E0 | E0];
       [ rewrite (Hw (set_forcedShoot _ _)) by reflexivity; cbn;
         eexists; split; [reflexivity |]; split; [done | by left]
       | eexists; split; [reflexivity |]; split; [done |]; right;
         cbn; split_and!; (done || lia) ]).
  - destruct (_ <=? _).
    + unfold bigintDiv. cbn.
      destruct (Z.eqb_spec (Z.of_nat (length (alivePlayers g))) 0); [lia |].
      eexists. split; [reflexivity |]. cbn. split; [done | by left].
    + cbn. destruct (_ <=? _); eexists; (split; [reflexivity |]); cbn;
        (split; [done |]); right; by split_and!.
Qed.

Lemma takeTurn_flow user action g :
  wellFormed g -> flow g ->
  t_result (takeTurn cfg now rnd user action g) <> None
  /\ (t_deleted (takeTurn cfg now rnd user action g) = true
      \/ flow (t_game (takeTurn cfg now rnd user action g))).
Proof.
  intros Hwf [Hnf Hact].
  assert (Hwf' : wellFormed (set_turnTimer None g))
    by (by apply (wellFormed_keep g)).
  destruct (takeTurn_shape cfg now rnd user action g)
    as [(msg & ->) | [(r & p & g1 & Hturn & _ & Hb & _)
                     | (r & p & b & Hturn & Hb & ->)]].
  - cbn. split; [done |]. right. by split.
  - exfalso. pose proof Hturn as (Hs & Hr & Hp & _).
    destruct (shootBranch_flow user (set_turnTimer None g) r p Hwf' Hs Hr Hp
                (Hact Hs)) as (b & Hb' & _).
    congruence.
  - pose proof Hturn as (Hs & Hr & Hp & _).
    specialize (Hact Hs).
    assert (Hb2 : alivePlayers (b_game b) <> []
                  /\ (b_deleted b = true
                      \/ b_deleted b = false /\ state (b_game b) = active
                         /\ (2 <= length (alivePlayers (b_game b)))%nat)).
    { destruct action.
      - destruct (shootBranch_flow user (set_turnTimer None g) r p Hwf' Hs Hr
                    Hp Hact) as (b' & Hb' & Hrest).
        rewrite Hb in Hb'. by injection Hb' as <-.
      - destruct Hb as [_ ->]. unfold passBranch. cbn.
        destruct (_ <=? _); cbn;
          (split; [destruct (alivePlayers g); [cbn in Hact; lia | done] |]);
          right; by split_and!. }
    destruct Hb2 as [Hne Hcases].
    destruct (finishTurn_flow b Hne) as [Hres [Hdel | [Hdel Hst]]];
      (split; [exact Hres |]); [by left |].
    destruct Hcases as [Hd | (Hd & Hbs & Hbl)]; [left; congruence |].
    right. destruct (finishTurn_frame cfg now b) as (_ & _ & Hal & _).
    split; rewrite ?Hst, ?Hbs, ?Hal; done.
Qed.

End BooksOfTurns.

End Books.

(** ** Forced shoot: the claim *)

Section ShotClearsFlags.

Variables (cfg : GameConfig) (now : Z) (rnd : Q).

(** The shot clears the flag and the pass counter before anything else,
    on every path, the ones an exception leaves included; a branch that
    removed the game finished it. *)
Lemma shootBranch_cleared user r g :
  match shootBranch cfg now rnd user r g with
  | inl g1 => forcedShoot g1 = false /\ consecutivePasses g1 = 0
  | inr b => forcedShoot (b_game b) = false
             /\ consecutivePasses (b_game b) = 0
             /\ (b_deleted b = true -> state (b_game b) = finished)
  end.
Proof.
  unfold shootBranch. cbn.
  destruct (checkChamber _).
  - destruct (_ <=? _); cbn;
      (destruct (Nat.eqb _ 1); [destruct (_ ≫= _) |]); by cbn.
  - destruct (_ <=? _).
    + by destruct (bigintDiv _ _).
    + cbn. by destruct (_ <=? _).
Qed.

(** The end of a call keeps the flag and the pass counter, and the game
    it leaves is in the registry or was handed to [onAction]. *)
Lemma finishTurn_keeps_flags b :
  forcedShoot (t_game (finishTurn cfg now b)) = forcedShoot (b_game b)
  /\ consecutivePasses (t_game (finishTurn cfg now b))
     = consecutivePasses (b_game b)
  /\ ((b_deleted b = true -> state (b_game b) = finished) ->
      t_deleted (finishTurn cfg now b) = false
      \/ exists msg,
           t_notified (finishTurn cfg now b)
           = [(t_game (finishTurn cfg now b), msg)]).
Proof.
  unfold finishTurn.
  destruct (GameState_eqb (state (b_game b)) active) eqn:Hs; cbn.
  - apply GameState_eqb_eq in Hs.
    destruct (_ <=? _); cbn.
    + destruct (bigintDiv _ _); cbn.
      * split; [done |]. split; [done |]. intros _. right. by eexists.
      * split; [done |]. split; [done |]. intros Hdel. left.
        destruct (b_deleted b); [| done].
        specialize (Hdel eq_refl). congruence.
    + split_and!; try (intros _; right; by eexists);
        destruct (negb _); try done;
        unfold advanceTurn; by destruct (Nat.eqb _ _).
  - split; [done |]. split; [done |]. intros _. right. by eexists.
Qed.

End ShotClearsFlags.

(** C6. For the turn-holder: with [forcedShoot] set a pass is refused with
    the must-shoot failure and nothing changes; with it clear a pass sets
    it exactly when the pass brings [consecutivePasses] to
    [len(alivePlayers)] or more; and a shot leaves [forcedShoot] clear and
    [consecutivePasses] at 0 in the game as the registry holds it or as
    [onAction] received it, whichever way the call ends. In a well-formed
    game with two alive players or more the shot returns a success and
    notifies once. *)
Theorem C6_forced_shoot
    (now : Z) (rnd : Q) (channel user : string) (m : GameManager)
    (g : Game) (r : ref) (p : Player) :
  games m !! channel = Some g ->
  holdsTurn g r p user ->
  (forcedShoot g = true ->
   handleAction now rnd channel user pass m
   = mkRun m (Some (failure MustShoot)) [])
  /\ (forcedShoot g = false ->
      exists g' msg,
        r_notified (handleAction now rnd channel user pass m) = [(g', msg)]
        /\ consecutivePasses g' = consecutivePasses g + 1
        /\ (forcedShoot g' = true
            <-> Z.of_nat (length (alivePlayers g)) <= consecutivePasses g + 1))
  /\ (forall res,
        r_result (handleAction now rnd channel user shoot m) = Some res ->
        success res = true
        /\ exists g' msg,
             r_notified (handleAction now rnd channel user shoot m) = [(g', msg)]
             /\ forcedShoot g' = false
             /\ consecutivePasses g' = 0)
  /\ (exists g', seenAfter (handleAction now rnd channel user shoot m) channel g')
  /\ (forall g',
        seenAfter (handleAction now rnd channel user shoot m) channel g' ->
        forcedShoot g' = false /\ consecutivePasses g' = 0)
  /\ (wellFormed g -> (2 <= length (alivePlayers g))%nat ->
      exists res g' msg,
        r_result (handleAction now rnd channel user shoot m) = Some res
        /\ success res = true
        /\ r_notified (handleAction now rnd channel user shoot m) = [(g', msg)]
        /\ forcedShoot g' = false
        /\ consecutivePasses g' = 0).
Proof.
  intros Hg Hturn.
  destruct (holdsTurn_nonempty _ _ _ _ Hturn) as [Hne _].
  assert (Hshot :
            forall res,
              r_result (handleAction now rnd channel user shoot m) = Some res ->
              success res = true
              /\ exists g' msg,
                   r_notified (handleAction now rnd channel user shoot m)
                   = [(g', msg)]
                   /\ forcedShoot g' = false
                   /\ consecutivePasses g' = 0).
  { intros res. unfold handleAction. rewrite Hg.
    rewrite (takeTurn_holder _ _ _ _ _ _ _ _ Hturn). cbn.
    destruct (shootBranch _ _ _ _ _ _) as [g1 | b] eqn:Hb; [done |].
    destruct (shootBranch_flags _ _ _ _ _ _ _ Hb) as [Hf0 Hc0].
    intros Hres.
    destruct (finishTurn_flags _ _ _ _ Hres) as (Hok & msg & Hn & Hf' & Hc').
    split; [done |].
    exists (t_game (finishTurn (config m) now b)), msg.
    by rewrite Hn, Hf', Hc'. }
  split; [| split; [| split; [exact Hshot | split; [| split]]]].
  - intros Hf. apply (handleAction_rejected _ _ _ _ _ _ g); [done |].
    rewrite (takeTurn_holder _ _ _ _ _ _ _ _ Hturn). by rewrite Hf.
  - intros Hf. unfold handleAction. rewrite Hg.
    rewrite (takeTurn_holder _ _ _ _ _ _ _ _ Hturn), Hf. cbn.
    set (b := passBranch (config m) (set_turnTimer None g)).
    destruct (passBranch_flags (config m) (set_turnTimer None g) Hf)
      as [Hcp Hfs]. fold b in Hcp, Hfs. cbn in Hcp, Hfs.
    destruct (t_result (finishTurn (config m) now b)) as [res |] eqn:Hres.
    + destruct (finishTurn_flags _ _ _ _ Hres) as (_ & msg & Hn & Hf' & Hc').
      exists (t_game (finishTurn (config m) now b)), msg.
      by rewrite Hn, Hf', Hc'.
    + exfalso. revert Hres. subst b. unfold finishTurn, passBranch.
      destruct (_ && _); [| done].
      unfold bigintDiv. cbn.
      assert (E : (Z.of_nat (length (alivePlayers g)) =? 0) = false).
      { apply Z.eqb_neq. destruct (alivePlayers g); [done | cbn; lia]. }
      destruct (_ <=? _); cbn; by rewrite E.
  - unfold seenAfter, handleAction. rewrite Hg.
    rewrite (takeTurn_holder _ _ _ _ _ _ _ _ Hturn). cbn.
    pose proof (shootBranch_cleared (config m) now rnd user r
                  (set_turnTimer None g)) as Hclr.
    destruct (shootBranch _ _ _ _ _ _) as [g1 | b]; cbn.
    + exists g1. left. apply lookup_insert_eq.
    + destruct Hclr as (_ & _ & Hdel).
      destruct (finishTurn_keeps_flags (config m) now b) as (_ & _ & Hseen).
      exists (t_game (finishTurn (config m) now b)).
      destruct (Hseen Hdel) as [-> | (msg & ->)].
      * left. apply lookup_insert_eq.
      * right. exists msg. by left.
  - intros g' Hseen.
    rewrite (handleAction_seenAfter _ _ _ _ _ _ _ _ Hg Hseen).
    rewrite (takeTurn_holder _ _ _ _ _ _ _ _ Hturn).
    pose proof (shootBranch_cleared (config m) now rnd user r
                  (set_turnTimer None g)) as Hclr.
    destruct (shootBranch _ _ _ _ _ _) as [g1 | b]; cbn; [done |].
    destruct Hclr as (Hf & Hc & _).
    destruct (finishTurn_keeps_flags (config m) now b) as (-> & -> & _).
    done.
  - intros Hwf Hlen.
    assert (Hflow : flow g).
    { destruct Hturn as (Hs & _). split; [congruence | done]. }
    destruct (takeTurn_flow (config m) now rnd user shoot g Hwf Hflow)
      as [Hres _].
    assert (Hrun : r_result (handleAction now rnd channel user shoot m)
                   = t_result (takeTurn (config m) now rnd user shoot g)).
    { unfold handleAction. by rewrite Hg. }
    destruct (t_result (takeTurn (config m) now rnd user shoot g))
      as [res |] eqn:Eres; [| done].
    destruct (Hshot res Hrun) as (Hok & g' & msg & Hn & Hf & Hc).
    by exists res, g', msg.
Qed.

Lemma C6_forced_shoot_witness :
  let m := reached DEFAULT_CONFIG
             (duel ++ [ HandleAction 10 (0 # 1) lobby "0xa1" pass;
                        HandleAction 20 (0 # 1) lobby "0xb2" pass ]) in
  (exists g, games m !! lobby = Some g /\ forcedShoot g = true
             /\ consecutivePasses g = 2)
  /\ handleAction 30 (0 # 1) lobby "0xa1" pass m
     = mkRun m (Some (failure MustShoot)) []
  /\ (exists g',
        games (r_manager (handleAction 30 (0 # 1) lobby "0xa1" shoot m)) !! lobby
        = Some g'
        /\ forcedShoot g' = false /\ consecutivePasses g' = 0).
Proof.
  intros m.
  assert (Hg : exists g, games m !! lobby = Some g) by (eexists; by vm_compute).
  destruct Hg as [g Hg].
  assert (Hgame : g = default g (games m !! lobby)) by (by rewrite Hg).
  vm_compute in Hgame.
  assert (Hturn : holdsTurn g 0%nat (mkPlayer "0xa1" "ann" true 1000) "0xa1").
  { rewrite Hgame. by repeat split. }
  destruct (C6_forced_shoot 30 (0 # 1) lobby "0xa1" m g
              0%nat (mkPlayer "0xa1" "ann" true 1000) Hg Hturn)
    as (Hpass & _ & _ & _ & Hclear & _).
  split; [| split].
  - exists g. split; [exact Hg |]. rewrite Hgame. by split.
  - apply Hpass. rewrite Hgame. reflexivity.
  - assert (Hg' : exists g',
               games (r_manager (handleAction 30 (0 # 1) lobby "0xa1" shoot m))
               !! lobby = Some g') by (eexists; by vm_compute).
    destruct Hg' as [g' Hg']. exists g'. split; [exact Hg' |].
    apply Hclear. by left.
Defined.

Section ReachableBooks.

Lemma perform_sound op m : managerSound m -> managerSound (fst (perform op m)).
Proof.
  intros Hm key g' Hg'. rewrite perform_config.
  destruct (perform_cases op m key g' Hg') as [Hold | [Hk Hprod]];
    [by apply Hm |].
  destruct op as [now rnd channel space | channel user name amount
                 | rnd channel | now rnd channel user action
                 | channel | channel]; cbn in Hk, Hprod; [| | | | done | done].
  - subst. destruct (fresh_sound (config m) now rnd channel space)
      as (? & ? & ? & _). done.
  - destruct Hprod as (g & Hg & Hs & Hno & Hroom & ->).
    destruct (Hm _ _ Hg) as (Hwf & Hl & _).
    destruct (joined_sound (config m) key user name amount g Hwf Hl Hs Hno Hroom)
      as (? & ? & ?). done.
  - destruct Hprod as (g & Hg & Hs & Hmin & ->).
    destruct (Hm _ _ Hg) as (Hwf & Hl & Hf).
    by apply started_sound.
  - destruct Hprod as (g & Hg & Hdel & ->).
    destruct (Hm _ _ Hg) as (Hwf & Hl & Hf).
    split; [by apply takeTurn_wf |]. split; [by apply takeTurn_ledger |].
    intros H2.
    destruct (takeTurn_flow (config m) now rnd user action g Hwf (Hf H2))
      as [_ [Hd | Hflow]]; [congruence | done].
Qed.

Lemma performAll_sound ops m :
  managerSound m -> managerSound (fst (performAll ops m)).
Proof.
  revert m. induction ops as [| op ops IH]; intros m Hm; [done |].
  cbn. pose proof (perform_sound op m Hm) as Hm'.
  destruct (perform op m) as [m' seen]. cbn in Hm'.
  specialize (IH m' Hm'). by destruct (performAll ops m').
Qed.

Lemma reached_config cfg ops : config (reached cfg ops) = cfg.
Proof. unfold reached. by rewrite performAll_config. Qed.

Lemma reached_sound cfg ops : managerSound (reached cfg ops).
Proof. apply performAll_sound. intros key g Hg. by cbn in Hg. Qed.

Lemma sumOver_split cfg g :
  sumOver (netOf cfg) g + sumOver (rakeOf cfg) g = sumOver entryAmount g.
Proof.
  unfold sumOver. induction (playerObjs g) as [| p l IH]; [done |].
  cbn [fold_right].
  assert (Hp : netOf cfg p + rakeOf cfg p = entryAmount p)
    by (unfold netOf, rakeOf; cbn; lia).
  lia.
Qed.

Lemma perform_nonneg op m :
  saneConfig (config m) -> entryNonNegative op ->
  map_Forall (fun _ g => poolsNonNegative g) (games m) ->
  map_Forall (fun _ g => poolsNonNegative g) (games (fst (perform op m))).
Proof.
  intros (Hpct & Hpen & Hbonus) Hentry Hm key g' Hg'.
  destruct (perform_cases op m key g' Hg') as [Hold | [Hk Hprod]];
    [by apply (Hm key) |].
  destruct op as [now rnd channel space | channel user name amount
                 | rnd channel | now rnd channel user action
                 | channel | channel]; cbn in Hk, Hprod, Hentry;
    [| | | | done | done].
  - subst. by destruct (fresh_sound (config m) now rnd channel space)
      as (_ & _ & _ & ?).
  - destruct Hprod as (g & Hg & _ & _ & _ & ->).
    destruct (Hm _ _ Hg) as (Ha & Hb & Hh).
    destruct (split_within_entry amount (rakePercent (config m)) Hentry Hpct)
      as [Hr Hn].
    unfold poolsNonNegative. cbn in *. lia.
  - destruct Hprod as (g & Hg & _ & _ & ->). exact (Hm key g Hg).
  - destruct Hprod as (g & Hg & _ & ->).
    destruct (Hm _ _ Hg) as (Ha & Hb & Hh).
    destruct (takeTurn_steps (config m) now rnd user action g)
      as (_ & (Hh' & Hmoney) & _).
    unfold poolsNonNegative. rewrite Hh'.
    destruct action; [destruct Hmoney as [[-> ->] | (? & -> & ->)]
                     | destruct Hmoney as [-> [-> | ->]]]; lia.
Qed.

Lemma performAll_nonneg ops m :
  saneConfig (config m) -> Forall entryNonNegative ops ->
  map_Forall (fun _ g => poolsNonNegative g) (games m) ->
  map_Forall (fun _ g => poolsNonNegative g) (games (fst (performAll ops m))).
Proof.
  revert m. induction ops as [| op ops IH]; intros m Hc Hops Hm; [done |].
  apply Forall_cons in Hops as [Hop Hops].
  cbn. pose proof (perform_nonneg op m Hc Hop Hm) as Hm'.
  pose proof (perform_config op m) as Hc'.
  destruct (perform op m) as [m' seen]. cbn in Hm', Hc'.
  rewrite <- Hc' in Hc. specialize (IH m' Hc Hops Hm').
  by destruct (performAll ops m').
Qed.

End ReachableBooks.

(** X21. In every registry reached from a fresh one, no game has more
    players than [maxPlayers] (none at all when [maxPlayers] is negative),
    and no two players of a game have the same [userId]. *)
Theorem reached_table_within_capacity (cfg : GameConfig) (ops : list Op) :
  map_Forall
    (fun _ g =>
       Z.of_nat (length (players g)) <= Z.max 0 (maxPlayers cfg)
       /\ NoDup (userIds g (players g)))
    (games (reached cfg ops)).
Proof.
  intros key g Hg.
  destruct (reached_sound cfg ops key g Hg) as (_ & Hl & _).
  rewrite reached_config in Hl.
  destruct Hl as (_ & Hseq & Hcap & Hnd & _).
  split; [done |]. by rewrite userIds_seq.
Qed.

(** X22. In every registry reached from a fresh one, each game is
    registered under its own [channelId], its [houseRake] is the sum of
    the rakes of the entries of its players, and while it is waiting
    [poolA + houseRake] is the sum of the entries, [poolB] is empty and
    every joined player is alive. *)
Theorem reached_books_balance (cfg : GameConfig) (ops : list Op) :
  map_Forall
    (fun key g =>
       channelId g = key
       /\ houseRake g = sumOver (rakeOf cfg) g
       /\ (state g = waiting ->
           poolA g + houseRake g = sumOver entryAmount g
           /\ poolB g = 0
           /\ alivePlayers g = players g))
    (games (reached cfg ops)).
Proof.
  intros key g Hg.
  destruct (reached_sound cfg ops key g Hg) as (_ & Hl & _).
  rewrite reached_config in Hl.
  destruct Hl as (Hk & _ & _ & _ & Hrake & Hwait).
  split; [done |]. split; [done |]. intros Hs.
  destruct (Hwait Hs) as (Ha & Hb & Hal).
  rewrite Ha, Hrake, sumOver_split. done.
Qed.

(** X23. When the configuration asks for two players or more, no
    registry reached from a fresh one holds a finished game, every active
    game in it has two alive players or more, and no call of
    [handleAction] on it raises an exception. *)
Theorem handleAction_never_throws (cfg : GameConfig) (ops : list Op) :
  2 <= minPlayers cfg ->
  map_Forall (fun _ g => flow g) (games (reached cfg ops))
  /\ forall now rnd channel user action,
       r_result (handleAction now rnd channel user action (reached cfg ops))
       <> None.
Proof.
  intros Hmin.
  assert (Hflow : map_Forall (fun _ g => flow g) (games (reached cfg ops))).
  { intros key g Hg. destruct (reached_sound cfg ops key g Hg) as (_ & _ & Hf).
    apply Hf. by rewrite reached_config. }
  split; [exact Hflow |].
  intros now rnd channel user action. unfold handleAction.
  destruct (games (reached cfg ops) !! channel) as [g |] eqn:Hg; [| done].
  cbn. destruct (reached_sound cfg ops channel g Hg) as (Hwf & _).
  by destruct (takeTurn_flow (config (reached cfg ops)) now rnd user action g
                 Hwf (Hflow _ _ Hg)).
Qed.

Lemma handleAction_never_throws_witness :
  r_result (handleAction 5 (0 # 1) lobby "0xa1" shoot
              (reached DEFAULT_CONFIG loadedDuel)) <> None.
Proof.
  apply (handleAction_never_throws DEFAULT_CONFIG loadedDuel). by vm_compute.
Defined.

(** X25. With a rake percentage between 0 and 100, a pass penalty and a
    bonus that are not negative, and entries that are not negative, no
    pool of any reachable game is ever negative. *)
Theorem pools_never_negative (cfg : GameConfig) (ops : list Op) :
  saneConfig cfg ->
  Forall entryNonNegative ops ->
  map_Forall (fun _ g => poolsNonNegative g) (games (reached cfg ops)).
Proof.
  intros Hc Hops. apply performAll_nonneg; [done | done |].
  intros key g Hg. by cbn in Hg.
Qed.

Lemma pools_never_negative_witness :
  map_Forall (fun _ g => poolsNonNegative g)
    (games (reached DEFAULT_CONFIG duelAfterPasses)).
Proof.
  apply (pools_never_negative DEFAULT_CONFIG duelAfterPasses).
  - unfold saneConfig. cbn. lia.
  - unfold duelAfterPasses. repeat constructor; cbn; lia.
Defined.

(** X24. Every game that [handleAction] hands to [onAction] from a
    reachable registry, if it is active with somebody alive, has an alive
    player at its turn index: the caller's read of
    [alivePlayers[currentTurnIndex]] finds a player. *)
Theorem notified_turn_holder_defined
    (cfg : GameConfig) (ops : list Op) (now : Z) (rnd : Q)
    (channel user : string) (action : Action) (g' : Game) (msg : Message) :
  (g', msg) ∈ r_notified (handleAction now rnd channel user action
                            (reached cfg ops)) ->
  state g' = active ->
  alivePlayers g' <> [] ->
  exists r p,
    currentPlayerRef g' = Some r /\ deref g' r = Some p /\ isAlive p = true.
Proof.
  intros Hin Hs Hne.
  destruct (handleAction_wf now rnd channel user action (reached cfg ops))
    as [_ Hseen].
  { intros key g Hg. by destruct (reached_sound cfg ops key g Hg). }
  rewrite Forall_forall in Hseen.
  assert (Hwf : wellFormed g').
  { apply Hseen. apply list_elem_of_fmap. by exists (g', msg). }
  destruct (wellFormed_alive g' Hwf) as [_ Halive].
  destruct Hwf as [_ [_ Hidx]]. specialize (Hidx Hs Hne).
  unfold currentPlayerRef.
  destruct (Z.ltb_spec (currentTurnIndex g') 0); [lia |].
  destruct (lookup_lt_is_Some_2 (alivePlayers g')
              (Z.to_nat (currentTurnIndex g'))) as [r Hr]; [lia |].
  exists r. specialize (Halive r (list_elem_of_lookup_2 _ _ _ Hr)).
  unfold aliveRef in Halive. destruct (deref g' r) as [p |]; [| done].
  by exists p.
Qed.

Lemma notified_turn_holder_defined_witness :
  let run := handleAction 5 (0 # 1) lobby "0xa1" pass
               (reached DEFAULT_CONFIG duel) in
  exists g' msg r p,
    r_notified run = [(g', msg)]
    /\ currentPlayerRef g' = Some r /\ deref g' r = Some p
    /\ userId p = "0xb2".
Proof.
  intros run.
  assert (Hn : exists x, r_notified run = [x]) by (eexists; by vm_compute).
  destruct Hn as [[g' msg] Hn].
  assert (Hgame : [(g', msg)] = r_notified run) by (by rewrite Hn).
  vm_compute in Hgame. injection Hgame as Hgame Hmsg.
  destruct (notified_turn_holder_defined DEFAULT_CONFIG duel 5 (0 # 1) lobby
              "0xa1" pass g' msg) as (r & p & Hr & Hp & _).
  - fold run. rewrite Hn. by left.
  - rewrite Hgame. reflexivity.
  - rewrite Hgame. discriminate.
  - exists g', msg, r, p. split; [exact Hn |]. split; [exact Hr |].
    split; [exact Hp |].
    rewrite Hgame in Hr, Hp. vm_compute in Hr. injection Hr as <-.
    vm_compute in Hp. by injection Hp as <-.
Defined.

(** ** The order of the registry and the search by name *)

Section Order.

Lemma elem_of_without (channel k : string) (keys : list string) :
  k ∈ without channel keys <-> k ∈ keys /\ k <> channel.
Proof.
  unfold without. rewrite !list_elem_of_In, filter_In.
  by destruct (String.eqb_spec k channel); intuition.
Qed.

Lemma NoDup_without (channel : string) (keys : list string) :
  NoDup keys -> NoDup (without channel keys).
Proof.
  induction 1 as [| k keys Hk Hnd IH]; [constructor |].
  change (NoDup (if negb (String.eqb k channel)
                 then k :: without channel keys
                 else without channel keys)).
  destruct (negb _); [| done].
  constructor; [| done]. rewrite elem_of_without. tauto.
Qed.

Lemma order_kept (m : GameManager) (channel : string) (g g' : Game) :
  orderSound m ->
  games m !! channel = Some g ->
  orderSound (mkManager (<[channel := g']> (games m)) (insertionOrder m)
                (config m)).
Proof.
  intros [Hnd Hkeys] Hg. split; [done |]. intros k. cbn. rewrite Hkeys.
  destruct (decide (k = channel)) as [-> | Hne].
  - rewrite lookup_insert_eq, Hg. split; by eexists.
  - by rewrite lookup_insert_ne.
Qed.

Lemma order_appended (m : GameManager) (channel : string) (g' : Game) :
  orderSound m ->
  games m !! channel = None ->
  orderSound (mkManager (<[channel := g']> (games m))
                (insertionOrder m ++ [channel]) (config m)).
Proof.
  intros [Hnd Hkeys] Hg. split; cbn.
  - apply NoDup_app. split; [done |]. split; [| apply NoDup_singleton].
    intros k Hk ->%list_elem_of_singleton.
    apply Hkeys in Hk. rewrite Hg in Hk. by destruct Hk.
  - intros k. rewrite elem_of_app, list_elem_of_singleton, Hkeys.
    destruct (decide (k = channel)) as [-> | Hne].
    + rewrite lookup_insert_eq. split; [by eexists | by right].
    + rewrite lookup_insert_ne by done. split; [by intros [? | ?] | by left].
Qed.

Lemma order_removed (m : GameManager) (channel : string) :
  orderSound m ->
  orderSound (mkManager (delete channel (games m))
                (without channel (insertionOrder m)) (config m)).
Proof.
  intros [Hnd Hkeys]. split; cbn.
  - by apply NoDup_without.
  - intros k. rewrite elem_of_without, Hkeys.
    destruct (decide (k = channel)) as [-> | Hne].
    + rewrite lookup_delete_eq. split; [by intros [_ ?] | by intros [? ?]].
    + rewrite lookup_delete_ne by done. split; [by intros [? _] | done].
Qed.

Lemma perform_order (op : Op) (m : GameManager) :
  orderSound m -> orderSound (fst (perform op m)).
Proof.
  intros Hm.
  destruct op as [now rnd channel space | channel user name amount
                 | rnd channel | now rnd channel user action
                 | channel | channel]; cbn.
  - unfold createGame.
    destruct (games m !! channel) as [e |] eqn:He.
    + destruct (GameState_eqb (state e) active); cbn; [done |].
      by apply (order_kept m channel e).
    + cbn. by apply order_appended.
  - rewrite addPlayer_unfold.
    destruct (games m !! channel) as [g |] eqn:Hg; [| done].
    destruct (negb _); [done |]. destruct (alreadyJoined _ _); [done |].
    destruct (_ <=? _); [done |]. cbn. by apply (order_kept m channel g).
  - rewrite startGame_unfold.
    destruct (games m !! channel) as [g |] eqn:Hg; [| done].
    destruct (GameState_eqb _ _); [done |]. destruct (_ <? _); [done |].
    cbn. by apply (order_kept m channel g).
  - unfold handleAction.
    destruct (games m !! channel) as [g |] eqn:Hg; [| done]. cbn.
    destruct (t_deleted _); [by apply order_removed |].
    by apply (order_kept m channel g).
  - unfold stopGame. destruct (games m !! channel) as [g |]; [| done].
    destruct (GameState_eqb _ _); [done |]. cbn. by apply order_removed.
  - by apply order_removed.
Qed.

Lemma performAll_order (ops : list Op) (m : GameManager) :
  orderSound m -> orderSound (fst (performAll ops m)).
Proof.
  revert m. induction ops as [| op ops IH]; intros m Hm; [done |].
  cbn. pose proof (perform_order op m Hm) as Hm'.
  destruct (perform op m) as [m' seen]. cbn in Hm'.
  specialize (IH m' Hm'). by destruct (performAll ops m').
Qed.

Lemma reached_order (cfg : GameConfig) (ops : list Op) :
  orderSound (reached cfg ops).
Proof.
  apply performAll_order. split; [constructor |].
  intros k. cbn. rewrite lookup_empty. split; [by intros ?%elem_of_nil |].
  by intros [? ?].
Qed.

(** The games that the iteration visits are the games of the registry. *)
Lemma elem_of_values (m : GameManager) (g : Game) :
  orderSound m ->
  g ∈ values m <-> exists channel, games m !! channel = Some g.
Proof.
  intros [_ Hkeys]. unfold values. rewrite list_elem_of_omap. split.
  - intros (k & _ & Hk). by exists k.
  - intros (k & Hk). exists k. split; [| done]. apply Hkeys. by eexists.
Qed.

(** The test of [some] on the players of a game. *)
Lemma hasPlayer_goesBy (username : string) (g : Game) :
  hasPlayer (toLowerCase (Text.trim username)) g = true
  <-> exists r p, r ∈ players g /\ deref g r = Some p /\ goesBy username p.
Proof.
  unfold hasPlayer, goesBy. rewrite existsb_exists. split.
  - intros (r & Hr & Hp). apply list_elem_of_In in Hr.
    destruct (deref g r) as [p |] eqn:Hd; [| done]. exists r, p.
    split; [done |]. split; [done |].
    destruct (String.eqb_spec (toLowerCase (Text.trim (displayName p))) "")
      as [E | E]; cbn in Hp.
    + right. by apply String.eqb_eq.
    + destruct (String.eqb_spec (toLowerCase (Text.trim (displayName p)))
                  (toLowerCase (Text.trim username))) as [E' | E'].
      * by left.
      * right. by apply String.eqb_eq.
  - intros (r & p & Hr & Hp & Hby). exists r.
    split; [by apply list_elem_of_In |]. rewrite Hp.
    destruct Hby as [[Hne Heq] | Hid].
    + rewrite Heq in Hne |- *. rewrite String.eqb_refl.
      apply String.eqb_neq in Hne. by rewrite Hne.
    + destruct (_ && _); [done |]. by apply String.eqb_eq.
Qed.

(** The channels of the games found follow the order of insertion. *)
Lemma found_in_order (test : Game -> bool) (m : GameManager) :
  (forall k g, games m !! k = Some g -> channelId g = k) ->
  sublist (channelId <$> List.filter test (values m)) (insertionOrder m).
Proof.
  intros Hkey. unfold values.
  induction (insertionOrder m) as [| k keys IH]; [done |]. cbn.
  destruct (games m !! k) as [g |] eqn:Hg; cbn.
  - destruct (test g); cbn.
    + rewrite (Hkey k g Hg). by apply sublist_skip.
    + by apply sublist_cons.
  - by apply sublist_cons.
Qed.

End Order.

(** X19. In a registry reached from a fresh one, where the identities,
    the display names and the user name are strings of ASCII characters,
    [findGamesByUsername] returns exactly the games of the registry in
    which some player goes by the user name: the trimmed display name,
    when it is not empty, or the [userId] equals the trimmed user name,
    letter case apart, and the trimmed user name is not empty. The games
    come in the order in which their channels entered the [Map]. So a
    game is found by the [userId] of one of its players written in any
    letter case, with or without white space around it. *)
Theorem findGamesByUsername_finds
    (cfg : GameConfig) (ops : list Op) (username : string) :
  isAscii username = true ->
  forallb asciiNames ops = true ->
  (forall g,
     g ∈ findGamesByUsername username (reached cfg ops)
     <-> Text.trim username <> ""
         /\ exists channel r p,
              games (reached cfg ops) !! channel = Some g
              /\ r ∈ players g /\ deref g r = Some p
              /\ goesBy username p)
  /\ sublist (channelId <$> findGamesByUsername username (reached cfg ops))
       (insertionOrder (reached cfg ops))
  /\ forall channel g r p,
       games (reached cfg ops) !! channel = Some g ->
       r ∈ players g -> deref g r = Some p ->
       userId p <> "" ->
       toLowerCase (Text.trim username) = toLowerCase (userId p) ->
       g ∈ findGamesByUsername username (reached cfg ops).
Proof.
  intros _ _. set (m := reached cfg ops).
  pose proof (reached_order cfg ops) as Hord. fold m in Hord.
  assert (Hiff : forall g,
             g ∈ findGamesByUsername username m
             <-> Text.trim username <> ""
                 /\ exists channel r p,
                      games m !! channel = Some g
                      /\ r ∈ players g /\ deref g r = Some p
                      /\ goesBy username p).
  { intros g. unfold findGamesByUsername.
    destruct (String.eqb_spec username "") as [-> | Hne].
    { split; [by intros ?%elem_of_nil | by intros [? _]]. }
    destruct (String.eqb_spec (toLowerCase (Text.trim username)) "") as [E | E].
    { apply (proj1 (toLowerCase_empty _)) in E.
      split; [by intros ?%elem_of_nil | by intros [? _]]. }
    rewrite list_elem_of_In, filter_In, <- list_elem_of_In.
    rewrite (elem_of_values m g Hord), hasPlayer_goesBy.
    split.
    - intros [(k & Hk) (r & p & Hr & Hp & Hby)].
      split; [by intros E'; rewrite E' in E |]. by exists k, r, p.
    - intros (_ & k & r & p & Hk & Hr & Hp & Hby).
      split; [by exists k | by exists r, p]. }
  split; [exact Hiff |]. split.
  - unfold findGamesByUsername.
    destruct (String.eqb username ""); [apply sublist_nil_l |].
    destruct (String.eqb _ ""); [apply sublist_nil_l |].
    apply found_in_order. intros k g Hg.
    by destruct (reached_sound cfg ops k g Hg) as (_ & (Hk & _) & _).
  - intros channel g r p Hg Hr Hp Hid Hcase. apply Hiff.
    assert (Hn : toLowerCase (Text.trim username) <> "").
    { rewrite Hcase. intros E. by apply (proj1 (toLowerCase_empty _)) in E. }
    split; [intros E; by rewrite E in Hn |].
    exists channel, r, p. split_and!; try done. by right.
Qed.

Lemma findGamesByUsername_finds_witness :
  exists g,
    games (reached DEFAULT_CONFIG twoChannels) !! "zeta" = Some g
    /\ g ∈ findGamesByUsername " 0XB2 " (reached DEFAULT_CONFIG twoChannels)
    /\ sublist
         (channelId <$> findGamesByUsername " 0XB2 "
                          (reached DEFAULT_CONFIG twoChannels))
         ["zeta"; "alpha"].
Proof.
  set (m := reached DEFAULT_CONFIG twoChannels).
  pick_game m "zeta" g Hg Hgame.
  destruct (findGamesByUsername_finds DEFAULT_CONFIG twoChannels " 0XB2 ")
    as (_ & Hsub & Hfound); [reflexivity | reflexivity |].
  exists g. split; [exact Hg |]. split; [| exact Hsub].
  apply (Hfound "zeta" g 0%nat (mkPlayer "0xb2" "bob" true 1000) Hg).
  - rewrite Hgame. cbn. apply list_elem_of_In. cbn. tauto.
  - rewrite Hgame. reflexivity.
  - discriminate.
  - reflexivity.
Defined.

(** The iteration follows the order of insertion, not the order of the
    keys: [zeta] was created before [alpha]. *)
Lemma findGamesByUsername_order :
  channelId <$> findGamesByUsername " 0XB2 " (reached DEFAULT_CONFIG twoChannels)
  = ["zeta"; "alpha"].
Proof. by vm_compute. Qed.

(** ** formatAmount *)

Section Amounts.

Local Open Scope string_scope.

Lemma string_app_cons (x : ascii) (a b : string) :
  String x a ++ b = String x (a ++ b).
Proof. reflexivity. Qed.

Lemma string_app_nil_l (b : string) : "" ++ b = b.
Proof. reflexivity. Qed.

Ltac str_norm := rewrite ?string_app_cons, ?string_app_nil_l.

Lemma string_app_assoc (a b c : string) : (a ++ b) ++ c = a ++ (b ++ c).
Proof. induction a as [| x a IH]; [done |]. str_norm. by rewrite IH. Qed.

Lemma string_app_nil_r (a : string) : a ++ "" = a.
Proof. induction a as [| x a IH]; [done |]. str_norm. by rewrite IH. Qed.

Lemma string_length_app (a b : string) :
  String.length (a ++ b) = (String.length a + String.length b)%nat.
Proof. induction a as [| x a IH]; [done |]. str_norm. cbn. by rewrite IH. Qed.

Lemma valueFrom_app (acc : Z) (a b : string) :
  Text.valueFrom acc (a ++ b) = Text.valueFrom (Text.valueFrom acc a) b.
Proof.
  revert acc. induction a as [| x a IH]; intros acc; [done |].
  str_norm. cbn. apply IH.
Qed.

Lemma digitChar_value (d : Z) :
  0 <= d < 10 ->
  Z.of_nat (nat_of_ascii (Text.digitChar d)) - 48 = d
  /\ Ascii.eqb (Text.digitChar d) "." = false.
Proof.
  intros Hd. unfold Text.digitChar.
  assert (Hn : nat_of_ascii (ascii_of_nat (48 + Z.to_nat d)) = (48 + Z.to_nat d)%nat)
    by (apply nat_ascii_embedding; lia).
  split; [rewrite Hn; lia |].
  apply Ascii.eqb_neq. intros E.
  apply (f_equal nat_of_ascii) in E. rewrite Hn in E.
  change (nat_of_ascii ".") with 46%nat in E. lia.
Qed.

Lemma digitsLoop_step (fuel : nat) (n : Z) (rest : string) :
  Text.digitsLoop (S fuel) n rest
  = if (n / 10 =? 0)%Z then String (Text.digitChar (n mod 10)) rest
    else Text.digitsLoop fuel (n / 10) (String (Text.digitChar (n mod 10)) rest).
Proof. reflexivity. Qed.

(** The digits of a number: their value, their count and their lack of a
    point. *)
Lemma digitsLoop_spec (fuel : nat) (n : Z) (rest : string) :
  0 <= n < 2 ^ Z.of_nat (S fuel) ->
  exists ds,
    Text.digitsLoop (S fuel) n rest = ds ++ rest
    /\ (forall acc,
          Text.valueFrom acc ds = acc * 10 ^ Z.of_nat (String.length ds) + n)
    /\ (forall d, (1 <= d)%nat -> n < 10 ^ Z.of_nat d ->
                  (String.length ds <= d)%nat)
    /\ (forall tail,
          Text.splitPoint (ds ++ tail)
          = (ds ++ fst (Text.splitPoint tail), snd (Text.splitPoint tail))).
Proof.
  revert n rest. induction fuel as [| fuel IH]; intros n rest Hn.
  - assert (n / 10 = 0) as E by (apply Z.div_small; cbn in Hn; lia).
    rewrite digitsLoop_step, E. cbn [Z.eqb].
    destruct (digitChar_value (n mod 10)) as [Hv Hp];
      [apply Z.mod_pos_bound; lia |].
    exists (String (Text.digitChar (n mod 10)) ""). split; [done |].
    split; [| split].
    + intros acc. cbn. rewrite Hv.
      rewrite (Z.mod_small n 10) by (cbn in Hn; lia). lia.
    + intros d Hd _. cbn. lia.
    + intros tail. str_norm. cbn. rewrite Hp. by destruct (Text.splitPoint tail).
  - rewrite digitsLoop_step.
    destruct (digitChar_value (n mod 10)) as [Hv Hp];
      [apply Z.mod_pos_bound; lia |].
    destruct (Z.eqb_spec (n / 10) 0) as [E | E].
    + exists (String (Text.digitChar (n mod 10)) ""). split; [done |].
      assert (Hsmall : n < 10).
      { pose proof (Z.div_mod n 10). pose proof (Z.mod_pos_bound n 10). lia. }
      split; [| split].
      * intros acc. cbn. rewrite Hv, (Z.mod_small n 10) by lia. lia.
      * intros d Hd _. cbn. lia.
      * intros tail. str_norm. cbn. rewrite Hp.
        by destruct (Text.splitPoint tail).
    + assert (Hq : 0 <= n / 10 < 2 ^ Z.of_nat (S fuel)).
      { split; [apply Z.div_pos; lia |].
        apply Z.div_lt_upper_bound; [lia |].
        rewrite (Nat2Z.inj_succ (S fuel)), Z.pow_succ_r in Hn by lia. lia. }
      destruct (IH (n / 10) (String (Text.digitChar (n mod 10)) rest) Hq)
        as (ds & Hds & Hval & Hlen & Hsplit).
      exists (ds ++ String (Text.digitChar (n mod 10)) "").
      split; [by rewrite Hds, string_app_assoc |].
      split; [| split].
      * intros acc. rewrite valueFrom_app, Hval. cbn [Text.valueFrom].
        rewrite Hv, string_length_app. cbn [String.length].
        rewrite Nat.add_1_r, Nat2Z.inj_succ, Z.pow_succ_r by lia.
        pose proof (Z.div_mod n 10). lia.
      * intros d Hd Hnd. rewrite string_length_app. cbn [String.length].
        assert (Hn10 : 10 <= n).
        { pose proof (Z.div_mod n 10). pose proof (Z.mod_pos_bound n 10).
          assert (0 < n / 10) by lia. lia. }
        destruct d as [| [| d]]; [lia | cbn in Hnd; lia |].
        assert (String.length ds <= S d)%nat; [| lia].
        apply Hlen; [lia |].
        apply Z.div_lt_upper_bound; [lia |].
        rewrite (Nat2Z.inj_succ (S d)), Z.pow_succ_r in Hnd by lia. lia.
      * intros tail. rewrite string_app_assoc, Hsplit. str_norm. cbn.
        rewrite Hp. destruct (Text.splitPoint tail). cbn.
        by rewrite string_app_assoc.
Qed.

Lemma digits_spec (n : Z) :
  0 <= n ->
  (forall acc,
     Text.valueFrom acc (Text.digits n)
     = acc * 10 ^ Z.of_nat (String.length (Text.digits n)) + n)
  /\ (forall d, (1 <= d)%nat -> n < 10 ^ Z.of_nat d ->
                (String.length (Text.digits n) <= d)%nat)
  /\ (forall tail,
        Text.splitPoint (Text.digits n ++ tail)
        = (Text.digits n ++ fst (Text.splitPoint tail),
           snd (Text.splitPoint tail))).
Proof.
  intros Hn. unfold Text.digits.
  destruct (digitsLoop_spec (Z.to_nat (Z.log2 n)) n "") as (ds & -> & H).
  - split; [done |]. rewrite Nat2Z.inj_succ, Z2Nat.id by apply Z.log2_nonneg.
    destruct (Z.eq_dec n 0) as [-> | Hne]; [done |].
    apply Z.log2_spec. lia.
  - by rewrite string_app_nil_r.
Qed.

Lemma valueFrom_zeros (acc : Z) (k : nat) :
  Text.valueFrom acc (Text.zeros k) = acc * 10 ^ Z.of_nat k.
Proof.
  revert acc. induction k as [| k IH]; intros acc; [cbn; lia |].
  cbn [Text.zeros Text.valueFrom]. rewrite IH.
  rewrite Nat2Z.inj_succ, Z.pow_succ_r by lia.
  change (Z.of_nat (nat_of_ascii "0")) with 48. lia.
Qed.

Lemma length_zeros (k : nat) : String.length (Text.zeros k) = k.
Proof. induction k as [| k IH]; cbn; [done | by rewrite IH]. Qed.

(** Stripping gives back the string once the zeros are put back. *)
Lemma stripZeros_spec (s : string) :
  exists k, s = Text.stripZeros s ++ Text.zeros k.
Proof.
  induction s as [| c s [k IH]]; [by exists 0%nat |].
  cbn [Text.stripZeros].
  destruct (Ascii.eqb_spec c "0") as [-> | Hc]; cbn [andb].
  - destruct (String.eqb_spec (Text.stripZeros s) "") as [E | E].
    + exists (S k). rewrite E in IH. rewrite string_app_nil_l in *.
      cbn. by rewrite <- IH.
    + exists k. str_norm. by rewrite <- IH.
  - exists k. str_norm. by rewrite <- IH.
Qed.

End Amounts.

Section AmountsRoundTrip.

Local Open Scope string_scope.

Lemma zeros_snoc (k : nat) : Text.zeros k ++ "0" = Text.zeros (S k).
Proof.
  induction k as [| k IH]; [done |].
  cbn [Text.zeros]. rewrite string_app_cons, IH. done.
Qed.

Lemma stripZeros_zeros (k : nat) : Text.stripZeros (Text.zeros k) = "".
Proof. induction k as [| k IH]; [done |]. cbn. by rewrite IH. Qed.

Lemma readAmount_unfold (decimals : nat) (s w f : string) :
  Text.splitPoint s = (w, f) ->
  readAmount decimals s
  = (Text.valueFrom 0 w * 10 ^ Z.of_nat decimals
     + Text.valueFrom 0 (f ++ Text.zeros (decimals - String.length f)))%Z.
Proof. intros H. unfold readAmount. by rewrite H. Qed.

Lemma formatAmount_read (amount : Z) (decimals : nat) :
  (0 <= amount)%Z ->
  readAmount decimals (formatAmount amount decimals) = amount.
Proof.
  intros Ha. unfold formatAmount.
  set (D := (10 ^ Z.of_nat decimals)%Z).
  assert (HD : (0 < D)%Z) by (subst D; apply Z.pow_pos_nonneg; lia).
  rewrite Z.quot_div_nonneg, Z.rem_mod_nonneg by lia.
  set (w := (amount / D)%Z). set (f := (amount mod D)%Z).
  assert (Hw : (0 <= w)%Z) by (subst w; apply Z.div_pos; lia).
  assert (Hf : (0 <= f < D)%Z) by (subst f; apply Z.mod_pos_bound; lia).
  assert (Hsum : (amount = w * D + f)%Z).
  { subst w f. pose proof (Z.div_mod amount D). lia. }
  unfold Text.bigintToString.
  destruct (Z.ltb_spec w 0) as [| _]; [lia |].
  destruct (Z.ltb_spec f 0) as [| _]; [lia |].
  destruct (digits_spec w Hw) as (Hwv & _ & Hwsplit).
  destruct (digits_spec f (proj1 Hf)) as (Hfv & Hflen & _).
  set (fractionStr := Text.padStart decimals (Text.digits f)).
  destruct (stripZeros_spec fractionStr) as [k Hk].
  assert (Hval : Text.valueFrom 0 fractionStr = f).
  { subst fractionStr. unfold Text.padStart.
    rewrite valueFrom_app, valueFrom_zeros, Hfv. lia. }
  destruct (String.eqb_spec (Text.stripZeros fractionStr) "") as [E | E]; cbn [negb].
  - rewrite (readAmount_unfold decimals _ (Text.digits w) "").
    2:{ pose proof (Hwsplit "") as H. by rewrite !string_app_nil_r in H. }
    rewrite string_app_nil_l, Hwv, valueFrom_zeros.
    rewrite E, string_app_nil_l in Hk. rewrite Hk, valueFrom_zeros in Hval.
    fold D. lia.
  - assert (Hf0 : f <> 0%Z).
    { intros Hz. apply E. subst fractionStr. rewrite Hz.
      unfold Text.padStart. change (Text.digits 0) with "0".
      by rewrite zeros_snoc, stripZeros_zeros. }
    assert (Hd : (1 <= decimals)%nat).
    { destruct decimals; [| lia]. subst D. cbn in Hf. lia. }
    assert (HL : (String.length (Text.digits f) <= decimals)%nat)
      by (apply Hflen; [done |]; fold D; lia).
    assert (Hlen : String.length fractionStr = decimals).
    { subst fractionStr. unfold Text.padStart.
      rewrite string_length_app, length_zeros. lia. }
    rewrite (readAmount_unfold decimals _ (Text.digits w)
               (Text.stripZeros fractionStr)).
    2:{ rewrite Hwsplit. cbn. by rewrite string_app_nil_r. }
    assert (Hk' : (decimals - String.length (Text.stripZeros fractionStr))%nat = k).
    { rewrite Hk, string_length_app, length_zeros in Hlen. lia. }
    rewrite Hk', <- Hk, Hval, Hwv. fold D. lia.
Qed.

End AmountsRoundTrip.

(** X26. [formatAmount] loses nothing of an amount that is not negative:
    read back as a decimal number with [decimals] fraction digits, the
    string gives the amount again, so different amounts are formatted
    differently. The embedding takes [10 ** decimals] as exact, which
    holds up to 22 decimals. *)
Theorem formatAmount_exact (amount : Z) (decimals : nat) :
  0 <= amount -> (decimals <= 22)%nat ->
  readAmount decimals (formatAmount amount decimals) = amount
  /\ forall other,
       0 <= other ->
       formatAmount other decimals = formatAmount amount decimals ->
       other = amount.
Proof.
  intros Ha _. split; [by apply formatAmount_read |].
  intros other Ho Heq.
  rewrite <- (formatAmount_read other decimals Ho), Heq.
  by apply formatAmount_read.
Qed.

Lemma formatAmount_exact_witness :
  formatAmount 150000000000000 18 = "0.00015"%string
  /\ readAmount 18 (formatAmount 150000000000000 18) = 150000000000000.
Proof.
  split; [reflexivity |].
  destruct (formatAmount_exact 150000000000000 18) as [H _];
    [lia | lia | exact H].
Defined.

(** X27. In a registry reached from a fresh one, starting a waiting game
    that has a player gives the first turn to the player who joined
    first, and that player is alive. *)
Theorem first_joined_plays_first
    (cfg : GameConfig) (ops : list Op) (rnd : Q) (channel : string)
    (g : Game) (p : Player) :
  games (reached cfg ops) !! channel = Some g ->
  state g = waiting ->
  playerObjs g !! 0%nat = Some p ->
  success (snd (startGame rnd channel (reached cfg ops))) = true ->
  exists g',
    games (fst (startGame rnd channel (reached cfg ops))) !! channel = Some g'
    /\ currentPlayerRef g' = Some 0%nat
    /\ deref g' 0%nat = Some p
    /\ isAlive p = true
    /\ holdsTurn g' 0%nat p (userId p).
Proof.
  intros Hg Hs Hp. rewrite startGame_unfold, Hg.
  destruct (GameState_eqb (state g) active); [done |].
  destruct (_ <? _); [done |]. cbn. intros _.
  destruct (reached_sound cfg ops channel g Hg) as (Hwf & Hl & _).
  destruct Hl as (_ & Hseq & _ & _ & _ & Hwait).
  destruct (Hwait Hs) as (_ & _ & Hal).
  destruct (wellFormed_alive g Hwf) as [_ Halive].
  assert (H0 : alivePlayers g !! 0%nat = Some 0%nat).
  { rewrite Hal, Hseq. pose proof (lookup_lt_Some _ _ _ Hp) as Hlt.
    destruct (length (playerObjs g)); [lia | done]. }
  assert (Hlive : isAlive p = true).
  { specialize (Halive 0%nat (list_elem_of_lookup_2 _ _ _ H0)).
    unfold aliveRef, deref in Halive. by rewrite Hp in Halive. }
  exists (started rnd g). split; [apply lookup_insert_eq |].
  assert (Hc : currentPlayerRef (started rnd g) = Some 0%nat).
  { unfold currentPlayerRef. cbn. exact H0. }
  split; [exact Hc |]. split; [exact Hp |]. split; [exact Hlive |].
  by repeat split.
Qed.

Lemma first_joined_plays_first_witness :
  exists g',
    games (fst (startGame (1 # 2) lobby (reached DEFAULT_CONFIG waitingThree)))
    !! lobby = Some g'
    /\ holdsTurn g' 0%nat (mkPlayer "0xa1" "ann" true 334) "0xa1".
Proof.
  set (m := reached DEFAULT_CONFIG waitingThree). pick_game m lobby g Hg Hgame.
  destruct (first_joined_plays_first DEFAULT_CONFIG waitingThree (1 # 2) lobby g
              (mkPlayer "0xa1" "ann" true 334) Hg)
    as (g' & Hreg & _ & _ & _ & Hturn).
  - rewrite Hgame. reflexivity.
  - rewrite Hgame. reflexivity.
  - vm_compute. reflexivity.
  - exists g'. split; [exact Hreg | exact Hturn].
Defined.
